(* ===================================================================== *)
(*  TileDB-BioImaging: the ingestion/export orchestrator of              *)
(*  tiledb/bioimg/converters/base.py, embedded in Rocq.                 *)
(*                                                                       *)
(*  Python ints are Z, dicts are gmaps, the TileDB storage is a gmap     *)
(*  from uri to stored object, and the code that raises or mutates the   *)
(*  storage runs in a state-and-exception monad over that store.         *)
(* ===================================================================== *)

From stdpp Require Import gmap strings list fin_maps pretty sorting.
From Stdlib Require Import ZArith Lia.

Local Open Scope string_scope.
Local Open Scope list_scope.
Local Open Scope Z_scope.

(* --------------------------------------------------------------------- *)
(*  Python exceptions and the result of a call that may raise            *)
(* --------------------------------------------------------------------- *)

Module Py.

Inductive exn :=
| NotImplementedError
| AssertionError
| KeyError (key : string)
| IndexError
| ValueError (msg : string)
| UnboundLocalError (name : string)
| TileDBError (msg : string)
| ReaderError (msg : string)
| IncompatibleAxesError
| InvalidInterpolationOrderError.

Inductive res (A : Type) :=
| Ok (a : A)
| Raise (e : exn).
Arguments Ok {A} a.
Arguments Raise {A} e.

Definition rbind {A B} (r : res A) (k : A -> res B) : res B :=
  match r with
  | Ok a => k a
  | Raise e => Raise e
  end.

(* a for loop that builds a list, left to right, stopping at the first
   exception *)
Fixpoint rmap {A B} (f : A -> res B) (l : list A) : res (list B) :=
  match l with
  | [] => Ok []
  | x :: l' =>
      rbind (f x) (fun y => rbind (rmap f l') (fun ys => Ok (y :: ys)))
  end.

(* builtin min(a, b): the first argument unless the second is smaller *)
Definition min (a b : Z) : Z := if b <? a then b else a.

(* range(lo, hi) *)
Definition range (lo hi : Z) : list Z := seqZ lo (hi - lo).

(* os.path.join(a, b) for a relative b (posixpath) *)
Definition ends_with_slash (a : string) : bool :=
  match String.rev a with
  | String c _ => bool_decide (String c "" = "/")
  | EmptyString => false
  end.

Definition path_join (a b : string) : string :=
  if decide (a = "") then b
  else if ends_with_slash a then a +:+ b
  else a +:+ "/" +:+ b.

End Py.
Export Py.

(* --------------------------------------------------------------------- *)
(*  The part of NumPy the schema policy calls                            *)
(* --------------------------------------------------------------------- *)

Module NumPy.

Inductive dtype :=
| uint8 | uint16 | uint32 | uint64
| int8 | int16 | int32 | int64
| float16 | float32 | float64.

Global Instance dtype_eq_dec : EqDecision dtype.
Proof. solve_decision. Defined.

(* what np.prod returns for a tuple of Python ints: an int64 scalar, or
   the float64 1.0 for the empty tuple *)
Inductive scalar :=
| Int64 (z : Z)
| Float64One.

(* two's complement wrap-around of int64 arithmetic *)
Definition wrap64 (z : Z) : Z := (z + 2 ^ 63) mod 2 ^ 64 - 2 ^ 63.

Definition product (l : list Z) : Z := foldr Z.mul 1 l.

(* np.prod over a tuple of ints that each fit in int64: the reduction is
   carried out in int64 and wraps silently *)
Definition prod (l : list Z) : scalar :=
  match l with
  | [] => Float64One
  | _ => Int64 (wrap64 (product l))
  end.

(* np.min_scalar_type on such a scalar *)
Definition min_scalar_type (x : scalar) : dtype :=
  match x with
  | Float64One => float16
  | Int64 z =>
      if 0 <=? z then
        if z <=? 255 then uint8
        else if z <=? 65535 then uint16
        else if z <=? 4294967295 then uint32
        else uint64
      else
        if -128 <=? z then int8
        else if -32768 <=? z then int16
        else if -2147483648 <=? z then int32
        else int64
  end.

(* width in bits of an unsigned integer dtype *)
Definition unsigned_width (d : dtype) : option Z :=
  match d with
  | uint8 => Some 8
  | uint16 => Some 16
  | uint32 => Some 32
  | uint64 => Some 64
  | _ => None
  end.

End NumPy.

(* --------------------------------------------------------------------- *)
(*  TileDB schemas                                                       *)
(* --------------------------------------------------------------------- *)

Module Schema.

(* tiledb.Filter: the compressor of the single attribute *)
Inductive Filter :=
| ZstdFilter (level : Z)
| WebpFilter (input_format : Z)
| OtherFilter (name : string).

Global Instance Filter_eq_dec : EqDecision Filter.
Proof. solve_decision. Defined.

Record Dim := mkDim {
  dim_name : string;
  dim_domain : Z * Z;
  dim_tile : Z;
  dim_dtype : NumPy.dtype
}.

Record Attr := mkAttr {
  attr_name : string;
  attr_dtype : NumPy.dtype;
  attr_filters : list Filter
}.

Record ArraySchema := mkSchema {
  domain : list Dim;
  attrs : list Attr
}.

(* the number of cells along a dimension with domain (lo, hi) *)
Definition dim_size (d : Dim) : Z := snd (dim_domain d) - fst (dim_domain d) + 1.

(* a.shape *)
Definition shape (s : ArraySchema) : list Z := dim_size <$> domain s.

Global Instance Dim_eq_dec : EqDecision Dim.
Proof. solve_decision. Defined.
Global Instance Attr_eq_dec : EqDecision Attr.
Proof. solve_decision. Defined.
Global Instance ArraySchema_eq_dec : EqDecision ArraySchema.
Proof. solve_decision. Defined.

End Schema.
Export Schema.

(* --------------------------------------------------------------------- *)
(*  Dimension/schema policy: ImageConverter._DEFAULT_TILES, the          *)
(*  max_tiles dict of to_tiledb and _get_schema                          *)
(* --------------------------------------------------------------------- *)

Module Policy.

(* a maximum tile: an int, or np.inf *)
Inductive tile_bound :=
| Fin (t : Z)
| Inf.

Global Instance tile_bound_eq_dec : EqDecision tile_bound.
Proof. solve_decision. Defined.

(* min(dim_size, bound) *)
Definition min_bound (dim_size : Z) (b : tile_bound) : Z :=
  match b with
  | Fin t => Py.min dim_size t
  | Inf => dim_size
  end.

(* bound *= pixel_depth, for the positive pixel depths *)
Definition mul_bound (pixel_depth : Z) (b : tile_bound) : tile_bound :=
  match b with
  | Fin t => Fin (t * pixel_depth)
  | Inf => Inf
  end.

(* setting a tile to "infinite" effectively makes it equal to the
   dimension size *)
Definition _DEFAULT_TILES : gmap string tile_bound :=
  <["T" := Fin 1]> (<["C" := Inf]> (<["Z" := Fin 1]>
    (<["Y" := Fin 1024]> (<["X" := Fin 1024]> ∅)))).

(* max_tiles = cls._DEFAULT_TILES.copy(); max_tiles.update(tiles);
   max_tiles["X"] *= pixel_depth *)
Definition max_tiles_of (tiles : gmap string Z) (pixel_depth : Z)
  : gmap string tile_bound :=
  alter (mul_bound pixel_depth) "X" ((Fin <$> tiles) ∪ _DEFAULT_TILES).

(* dim_dtype = np.min_scalar_type(np.prod(dim_shape)) *)
Definition index_dtype (dim_shape : list Z) : NumPy.dtype :=
  NumPy.min_scalar_type (NumPy.prod dim_shape).

Definition make_dim (max_tiles : gmap string tile_bound)
    (dim_dtype : NumPy.dtype) (nd : string * Z) : res Dim :=
  let '(dim_name, dim_size) := nd in
  match max_tiles !! dim_name with
  | None => Raise (KeyError dim_name)
  | Some b =>
      let dim_tile := min_bound dim_size b in
      Ok (mkDim dim_name (0, dim_size - 1) dim_tile dim_dtype)
  end.

(* the checks that tiledb.Dim, tiledb.Domain and tiledb.ArraySchema make
   on their arguments belong to the storage engine; here they build the
   records *)
Definition _get_schema (dim_names : list string) (dim_shape : list Z)
    (max_tiles : gmap string tile_bound) (attr_dtype : NumPy.dtype)
    (compressor : Filter) : res ArraySchema :=
  (* find the smallest dtype that can hold `np.prod(dim_shape)` values *)
  let dim_dtype := index_dtype dim_shape in
  if decide (length dim_names = length dim_shape) then
    rbind (rmap (make_dim max_tiles dim_dtype) (zip dim_names dim_shape))
      (fun dims =>
         let attr := mkAttr "" attr_dtype [compressor] in
         Ok (mkSchema dims [attr]))
  else Raise AssertionError.

End Policy.
Export Policy.

(* --------------------------------------------------------------------- *)
(*  In-memory images (numpy arrays) and tiles                            *)
(* --------------------------------------------------------------------- *)

Module NDArray.

(* an n-dimensional array: its shape and the value at each index tuple *)
Record ndarray := mk_ndarray {
  nd_shape : list Z;
  nd_at : list Z -> Z
}.

(* slice(start, stop) *)
Definition slice : Type := Z * Z.

(* a tile: one slice per axis *)
Definition tile : Type := list slice.

Definition tile_start (t : tile) : list Z := fst <$> t.
Definition tile_shape (t : tile) : list Z := (fun s : slice => snd s - fst s) <$> t.

(* the tile a[:] of an array of the given shape *)
Definition full_tile (shape : list Z) : tile := (fun e => (0, e)) <$> shape.

(* the index tuples of a tile, in row-major order *)
Fixpoint indices (t : tile) : list (list Z) :=
  match t with
  | [] => [[]]
  | s :: t' =>
      i ← seqZ (fst s) (snd s - fst s); (fun idx => i :: idx) <$> indices t'
  end.

Definition add_index (i j : list Z) : list Z := zip_with Z.add i j.
Definition sub_index (i j : list Z) : list Z := zip_with Z.sub i j.

(* image[tile] *)
Definition crop (a : ndarray) (t : tile) : ndarray :=
  mk_ndarray (tile_shape t) (fun j => nd_at a (add_index j (tile_start t))).

End NDArray.
Export NDArray.

(* --------------------------------------------------------------------- *)
(*  converters/tiles.py                                                  *)
(* --------------------------------------------------------------------- *)

Module Tiles.

Definition ceil_div (a b : Z) : Z := (a + b - 1) / b.

(** Modelled from the spec: converters/tiles.py is not part of the
    sources at hand. Along one dimension the slices are
    [k * tile, min((k + 1) * tile, extent)) for k below
    ceil(extent / tile): the final one is clipped to the extent. *)
Definition dim_slices (extent tile_size : Z) : list slice :=
  (fun k => (k * tile_size, Z.min ((k + 1) * tile_size) extent))
    <$> seqZ 0 (ceil_div extent tile_size).

(* itertools.product: row-major, the last dimension varies fastest *)
Fixpoint product_tiles (ss : list (list slice)) : list tile :=
  match ss with
  | [] => [[]]
  | s :: ss' => x ← s; (fun t => x :: t) <$> product_tiles ss'
  end.

(** Modelled from the spec: iter_tiles enumerates the tiles of a domain
    in row-major order over the per-dimension grid of slices. *)
Definition iter_tiles (dom : list Dim) : list tile :=
  product_tiles ((fun d => dim_slices (dim_size d) (dim_tile d)) <$> dom).

(** Modelled from the spec: num_tiles is the product of
    ceil(extent / tile_size) over the dimensions. *)
Definition num_tiles (dom : list Dim) : Z :=
  NumPy.product ((fun d => ceil_div (dim_size d) (dim_tile d)) <$> dom).

End Tiles.
Export Tiles.

(* --------------------------------------------------------------------- *)
(*  converters/axes.py                                                   *)
(* --------------------------------------------------------------------- *)

Module Axes.

(* Axes.dims, one label per axis *)
Definition Axes : Type := list string.

(* "".join(dims) *)
Definition join (dims : list string) : string := foldr String.append "" dims.

(** Modelled from the spec: converters/axes.py is not part of the
    sources at hand. canonical keeps the labels that are present, in
    the fixed priority T, C, Z, Y, X. *)
Definition canonical (self : Axes) (shape : list Z) : Axes :=
  filter (fun d => d ∈ self) ["T"; "C"; "Z"; "Y"; "X"].

Record AxesMapper := mk_mapper {
  source : Axes;
  target : Axes
}.

(** Modelled from the spec: AxesMapper(source, target) fails when the
    label sets differ. *)
Definition new_mapper (src tgt : Axes) : res AxesMapper :=
  if decide (list_to_set src =@{gset string} list_to_set tgt)
  then Ok (mk_mapper src tgt)
  else Raise IncompatibleAxesError.

Definition index_of (d : string) (l : Axes) : nat :=
  default 0%nat (fst <$> list_find (fun x => x = d) l).

(** Modelled from the spec: the permutation gives, for each target
    position, the source position of its label. *)
Definition perm (m : AxesMapper) : list nat :=
  (fun d => index_of d (source m)) <$> target m.

Definition permute {A} `{Inhabited A} (p : list nat) (l : list A) : list A :=
  (fun i => l !!! i) <$> p.

Definition inverted (m : AxesMapper) : AxesMapper :=
  mk_mapper (target m) (source m).

Definition map_shape (m : AxesMapper) (shape : list Z) : list Z :=
  permute (perm m) shape.

Definition map_tile (m : AxesMapper) (t : tile) : tile :=
  permute (perm m) t.

(** Modelled from the spec: map_array is a pure transposition; the value
    at a target index is the value at the source index it comes from. *)
Definition map_array (m : AxesMapper) (a : ndarray) : ndarray :=
  mk_ndarray (map_shape m (nd_shape a))
             (fun idx => nd_at a (permute (perm (inverted m)) idx)).

End Axes.
Export Axes.

(* --------------------------------------------------------------------- *)
(*  The storage engine: a store of groups and dense arrays by uri        *)
(* --------------------------------------------------------------------- *)

Module TileDB.

(* one entry of the levels list of the group metadata *)
Record LevelMeta := mkLevelMeta {
  lm_uri : string;
  lm_level : Z;
  lm_axes : string;
  lm_shape : list Z
}.

(* metadata values; json.dumps(levels_meta) is kept as the list it
   encodes *)
Inductive meta_value :=
| MInt (z : Z)
| MStr (s : string)
| MLevels (l : list LevelMeta).

Inductive object :=
| Group (meta : gmap string meta_value) (members : list (string * bool))
| Array (schema : ArraySchema) (meta : gmap string meta_value)
        (cells : gmap (list Z) Z).

Definition is_array (o : option object) : bool :=
  match o with
  | Some (Array _ _ _) => true
  | _ => false
  end.

Definition is_group (o : option object) : bool :=
  match o with
  | Some (Group _ _) => true
  | _ => false
  end.

(* a[tile] = image: every cell of the tile takes the value of the image
   at the offset from the tile start *)
Definition write_region (cells : gmap (list Z) Z) (t : tile) (image : ndarray)
  : gmap (list Z) Z :=
  foldr (fun idx c => <[idx := nd_at image (sub_index idx (tile_start t))]> c)
        cells (indices t).

End TileDB.
Export TileDB.

(* --------------------------------------------------------------------- *)
(*  The monad the converter runs in: store passing, exceptions, events   *)
(* --------------------------------------------------------------------- *)

Module World.

(* what a run does that the store does not keep: warnings, calls to the
   reader and to the writer, and the storage calls in their order *)
Inductive event :=
| EWarn (msg : string)
| EGroupCreate (uri : string)
| EArrayCreate (uri : string) (schema : ArraySchema)
| EArrayMeta (uri : string) (m : gmap string meta_value)
| ELevelImage (level : Z) (t : option tile)
| EThreadPool (max_workers : Z)
| EShutdown
| EWriteTile (uri : string) (t : tile)
| EWriteAll (uri : string)
| EScalerApply (src dst : string) (index : nat)
| EGroupMeta (uri : string) (m : gmap string meta_value)
| EGroupAdd (uri member : string) (relative : bool)
| ECloudRegister (path : string)
| EWriterOpen (path : string)
| EWriteGroupMetadata (m : gmap string meta_value)
| EWriteLevelImage (level : Z) (image : ndarray) (m : gmap string meta_value).

(* what a computation leaves: its value or the exception it raised, the
   store after it, and the events it produced; what was written before
   an exception stays written *)
Record outcome (A : Type) := mkOutcome {
  result : res A;
  final : gmap string object;
  trace : list event
}.
Arguments mkOutcome {A} _ _ _.
Arguments result {A} _.
Arguments final {A} _.
Arguments trace {A} _.

(* a computation on the store *)
Definition M (A : Type) : Type := gmap string object -> outcome A.

Definition ret {A} (a : A) : M A := fun st => mkOutcome (Ok a) st [].

Definition raise {A} (e : exn) : M A := fun st => mkOutcome (Raise e) st [].

Definition bind {A B} (m : M A) (k : A -> M B) : M B :=
  fun st =>
    let o := m st in
    match result o with
    | Ok a =>
        let o' := k a (final o) in
        mkOutcome (result o') (final o') (trace o ++ trace o')
    | Raise e => mkOutcome (Raise e) (final o) (trace o)
    end.

Definition lift {A} (r : res A) : M A := fun st => mkOutcome r st [].

Definition emit (e : event) : M unit := fun st => mkOutcome (Ok tt) st [e].

Definition get_store : M (gmap string object) :=
  fun st => mkOutcome (Ok st) st [].

Definition put_object (uri : string) (o : object) : M unit :=
  fun st => mkOutcome (Ok tt) (<[uri := o]> st) [].

Declare Scope monad_scope.
Delimit Scope monad_scope with monad.
Notation "x <- m ;; k" := (bind m (fun x => k))
  (at level 100, m at next level, right associativity) : monad_scope.
Notation "m ;;; k" := (bind m (fun _ => k))
  (at level 100, right associativity) : monad_scope.
Open Scope monad_scope.

(* a for loop threading the variables it assigns *)
Fixpoint for_each {A S} (l : list A) (body : A -> S -> M S) (s : S) : M S :=
  match l with
  | [] => ret s
  | x :: l' => s' <- body x s ;; for_each l' body s'
  end.

(* a for loop with no assigned variables *)
Fixpoint for_each_ {A} (l : list A) (body : A -> M unit) : M unit :=
  match l with
  | [] => ret tt
  | x :: l' => body x ;;; for_each_ l' body
  end.

(* ---- the storage calls ---- *)

(* tiledb.object_type(uri) *)
Definition object_type (uri : string) : M (option string) :=
  st <- get_store ;;
  ret (match st !! uri with
       | Some (Group _ _) => Some "group"
       | Some (Array _ _ _) => Some "array"
       | None => None
       end).

(* tiledb.group_create(uri) *)
Definition group_create (uri : string) : M unit :=
  st <- get_store ;;
  match st !! uri with
  | Some _ => raise (TileDBError "object already exists")
  | None => emit (EGroupCreate uri) ;;; put_object uri (Group ∅ [])
  end.

(* tiledb.Array.create(uri, schema) *)
Definition Array_create (uri : string) (schema : ArraySchema) : M unit :=
  st <- get_store ;;
  match st !! uri with
  | Some _ => raise (TileDBError "object already exists")
  | None => emit (EArrayCreate uri schema) ;;; put_object uri (Array schema ∅ ∅)
  end.

(* tiledb.open(uri, mode): the schema of the array opened *)
Definition open_array (uri : string) : M ArraySchema :=
  st <- get_store ;;
  match st !! uri with
  | Some (Array schema _ _) => ret schema
  | _ => raise (TileDBError "not an array")
  end.

(* a.meta.update(m): the new entries override the old ones *)
Definition array_meta_update (uri : string) (m : gmap string meta_value) : M unit :=
  st <- get_store ;;
  match st !! uri with
  | Some (Array schema meta cells) =>
      emit (EArrayMeta uri m) ;;; put_object uri (Array schema (m ∪ meta) cells)
  | _ => raise (TileDBError "not an array")
  end.

(* a[tile] = image *)
Definition array_write (uri : string) (t : tile) (image : ndarray) : M unit :=
  st <- get_store ;;
  match st !! uri with
  | Some (Array schema meta cells) =>
      if decide (nd_shape image = tile_shape t)
      then put_object uri (Array schema meta (write_region cells t image))
      else raise (ValueError "shape mismatch")
  | _ => raise (TileDBError "not an array")
  end.

(* a[:] *)
Definition array_read (uri : string) : M (ArraySchema * gmap (list Z) Z) :=
  st <- get_store ;;
  match st !! uri with
  | Some (Array schema _ cells) => ret (schema, cells)
  | _ => raise (TileDBError "not an array")
  end.

(* group.meta.update(m) on tiledb.Group(uri, "w") *)
Definition group_meta_update (uri : string) (m : gmap string meta_value) : M unit :=
  st <- get_store ;;
  match st !! uri with
  | Some (Group meta members) =>
      emit (EGroupMeta uri m) ;;; put_object uri (Group (m ∪ meta) members)
  | _ => raise (TileDBError "not a group")
  end.

(* group.add(member, relative) *)
Definition group_add (uri member : string) (relative : bool) : M unit :=
  st <- get_store ;;
  match st !! uri with
  | Some (Group meta members) =>
      emit (EGroupAdd uri member relative) ;;;
      put_object uri (Group meta (members ++ [(member, relative)]))
  | _ => raise (TileDBError "not a group")
  end.

Global Arguments object_type : simpl never.
Global Arguments group_create : simpl never.
Global Arguments Array_create : simpl never.
Global Arguments open_array : simpl never.
Global Arguments array_meta_update : simpl never.
Global Arguments array_write : simpl never.
Global Arguments array_read : simpl never.
Global Arguments group_meta_update : simpl never.
Global Arguments group_add : simpl never.

End World.
Export World.

(* --------------------------------------------------------------------- *)
(*  converters/scale.py                                                  *)
(* --------------------------------------------------------------------- *)

Module Scale.

(* the keyword arguments of the scaler, as the docstring of to_tiledb
   lists them *)
Record PyramidKwargs := mkPyramidKwargs {
  scale_factors : list Z;
  scale_axes : string;
  pk_chunked : bool;
  pk_progressive : bool;
  order : Z;
  pk_max_workers : option Z
}.

Record Scaler := mkScaler {
  level_shapes : list (list Z);
  progressive : bool;
  kwargs : PyramidKwargs
}.

(* the one-character labels of an axes string *)
Fixpoint chars (s : string) : list string :=
  match s with
  | EmptyString => []
  | String c s' => String c "" :: chars s'
  end.

(** Modelled from the spec: converters/scale.py is not part of the
    sources at hand. One shape per scale factor; an extent is divided
    by the factor, rounding up, when its axis is scaled, and kept
    otherwise. *)
Definition scaled_shape (base_shape : list Z) (axes : string)
    (kw : PyramidKwargs) (factor : Z) : list Z :=
  zip_with (fun ax e => if decide (ax ∈ chars (scale_axes kw))
                        then ceil_div e factor else e)
           (chars axes) base_shape.

(** Modelled from the spec: the constructor fails when the interpolation
    order is outside 0..5. *)
Definition new_scaler (base_shape : list Z) (axes : string)
    (kw : PyramidKwargs) : res Scaler :=
  if decide (0 <= order kw <= 5)
  then Ok (mkScaler (scaled_shape base_shape axes kw <$> scale_factors kw)
                    (pk_progressive kw) kw)
  else Raise InvalidInterpolationOrderError.

End Scale.
Export Scale.

(* --------------------------------------------------------------------- *)
(*  The collaborators of the converter                                   *)
(* --------------------------------------------------------------------- *)

Module Interfaces.

(* class ImageReader(ABC) *)
Record ImageReader := mkReader {
  axes : Axes;
  level_count : Z;
  level_dtype : Z -> res NumPy.dtype;
  level_shape : Z -> res (list Z);
  level_image : Z -> option tile -> res ndarray;
  level_metadata : Z -> res (gmap string meta_value);
  group_metadata : gmap string meta_value
}.

(* class ImageWriter(ABC), with the state the writer keeps *)
Record ImageWriter := mkWriter {
  writer_state : Type;
  writer_init : string -> writer_state;
  write_group_metadata :
    gmap string meta_value -> writer_state -> res writer_state;
  write_level_image :
    Z -> ndarray -> gmap string meta_value -> writer_state -> res writer_state
}.

(* what from_tiledb uses of TileDBOpenSlide *)
Record Slide := mkSlide {
  levels : list Z;
  properties : gmap string meta_value;
  read_level : Z -> bool -> res ndarray;
  level_properties : Z -> res (gmap string meta_value)
}.

(* an ImageConverter subclass *)
Record Converter := mkConverter {
  _ImageReaderType : option (string -> ImageReader);
  _ImageWriterType : option ImageWriter
}.

(* what the converter imports and the sources at hand do not define *)
Class Env := mkEnv {
  (* ..openslide.get_pixel_depth *)
  get_pixel_depth : Filter -> Z;
  (* ..version.version, converters.FMT_VERSION, converters.DATASET_TYPE *)
  version : string;
  FMT_VERSION : Z;
  DATASET_TYPE : string;
  (* the interpolation of Scaler.apply: the image of level `index` from
     the schema and cells of the array it reads *)
  resample : Scaler -> nat -> ArraySchema -> gmap (list Z) Z -> ndarray;
  (* the order in which a thread pool gets through the tiles *)
  schedule : list tile -> list tile;
  (* urllib.parse.urlparse(uri).scheme and os.path.basename *)
  urlparse_scheme : string -> string;
  basename : string -> string;
  (* TileDBOpenSlide(input_path), opened on the store *)
  TileDBOpenSlide : gmap string object -> string -> res Slide
}.

End Interfaces.
Export Interfaces.

(* --------------------------------------------------------------------- *)
(*  converters/base.py                                                   *)
(* --------------------------------------------------------------------- *)

Module Converter.
Section WithEnv.

Context {E : Env}.

(* the keyword-only arguments of to_tiledb *)
Record Options := mkOptions {
  level_min : Z;
  tiles : gmap string Z;
  preserve_axes : bool;
  chunked : bool;
  max_workers : Z;
  compressor : Filter;
  pyramid_kwargs : option PyramidKwargs
}.

(* os.path.join(output_path, f"l_{level}.tdb") *)
Definition level_uri (output_path : string) (level : Z) : string :=
  path_join output_path ("l_" +:+ pretty level +:+ ".tdb").

(* ---- _scale ---- *)

(* scaler.apply(base, output, index) *)
Definition scaler_apply (scaler : Scaler) (src dst : string) (index : nat)
  : M unit :=
  base <- array_read src ;;
  out <- open_array dst ;;
  emit (EScalerApply src dst index) ;;;
  array_write dst (full_tile (shape out))
              (resample scaler index (fst base) (snd base)).

Definition scale_level (scaler : Scaler) (output_path : string)
    (dim_names : list string) (attr_dtype : NumPy.dtype)
    (tiles : gmap string tile_bound) (compressor : Filter)
    (ils : nat * list Z) (st : list string * list LevelMeta * Z)
  : M (list string * list LevelMeta * Z) :=
  let '(index, level_shape) := ils in
  let '(uris, levels_meta, level) := st in
  let uri := level_uri output_path level in
  schema <- lift (_get_schema dim_names level_shape tiles attr_dtype compressor) ;;
  Array_create uri schema ;;;
  let meta_kvstore := mkLevelMeta uri level (join dim_names) level_shape in
  let levels_meta := levels_meta ++ [meta_kvstore] in
  (* if a non-progressive method is used the input layer of the scaler
     is the base image layer else we use the previously generated layer *)
  src <- lift (match (if progressive scaler then last uris else head uris) with
               | Some u => Ok u
               | None => Raise IndexError
               end) ;;
  open_array src ;;;
  open_array uri ;;;
  array_meta_update uri {["level" := MInt level]} ;;;
  scaler_apply scaler src uri index ;;;
  ret (uris ++ [uri], levels_meta, level + 1).

Definition _scale (uris : list string) (levels_meta : list LevelMeta)
    (output_path : string) (level_min : Z) (dim_names : list string)
    (attr_dtype : NumPy.dtype) (tiles : gmap string tile_bound)
    (compressor : Filter) (pyramid_kwargs : PyramidKwargs)
  : M (list string * list LevelMeta) :=
  uri0 <- lift (match head uris with
                | Some u => Ok u
                | None => Raise IndexError
                end) ;;
  a <- open_array uri0 ;;
  scaler <- lift (new_scaler (shape a) (join dim_names) pyramid_kwargs) ;;
  let level := level_min + 1 in
  st <- for_each (imap (fun index level_shape => (index, level_shape))
                       (level_shapes scaler))
                 (scale_level scaler output_path dim_names attr_dtype tiles
                              compressor)
                 (uris, levels_meta, level) ;;
  ret (fst (fst st), snd (fst st)).

(* ---- to_tiledb ---- *)

(* the variables the level loop assigns and the code after it reads *)
Record locals := mkLocals {
  l_uris : list string;
  l_levels_meta : list LevelMeta;
  l_dim_names : option (list string);
  l_attr_dtype : option NumPy.dtype
}.

(* ThreadPoolExecutor(max_workers) *)
Definition ThreadPoolExecutor (max_workers : Z) : M unit :=
  if max_workers <=? 0
  then raise (ValueError "max_workers must be greater than 0")
  else emit (EThreadPool max_workers).

Definition tile_to_tiledb (reader : ImageReader) (level : Z) (uri : string)
    (axes_mapper inv_axes_mapper : AxesMapper) (level_tile : tile) : M unit :=
  let source_tile := map_tile inv_axes_mapper level_tile in
  emit (ELevelImage level (Some source_tile)) ;;;
  image <- lift (level_image reader level (Some source_tile)) ;;
  array_write uri level_tile (map_array axes_mapper image) ;;;
  emit (EWriteTile uri level_tile).

(* the body of `with tiledb.open(uri, "w") as a` *)
Definition write_level (reader : ImageReader) (level : Z) (uri : string)
    (axes_mapper : AxesMapper) (chunked : bool) (max_workers : Z) : M unit :=
  a <- open_array uri ;;
  md <- lift (level_metadata reader level) ;;
  array_meta_update uri (<["level" := MInt level]> md) ;;;
  if chunked || negb (max_workers =? 0) then
    let inv_axes_mapper := inverted axes_mapper in
    let ex := negb (max_workers =? 0) in
    (if ex then ThreadPoolExecutor max_workers else ret tt) ;;;
    for_each_ ((if ex then schedule else id) (iter_tiles (domain a)))
              (tile_to_tiledb reader level uri axes_mapper inv_axes_mapper) ;;;
    (if ex then emit EShutdown else ret tt)
  else
    emit (ELevelImage level None) ;;;
    image <- lift (level_image reader level None) ;;
    array_write uri (full_tile (shape a)) (map_array axes_mapper image) ;;;
    emit (EWriteAll uri).

(* one iteration of `for level in range(level_min, level_max)` *)
Definition convert_level (reader : ImageReader) (output_path : string)
    (o : Options) (pixel_depth : Z) (max_tiles : gmap string tile_bound)
    (level : Z) (st : locals) : M locals :=
  let source_axes := axes reader in
  let uri := level_uri output_path level in
  ot <- object_type uri ;;
  if decide (ot = Some "array") then
    (* level has already been converted *)
    ret st
  else
    (* create mapper from source to target axes *)
    source_shape <- lift (level_shape reader level) ;;
    if decide (pixel_depth = 1) then
      let target_axes :=
        if preserve_axes o then source_axes
        else canonical source_axes source_shape in
      axes_mapper <- lift (new_mapper source_axes target_axes) ;;
      let dim_names := target_axes in
      (* create TileDB array *)
      let dim_shape := map_shape axes_mapper source_shape in
      attr_dtype <- lift (level_dtype reader level) ;;
      schema <- lift (_get_schema dim_names dim_shape max_tiles attr_dtype
                                  (compressor o)) ;;
      Array_create uri schema ;;;
      (* Store layer mapping with shape value *)
      let meta_kvstore := mkLevelMeta uri level (join dim_names) dim_shape in
      (* write image and metadata to TileDB array *)
      write_level reader level uri axes_mapper (chunked o) (max_workers o) ;;;
      ret (mkLocals (l_uris st ++ [uri]) (l_levels_meta st ++ [meta_kvstore])
                    (Some dim_names) (Some attr_dtype))
    else raise NotImplementedError.

(* reading a variable that an earlier statement may not have assigned *)
Definition read_local {A} (name : string) (v : option A) : M A :=
  match v with
  | Some a => ret a
  | None => raise (UnboundLocalError name)
  end.

Definition group_meta (reader : ImageReader) (levels_meta : list LevelMeta)
  : gmap string meta_value :=
  <["axes" := MStr (join (axes reader))]>
    (<["pkg_version" := MStr version]>
      (<["fmt_version" := MInt FMT_VERSION]>
        (<["dataset_type" := MStr DATASET_TYPE]>
          (<["levels" := MLevels levels_meta]> (group_metadata reader))))).

Definition multiple_levels_warning : string :=
  "The image contains multiple levels but pyramid generation is enabled. All levels except level zero will be skipped".

(* level_max of to_tiledb *)
Definition level_max (reader : ImageReader) (o : Options) : Z :=
  match pyramid_kwargs o with
  | None => level_count reader
  | Some _ => level_min o + 1
  end.

(* the end of to_tiledb: `with tiledb.Group(output_path, "w") as group`
   and the registration *)
Definition write_group (reader : ImageReader) (output_path : string)
    (uris : list string) (levels_meta : list LevelMeta) : M unit :=
  (* Write group metadata *)
  group_meta_update output_path (group_meta reader levels_meta) ;;;
  for_each_ uris
    (fun uri =>
       if decide (urlparse_scheme uri = "tiledb")
       then group_add output_path uri false
       else group_add output_path (basename uri) true) ;;;
  (* Register group in cloud if package exists *)
  if String.prefix "tiledb://" output_path
  then emit (ECloudRegister output_path) else ret tt.

(* the statements of to_tiledb after the level loop: the pyramid and the
   group metadata *)
Definition after_levels (reader : ImageReader) (output_path : string)
    (o : Options) (max_tiles : gmap string tile_bound) (st : locals) : M unit :=
  ul <- match pyramid_kwargs o with
        | Some kw =>
            dim_names <- read_local "dim_names" (l_dim_names st) ;;
            attr_dtype <- read_local "attr_dtype" (l_attr_dtype st) ;;
            _scale (l_uris st) (l_levels_meta st) output_path (level_min o)
                   dim_names attr_dtype max_tiles (compressor o) kw
        | None => ret (l_uris st, l_levels_meta st)
        end ;;
  write_group reader output_path (fst ul) (snd ul).

(* the statements of to_tiledb before the level loop, once the reader
   type is known *)
Definition before_levels (reader : ImageReader) (output_path : string)
    (o : Options) : M unit :=
  ot <- object_type output_path ;;
  (if decide (ot = Some "group") then ret tt
   else group_create output_path) ;;;
  if (level_min o + 1 <? level_count reader)
     && bool_decide (is_Some (pyramid_kwargs o))
  then emit (EWarn multiple_levels_warning) else ret tt.

Definition to_tiledb (cls : Converter) (input_path output_path : string)
    (o : Options) : M unit :=
  match _ImageReaderType cls with
  | None => raise NotImplementedError
  | Some ReaderType =>
      let pixel_depth := get_pixel_depth (compressor o) in
      let max_tiles := max_tiles_of (tiles o) pixel_depth in
      let reader := ReaderType input_path in
      before_levels reader output_path o ;;;
      (* Create a TileDB array for each level in
         range(level_min, reader.level_count) *)
      st <- for_each (range (level_min o) (level_max reader o))
                     (convert_level reader output_path o pixel_depth max_tiles)
                     (mkLocals [] [] None None) ;;
      after_levels reader output_path o max_tiles st
  end.

(* ---- from_tiledb ---- *)

Definition export_level (W : ImageWriter) (slide : Slide) (level_min : Z)
    (level : Z) (writer : writer_state W) : M (writer_state W) :=
  if level <? level_min then ret writer
  else
    level_image <- lift (read_level slide level true) ;;
    level_metadata <- lift (level_properties slide level) ;;
    emit (EWriteLevelImage level level_image level_metadata) ;;;
    lift (write_level_image W level level_image level_metadata writer).

Definition from_tiledb (cls : Converter) (input_path output_path : string)
    (level_min : Z) : M unit :=
  match _ImageWriterType cls with
  | None => raise NotImplementedError
  | Some W =>
      st <- get_store ;;
      slide <- lift (TileDBOpenSlide st input_path) ;;
      emit (EWriterOpen output_path) ;;;
      let writer := writer_init W output_path in
      emit (EWriteGroupMetadata (properties slide)) ;;;
      writer <- lift (write_group_metadata W (properties slide) writer) ;;
      for_each (levels slide) (export_level W slide level_min) writer ;;;
      ret tt
  end.

End WithEnv.
End Converter.
Export Converter.

(* --------------------------------------------------------------------- *)
(*  What the code outside the converter raises                           *)
(* --------------------------------------------------------------------- *)

Module Raised.

(* the exceptions of openslide.py and wrappers.py: those of the converter
   and of the storage, and three more *)
Inductive raised :=
| TypeError
| StopIteration
| ImportError (name : string)
| PyExn (e : Py.exn).

Inductive answer (A : Type) :=
| Returns (a : A)
| Raises (e : raised).
Arguments Returns {A} a.
Arguments Raises {A} e.

Definition abind {A B} (r : answer A) (k : A -> answer B) : answer B :=
  match r with
  | Returns a => k a
  | Raises e => Raises e
  end.

(* a loop that builds a list, left to right, stopping at the first
   exception *)
Fixpoint amap {A B} (f : A -> answer B) (l : list A) : answer (list B) :=
  match l with
  | [] => Returns []
  | x :: l' =>
      abind (f x) (fun y => abind (amap f l') (fun ys => Returns (y :: ys)))
  end.

End Raised.

(* --------------------------------------------------------------------- *)
(*  tiledb/bioimg/openslide.py                                           *)
(* --------------------------------------------------------------------- *)

Module OpenSlide.
Import Raised.

Section WithOrder.

(* Python's < between two metadata values that are both str (MStr, or
   the JSON text that MLevels stands for) *)
Variable str_lt : meta_value -> meta_value -> bool.

(* an array opened for reading: what it held when it was opened *)
Record OpenArray := mkOpenArray {
  oa_uri : string;
  oa_schema : ArraySchema;
  oa_meta : gmap string meta_value;
  oa_cells : gmap (list Z) Z
}.

(* class TileDBOpenSlide: self._level_arrays *)
Record TileDBOpenSlide := mkTileDBOpenSlide {
  _level_arrays : list OpenArray
}.

(* o.uri for a member o of the group at `group`: a relative member is
   resolved under the uri of the group *)
Definition member_uri (group : string) (o : string * bool) : string :=
  if snd o then path_join group (fst o) else fst o.

(* tiledb.open(uri) *)
Definition open_read (st : gmap string object) (uri : string) : answer OpenArray :=
  match st !! uri with
  | Some (Array schema meta cells) => Returns (mkOpenArray uri schema meta cells)
  | _ => Raises (PyExn (TileDBError "not an array"))
  end.

(* array.meta.get("level", 0) *)
Definition level_of (array : OpenArray) : meta_value :=
  default (MInt 0) (oa_meta array !! "level").

(* a < b on two of these values: ints compare as numbers, strs as text,
   an int and a str do not compare *)
Definition lt (a b : meta_value) : answer bool :=
  match a, b with
  | MInt x, MInt y => Returns (x <? y)
  | MInt _, _ | _, MInt _ => Raises TypeError
  | _, _ => Returns (str_lt a b)
  end.

(* level_info.sort(key=itemgetter(0)): the sort is stable; written as
   the insertion, from the right, of each pair before the first pair that
   is not smaller. A list with an int and a str among its keys makes
   every sort raise, and a list of one pair is not compared at all *)
Fixpoint insert_level (x : meta_value * OpenArray)
    (l : list (meta_value * OpenArray)) : answer (list (meta_value * OpenArray)) :=
  match l with
  | [] => Returns [x]
  | y :: l' =>
      abind (lt (fst y) (fst x))
        (fun smaller =>
           if smaller : bool
           then abind (insert_level x l') (fun r => Returns (y :: r))
           else Returns (x :: y :: l'))
  end.

Fixpoint sort_levels (l : list (meta_value * OpenArray))
  : answer (list (meta_value * OpenArray)) :=
  match l with
  | [] => Returns []
  | x :: l' => abind (sort_levels l') (insert_level x)
  end.

(* TileDBOpenSlide.from_group_uri(uri), on the store; the members of the
   group are gone through in the order the group lists them *)
Definition from_group_uri (st : gmap string object) (uri : string)
  : answer TileDBOpenSlide :=
  match st !! uri with
  | Some (Group _ members) =>
      abind (amap (fun o =>
                     abind (open_read st (member_uri uri o))
                       (fun array => Returns (level_of array, array)))
                  members)
        (fun level_info =>
           (* sort by level *)
           abind (sort_levels level_info)
             (fun level_info => Returns (mkTileDBOpenSlide (snd <$> level_info))))
  | _ => Raises (PyExn (TileDBError "not a group"))
  end.

(* The number of levels in the slide *)
Definition level_count (self : TileDBOpenSlide) : Z :=
  Z.of_nat (length (_level_arrays self)).

(* a.dim(name): the dimension of that name *)
Definition dim (a : OpenArray) (name : string) : answer Dim :=
  match list_find (fun d => dim_name d = name) (domain (oa_schema a)) with
  | Some (_, d) => Returns d
  | None => Raises (PyExn (TileDBError "invalid dimension name"))
  end.

(* dims.index(d): the position of the first dimension equal to d *)
Definition index (dims : list Dim) (d : Dim) : answer nat :=
  match list_find (fun d' => d' = d) dims with
  | Some (i, _) => Returns i
  | None => Raises (PyExn (ValueError "not in list"))
  end.

(* one step of _iter_level_dimensions:
   a.shape[dims.index(a.dim("X"))], a.shape[dims.index(a.dim("Y"))] *)
Definition level_dimension (a : OpenArray) : answer (Z * Z) :=
  let dims := domain (oa_schema a) in
  abind (dim a "X") (fun dx =>
  abind (index dims dx) (fun ix =>
  abind (dim a "Y") (fun dy =>
  abind (index dims dy) (fun iy =>
  Returns (shape (oa_schema a) !!! ix, shape (oa_schema a) !!! iy))))).

(* A (width, height) tuple for level 0 of the slide: the first value of
   the generator, which is not run further *)
Definition dimensions (self : TileDBOpenSlide) : answer (Z * Z) :=
  match _level_arrays self with
  | [] => Raises StopIteration
  | a :: _ => level_dimension a
  end.

(* A sequence of (width, height) tuples, one for each level *)
Definition level_dimensions (self : TileDBOpenSlide) : answer (list (Z * Z)) :=
  amap level_dimension (_level_arrays self).

End WithOrder.

End OpenSlide.

(* --------------------------------------------------------------------- *)
(*  tiledb/bioimg/wrappers.py                                            *)
(* --------------------------------------------------------------------- *)

Module Wrappers.
Import Raised.

(* the Python values that the wrappers pass around: None, bools, ints,
   strs, dicts with str keys, and other objects, which are taken to have
   no item assignment *)
#[warnings="-register-all"] Inductive value :=
| VNone
| VBool (b : bool)
| VInt (z : Z)
| VStr (s : string)
| VObj (name : string)
| VDict (d : gmap string value).

(* types.Converters is not part of the sources at hand: the wrappers
   test their argument against the members OMETIFF and OMEZARR only *)
Inductive Converters :=
| OMETIFF
| OMEZARR
| OtherConverter (name : string).

(* the two classmethods of a converter class that the wrappers call, as
   functions of the keyword arguments they get *)
Record ConverterClass := mkConverterClass {
  to_tiledb : gmap string value -> answer value;
  from_tiledb : gmap string value -> answer value
}.

(* what a guarded import at the top of the module left: the exception
   kept in _tiff_exc, _zarr_exc or _osd_exc, or the class *)
Inductive imported :=
| Failed (name : string)
| Imported (c : ConverterClass).

Record Module_ := mkModule {
  OMETiffConverter : imported;
  OMEZarrConverter : imported;
  OpenSlideConverter : imported;
  (* helpers.get_logger_wrapper *)
  get_logger_wrapper : bool -> value
}.

(* obj[key] = v *)
Definition setitem (obj : value) (key : string) (v : value) : answer value :=
  match obj with
  | VDict d => Returns (VDict (<[key := v]> d))
  | _ => Raises TypeError
  end.

(* f(k1=v1, ..., **kwargs): a keyword given twice is a TypeError, raised
   before f is entered *)
Definition call (f : gmap string value -> answer value)
    (keywords : list (string * value)) (kwargs : gmap string value)
  : answer value :=
  if decide (Forall (fun k => kwargs !! k = None) keywords.*1)
  then f (list_to_map keywords ∪ kwargs)
  else Raises TypeError.

(* what a wrapper leaves: the messages it logged with logger.info, and
   its answer *)
Definition logged (A : Type) : Type := list string * answer A.

Definition run_imported (i : imported) (msg : string)
    (k : ConverterClass -> answer value) : logged value :=
  match i with
  | Imported c => ([msg], k c)
  | Failed name => ([], Raises (ImportError name))
  end.

Definition from_bioimg (M : Module_) (src dest : string) (converter : Converters)
    (verbose exclude_metadata : bool) (tile_scale : Z)
    (kwargs : gmap string value) : logged value :=
  let logger := get_logger_wrapper M verbose in
  let reader_kwargs := default (VDict ∅) (kwargs !! "reader_kwargs") in
  (* Get the config for the source *)
  let source_config := default VNone (kwargs !! "source_config") in
  let kwargs := delete "source_config" kwargs in
  match setitem reader_kwargs "source_config" source_config with
  | Raises e => ([], Raises e)
  | Returns reader_kwargs =>
      (* Get the config for the destination (if exists) otherwise match it
         with source config *)
      let dest_config := default source_config (kwargs !! "dest_config") in
      let kwargs := delete "dest_config" kwargs in
      match setitem reader_kwargs "dest_config" dest_config with
      | Raises e => ([], Raises e)
      | Returns reader_kwargs =>
          (* the dict that kwargs holds under reader_kwargs, when it holds
             one, is the very dict that was updated *)
          let kwargs := if decide (is_Some (kwargs !! "reader_kwargs"))
                        then <["reader_kwargs" := reader_kwargs]> kwargs
                        else kwargs in
          let keywords :=
            [("source", VStr src); ("output_path", VStr dest); ("log", logger);
             ("exclude_metadata", VBool exclude_metadata);
             ("tile_scale", VInt tile_scale); ("reader_kwargs", reader_kwargs)] in
          match converter with
          | OMETIFF =>
              run_imported (OMETiffConverter M) "Converting OME-TIFF file"
                (fun c => call (to_tiledb c) keywords kwargs)
          | OMEZARR =>
              run_imported (OMEZarrConverter M) "Converting OME-Zarr file"
                (fun c => call (to_tiledb c) keywords kwargs)
          | _ =>
              run_imported (OpenSlideConverter M) "Converting Openslide"
                (fun c => call (to_tiledb c) keywords kwargs)
          end
      end
  end.

Definition to_bioimg (M : Module_) (src dest : string) (converter : Converters)
    (verbose : bool) (kwargs : gmap string value) : logged value :=
  let logger := get_logger_wrapper M verbose in
  let keywords :=
    [("input_path", VStr src); ("output_path", VStr dest); ("log", logger)] in
  match converter with
  | OMETIFF =>
      run_imported (OMETiffConverter M) "Converting to OME-TIFF file"
        (fun c => call (from_tiledb c) keywords kwargs)
  | OMEZARR =>
      run_imported (OMEZarrConverter M) "Converting to OME-Zarr file"
        (fun c => call (from_tiledb c) keywords kwargs)
  | _ => ([], Raises (PyExn NotImplementedError))
  end.

End Wrappers.

(* --------------------------------------------------------------------- *)
(*  tests/__init__.py                                                    *)
(* --------------------------------------------------------------------- *)

Module TestHelpers.

(* get_schema(x_size, y_size, c_size, compressor): the schema that the
   tests expect for an image of c_size channels *)
Definition get_schema (x_size y_size c_size : Z) (compressor : Filter)
  : ArraySchema :=
  let x_tile := Py.min x_size 1024 in
  let y_tile := Py.min y_size 1024 in
  let webp := match compressor with WebpFilter _ => true | _ => false end in
  let x_size' := if webp then x_size * c_size else x_size in
  let x_tile' := if webp then x_tile * c_size else x_tile in
  let dims :=
    (if webp then []
     else [mkDim "C" (0, c_size - 1) c_size NumPy.uint32])
    ++ [mkDim "Y" (0, y_size - 1) y_tile NumPy.uint32;
        mkDim "X" (0, x_size' - 1) x_tile' NumPy.uint32] in
  mkSchema dims [mkAttr "" NumPy.uint8 [compressor]].

End TestHelpers.

(* --------------------------------------------------------------------- *)
(*  A small image and its collaborators, to run the converter on         *)
(* --------------------------------------------------------------------- *)

Module Demo.

(* an image whose value at an index spells the index in decimal *)
Definition image_of (shape : list Z) : ndarray :=
  mk_ndarray shape (fun idx => foldl (fun a i => 10 * a + i) 1 idx).

Definition shape_of (level : Z) : list Z :=
  if level =? 0 then [4; 3; 2] else [2; 2; 2].

(* a two-level image with axes YXC *)
Definition reader : ImageReader :=
  mkReader ["Y"; "X"; "C"] 2
    (fun _ => Ok NumPy.uint8)
    (fun level => Ok (shape_of level))
    (fun level t =>
       Ok (match t with
           | None => image_of (shape_of level)
           | Some t => crop (image_of (shape_of level)) t
           end))
    (fun _ => Ok ∅)
    ∅.

(* the same image, read by a reader that fails on the shape of level 1 *)
Definition reader_failing_shape : ImageReader :=
  mkReader (axes reader) (level_count reader) (level_dtype reader)
    (fun level => if level =? 1 then Raise (ReaderError "simulated failure")
                  else level_shape reader level)
    (level_image reader) (level_metadata reader) (group_metadata reader).

(* the same image, read by a reader that fails on the pixels of level 1 *)
Definition reader_failing_image : ImageReader :=
  mkReader (axes reader) (level_count reader) (level_dtype reader)
    (level_shape reader)
    (fun level t => if level =? 1 then Raise (ReaderError "simulated failure")
                    else level_image reader level t)
    (level_metadata reader) (group_metadata reader).

(* the same image, read by a reader whose tile reads are not the crops of
   its whole-level reads, as a slide reader that resamples regions *)
Definition reader_resampling : ImageReader :=
  mkReader (axes reader) (level_count reader) (level_dtype reader)
    (level_shape reader)
    (fun level t =>
       Ok (match t with
           | None => image_of (shape_of level)
           | Some t => mk_ndarray (tile_shape t) (fun _ => 0)
           end))
    (level_metadata reader) (group_metadata reader).

(* a stored image of two levels, as an opened slide *)
Definition slide : Slide :=
  mkSlide [0; 1] ∅ (fun level _ => Ok (image_of (shape_of level))) (fun _ => Ok ∅).

(* a writer that counts the calls it gets *)
Definition writer : ImageWriter :=
  mkWriter nat (fun _ => 0%nat) (fun _ n => Ok (S n)) (fun _ _ _ n => Ok (S n)).

Definition env : Env :=
  mkEnv (fun f => match f with WebpFilter _ => 3 | _ => 1 end)
        "0.1.0" 1 "BIOIMG"
        (fun sc index _ _ => image_of (default [] (level_shapes sc !! index)))
        (fun ts => reverse ts)
        (fun _ => "")
        (fun uri => uri)
        (fun _ _ => Ok slide).

Definition cls (r : ImageReader) : Converter :=
  mkConverter (Some (fun _ => r)) (Some writer).

(* the default keyword arguments *)
Definition defaults : Options := mkOptions 0 ∅ false false 0 (ZstdFilter 0) None.


Definition with_compressor (o : Options) (c : Filter) : Options :=
  mkOptions (level_min o) (tiles o) (preserve_axes o) (chunked o) (max_workers o)
            c (pyramid_kwargs o).

Definition with_pyramid (o : Options) (kw : PyramidKwargs) : Options :=
  mkOptions (level_min o) (tiles o) (preserve_axes o) (chunked o) (max_workers o)
            (compressor o) (Some kw).

Definition pyramid (progressive : bool) : PyramidKwargs :=
  mkPyramidKwargs [2; 4; 8] "XY" false progressive 1 None.

Definition ingest (r : ImageReader) (o : Options) (st : gmap string object)
  : outcome unit :=
  to_tiledb (E := env) (cls r) "in.tiff" "out" o st.

(* the store a run leaves when the reader fails on the shape of level 1:
   level 0 is complete, level 1 has no array *)
Definition interrupted_before_level_1 : gmap string object :=
  final (ingest reader_failing_shape defaults ∅).

(* the store a run leaves when the reader fails on the pixels of level 1:
   level 0 is complete, the array of level 1 is created and empty *)
Definition interrupted_in_level_1 : gmap string object :=
  final (ingest reader_failing_image defaults ∅).

(* the store a complete run leaves *)
Definition complete : gmap string object :=
  final (ingest reader defaults ∅).

Definition cells_at (st : gmap string object) (uri : string)
  : option (gmap (list Z) Z) :=
  match st !! uri with
  | Some (Array _ _ cells) => Some cells
  | _ => None
  end.

Definition levels_at (st : gmap string object) (uri : string)
  : option meta_value :=
  match st !! uri with
  | Some (Group meta _) => meta !! "levels"
  | _ => None
  end.

End Demo.

(* ===================================================================== *)
(*  Properties                                                           *)
(* ===================================================================== *)

Example get_schema_255 :
  _get_schema ["Y"; "X"] [15; 17] _DEFAULT_TILES NumPy.uint8 (ZstdFilter 0)
  = Ok (mkSchema [mkDim "Y" (0, 14) 15 NumPy.uint8; mkDim "X" (0, 16) 17 NumPy.uint8]
          [mkAttr "" NumPy.uint8 [ZstdFilter 0]]).
Proof. vm_compute. reflexivity. Qed.

Example iter_tiles_5_3 :
  iter_tiles [mkDim "Y" (0, 4) 2 NumPy.uint8; mkDim "X" (0, 2) 3 NumPy.uint8]
  = [[(0, 2); (0, 3)]; [(2, 4); (0, 3)]; [(4, 5); (0, 3)]].
Proof. vm_compute. reflexivity. Qed.

Example map_shape_ex :
  map_shape (mk_mapper ["Y"; "X"; "C"] ["C"; "Y"; "X"]) [10; 20; 3] = [3; 10; 20].
Proof. vm_compute. reflexivity. Qed.

(* --------------------------------------------------------------------- *)
(*  The schema policy                                                    *)
(* --------------------------------------------------------------------- *)

Section SchemaPolicy.

(* an unsigned integer of `width` bits represents n *)
Definition covers (width n : Z) : Prop := 0 <= n <= 2 ^ width - 1.

Definition supported_widths : list Z := [8; 16; 32; 64].

(* d is the narrowest supported unsigned integer type that represents n *)
Definition smallest_unsigned (d : NumPy.dtype) (n : Z) : Prop :=
  exists w, NumPy.unsigned_width d = Some w /\ covers w n /\
            forall w', w' ∈ supported_widths -> covers w' n -> w <= w'.

(* the tile the spec words: min(extent, requested maximum), with the
   per-kind default when the name is not requested *)
Definition choose_tile (dimension_name : string) (extent : Z)
    (requested_max_tiles : gmap string Z) : option Z :=
  match requested_max_tiles !! dimension_name with
  | Some t => Some (Z.min extent t)
  | None =>
      if decide (dimension_name ∈ ["T"; "Z"]) then Some (Z.min extent 1)
      else if decide (dimension_name = "C") then Some extent
      else if decide (dimension_name ∈ ["Y"; "X"]) then Some (Z.min extent 1024)
      else None
  end.

Definition tiles_as_requested (requested : gmap string Z) (s : ArraySchema) : Prop :=
  Forall (fun d => fst (dim_domain d) = 0 /\
                   choose_tile (dim_name d) (dim_size d) requested = Some (dim_tile d))
         (domain s).

Lemma py_min_Zmin a b : Py.min a b = Z.min a b.
Proof. unfold Py.min. destruct (Z.ltb_spec b a); lia. Qed.

Lemma wrap64_small z : - 2 ^ 63 <= z < 2 ^ 63 -> NumPy.wrap64 z = z.
Proof.
  intros Hz. unfold NumPy.wrap64.
  rewrite Z.mod_small by lia. lia.
Qed.

Lemma product_pos l : Forall (fun e => 0 < e) l -> 0 < NumPy.product l.
Proof.
  unfold NumPy.product.
  induction 1 as [|e l He _ IH]; simpl; [lia|].
  by apply Z.mul_pos_pos.
Qed.

Lemma elem_of_supported w :
  w ∈ supported_widths <-> w = 8 \/ w = 16 \/ w = 32 \/ w = 64.
Proof.
  unfold supported_widths. rewrite !elem_of_cons, elem_of_nil. tauto.
Qed.

Lemma min_scalar_type_smallest z :
  0 <= z < 2 ^ 63 ->
  smallest_unsigned (NumPy.min_scalar_type (NumPy.Int64 z)) z.
Proof.
  intros Hz. unfold NumPy.min_scalar_type, smallest_unsigned, covers.
  destruct (Z.leb_spec 0 z); [|lia].
  destruct (Z.leb_spec z 255).
  { exists 8. split; [done|]. split; [lia|].
    intros w' Hw' _. apply elem_of_supported in Hw'. lia. }
  destruct (Z.leb_spec z 65535).
  { exists 16. split; [done|]. split; [lia|].
    intros w' Hw' Hc. apply elem_of_supported in Hw'.
    destruct Hw' as [->|Hw']; [simpl in Hc; lia | lia]. }
  destruct (Z.leb_spec z 4294967295).
  { exists 32. split; [done|]. split; [lia|].
    intros w' Hw' Hc. apply elem_of_supported in Hw'.
    destruct Hw' as [->|[->|Hw']]; [simpl in Hc; lia | simpl in Hc; lia | lia]. }
  exists 64. split; [done|]. split; [lia|].
  intros w' Hw' Hc. apply elem_of_supported in Hw'.
  destruct Hw' as [->|[->|[->|Hw']]]; simpl in Hc; lia.
Qed.

Lemma index_dtype_smallest shape :
  Forall (fun e => 0 < e) shape -> shape <> [] -> NumPy.product shape < 2 ^ 63 ->
  smallest_unsigned (index_dtype shape) (NumPy.product shape).
Proof.
  intros Hpos Hne Hlt. pose proof (product_pos _ Hpos) as Hp.
  unfold index_dtype, NumPy.prod. destruct shape as [|e l]; [done|].
  rewrite wrap64_small by lia. apply min_scalar_type_smallest. lia.
Qed.

(* the dims of a schema, one per (name, size) pair *)
Lemma rmap_make_dim_ok max_tiles dt nds dims :
  rmap (make_dim max_tiles dt) nds = Ok dims ->
  Forall2 (fun nd d => dim_name d = fst nd /\ dim_domain d = (0, snd nd - 1) /\
                       dim_dtype d = dt /\
                       exists b, max_tiles !! fst nd = Some b /\
                                 dim_tile d = min_bound (snd nd) b) nds dims.
Proof.
  revert dims. induction nds as [|[n e] nds IH]; intros dims; simpl.
  - intros [= <-]. constructor.
  - unfold make_dim at 1. destruct (max_tiles !! n) as [b|] eqn:Hb; simpl; [|done].
    destruct (rmap _ nds) as [ds|] eqn:Hds; simpl; [|done].
    intros [= <-]. constructor; [|by apply IH].
    simpl. repeat split. by exists b.
Qed.

Lemma rmap_make_dim_raise max_tiles dt nds e :
  rmap (make_dim max_tiles dt) nds = Raise e -> exists k, e = KeyError k.
Proof.
  induction nds as [|[n x] nds IH]; simpl; [done|].
  unfold make_dim at 1. destruct (max_tiles !! n) as [b|] eqn:Hb; simpl.
  - destruct (rmap _ nds) as [ds|e'] eqn:Hds; simpl; [done|].
    intros [= <-]. by apply IH.
  - intros [= <-]. by exists n.
Qed.

Lemma get_schema_ok names shape max_tiles adt c schema :
  _get_schema names shape max_tiles adt c = Ok schema ->
  length names = length shape /\
  attrs schema = [mkAttr "" adt [c]] /\
  Forall2 (fun nd d => dim_name d = fst nd /\ dim_domain d = (0, snd nd - 1) /\
                       dim_dtype d = index_dtype shape /\
                       exists b, max_tiles !! fst nd = Some b /\
                                 dim_tile d = min_bound (snd nd) b)
          (zip names shape) (domain schema).
Proof.
  unfold _get_schema. case_decide as Hlen; [|done].
  destruct (rmap _ _) as [dims|] eqn:Hdims; simpl; [|done].
  intros [= <-]. simpl. split; [done|]. split; [done|].
  by apply rmap_make_dim_ok.
Qed.

Lemma get_schema_raise names shape max_tiles adt c e :
  _get_schema names shape max_tiles adt c = Raise e ->
  e = AssertionError \/ exists k, e = KeyError k.
Proof.
  unfold _get_schema. case_decide as Hlen; [|intros [= <-]; by left].
  destruct (rmap _ _) as [dims|e'] eqn:Hdims; simpl; [done|].
  intros [= <-]. right. by eapply rmap_make_dim_raise.
Qed.

Lemma get_schema_shape names shape max_tiles adt c schema :
  _get_schema names shape max_tiles adt c = Ok schema ->
  Schema.shape schema = shape /\ dim_name <$> domain schema = names.
Proof.
  intros H. apply get_schema_ok in H as (Hlen & _ & H).
  unfold Schema.shape.
  assert (dim_size <$> domain schema = snd <$> zip names shape
          /\ dim_name <$> domain schema = fst <$> zip names shape) as [-> ->].
  { clear Hlen. induction H as [|[n e] d nds ds (Hn & Hd & _) _ [IH1 IH2]]; [done|].
    simpl in *. split; f_equal; try done.
    unfold dim_size. rewrite Hd. simpl. lia. }
  split; [apply snd_zip | apply fst_zip]; lia.
Qed.

(* what max_tiles holds for a name when the pixel depth is 1 *)
Lemma max_tiles_of_lookup tiles n b e :
  max_tiles_of tiles 1 !! n = Some b ->
  choose_tile n e tiles = Some (min_bound e b).
Proof.
  unfold max_tiles_of, choose_tile. intros Hb.
  assert (((Fin <$> tiles) ∪ _DEFAULT_TILES) !! n
          = Some b) as Hu.
  { destruct (decide (n = "X")) as [->|Hne].
    - rewrite lookup_alter_eq in Hb.
      destruct (((Fin <$> tiles) ∪ _DEFAULT_TILES) !! "X") as [[t|]|]; simpl in Hb;
        [|done|done].
      injection Hb as <-. by rewrite Z.mul_1_r.
    - by rewrite lookup_alter_ne in Hb. }
  rewrite lookup_union, lookup_fmap in Hu.
  destruct (tiles !! n) as [t|] eqn:Ht; simpl in Hu.
  - destruct (_DEFAULT_TILES !! n); simpl in Hu; injection Hu as <-;
      simpl; by rewrite py_min_Zmin.
  - destruct (_DEFAULT_TILES !! n) as [b'|] eqn:Hd; simpl in Hu; [|done].
    injection Hu as ->. unfold _DEFAULT_TILES in Hd.
    repeat (rewrite lookup_insert in Hd; case_decide; subst;
            [injection Hd as <-; simpl; rewrite ?py_min_Zmin; done|]).
    by rewrite lookup_empty in Hd.
Qed.

Lemma get_schema_tiles_as_requested names shape tiles adt c schema :
  _get_schema names shape (max_tiles_of tiles 1) adt c = Ok schema ->
  tiles_as_requested tiles schema.
Proof.
  intros H. apply get_schema_ok in H as (_ & _ & H).
  unfold tiles_as_requested.
  induction H as [|[n e] d nds ds (Hn & Hd & _ & b & Hb & Ht) _ IH]; constructor; [|done].
  simpl in *. rewrite Hd. split; [done|].
  unfold dim_size. rewrite Hd, Hn, Ht. simpl.
  replace (e - 1 - 0 + 1) with e by lia. by apply max_tiles_of_lookup.
Qed.

End SchemaPolicy.

(* --------------------------------------------------------------------- *)
(*  Reasoning about computations: invariants of the store and            *)
(*  properties of the events, whatever the outcome                       *)
(* --------------------------------------------------------------------- *)

Section Respects.

Context {A : Type}.
Implicit Types (I : gmap string object -> Prop) (Q : event -> Prop).

(* m keeps the invariant I of the store and produces only Q events, also
   when it raises *)
Definition respects {B} I Q (m : M B) : Prop :=
  forall st, I st -> I (final (m st)) /\ Forall Q (trace (m st)).

Lemma respects_weaken {B} I Q Q' (m : M B) :
  (forall e, Q e -> Q' e) -> respects I Q m -> respects I Q' m.
Proof.
  intros HQ Hm st HI. destruct (Hm st HI) as [H1 H2]. split; [done|].
  eapply Forall_impl; eauto.
Qed.

Lemma respects_ret {B} I Q (b : B) : respects I Q (ret b).
Proof. intros st HI. simpl. by split. Qed.

Lemma respects_raise {B} I Q e : respects I Q (raise (A:=B) e).
Proof. intros st HI. simpl. by split. Qed.

Lemma respects_lift {B} I Q (r : res B) : respects I Q (lift r).
Proof. intros st HI. simpl. by split. Qed.

Lemma respects_emit I Q e : Q e -> respects I Q (emit e).
Proof. intros He st HI. simpl. split; [done|]. by constructor. Qed.

Lemma respects_bind {B C} I Q (m : M B) (k : B -> M C) :
  respects I Q m -> (forall b, respects I Q (k b)) -> respects I Q (bind m k).
Proof.
  intros Hm Hk st HI. destruct (Hm st HI) as [H1 H2].
  unfold bind. destruct (result (m st)) as [b|e]; simpl; [|done].
  destruct (Hk b _ H1) as [H3 H4]. split; [done|].
  by apply Forall_app.
Qed.

(* the continuation only has to respect them for the value produced *)
Lemma respects_bind_lift {B C} I Q (r : res B) (k : B -> M C) :
  (forall b, r = Ok b -> respects I Q (k b)) -> respects I Q (bind (lift r) k).
Proof.
  intros Hk st HI. unfold bind, lift; simpl.
  destruct r as [b|e]; simpl; [|by split].
  destruct (Hk b eq_refl st HI) as [H1 H2]. by split.
Qed.

Lemma respects_bind_val {B C} I Q (P : B -> Prop) (m : M B) (k : B -> M C) :
  respects I Q m ->
  (forall st b, result (m st) = Ok b -> P b) ->
  (forall b, P b -> respects I Q (k b)) ->
  respects I Q (bind m k).
Proof.
  intros Hm HP Hk st HI. destruct (Hm st HI) as [H1 H2].
  unfold bind. destruct (result (m st)) as [b|e] eqn:Hr; simpl; [|done].
  destruct (Hk b (HP _ _ Hr) _ H1) as [H3 H4]. split; [done|].
  by apply Forall_app.
Qed.

Lemma respects_for_each {B S} I Q (l : list B) (body : B -> S -> M S) s :
  (forall x s', x ∈ l -> respects I Q (body x s')) ->
  respects I Q (for_each l body s).
Proof.
  revert s. induction l as [|x l IH]; intros s Hbody; simpl.
  - apply respects_ret.
  - apply respects_bind.
    + apply Hbody. by left.
    + intros s'. apply IH. intros y s'' Hy. apply Hbody. by right.
Qed.

Lemma respects_for_each_ {B} I Q (l : list B) (body : B -> M unit) :
  (forall x, x ∈ l -> respects I Q (body x)) ->
  respects I Q (for_each_ l body).
Proof.
  induction l as [|x l IH]; intros Hbody; simpl.
  - apply respects_ret.
  - apply respects_bind.
    + apply Hbody. by left.
    + intros _. apply IH. intros y Hy. apply Hbody. by right.
Qed.

(* how an invariant stands to the three kinds of store update *)
Definition create_stable I (uri : string) : Prop :=
  forall st o, I st -> st !! uri = None -> I (<[uri := o]> st).

Definition array_stable I (uri : string) : Prop :=
  forall st s m c s' m' c', I st -> st !! uri = Some (Array s m c) ->
                            I (<[uri := Array s' m' c']> st).

Definition group_stable I (uri : string) : Prop :=
  forall st m ms m' ms', I st -> st !! uri = Some (Group m ms) ->
                         I (<[uri := Group m' ms']> st).

Lemma respects_object_type I Q uri : respects I Q (object_type uri).
Proof. intros st HI. by split. Qed.

Lemma respects_open_array I Q uri : respects I Q (open_array uri).
Proof.
  intros st HI. unfold open_array, bind; simpl.
  destruct (st !! uri) as [[]|]; simpl; by split.
Qed.

Lemma respects_array_read I Q uri : respects I Q (array_read uri).
Proof.
  intros st HI. unfold array_read, bind; simpl.
  destruct (st !! uri) as [[]|]; simpl; by split.
Qed.

Lemma respects_group_create I Q uri :
  create_stable I uri -> Q (EGroupCreate uri) -> respects I Q (group_create uri).
Proof.
  intros Hs He st HI. unfold group_create, bind; simpl.
  destruct (st !! uri) as [o|] eqn:Ho; simpl; [by split|].
  split; [by apply Hs | by repeat constructor].
Qed.

Lemma respects_Array_create I Q uri schema :
  create_stable I uri -> Q (EArrayCreate uri schema) ->
  respects I Q (Array_create uri schema).
Proof.
  intros Hs He st HI. unfold Array_create, bind; simpl.
  destruct (st !! uri) as [o|] eqn:Ho; simpl; [by split|].
  split; [by apply Hs | by repeat constructor].
Qed.

Lemma respects_array_meta_update I Q uri m :
  array_stable I uri -> Q (EArrayMeta uri m) ->
  respects I Q (array_meta_update uri m).
Proof.
  intros Hs He st HI. unfold array_meta_update, bind; simpl.
  destruct (st !! uri) as [[|s m0 c]|] eqn:Ho; simpl; try by split.
  split; [by eapply Hs | by repeat constructor].
Qed.

Lemma respects_array_write I Q uri t image :
  array_stable I uri -> respects I Q (array_write uri t image).
Proof.
  intros Hs st HI. unfold array_write, bind; simpl.
  destruct (st !! uri) as [[|s m0 c]|] eqn:Ho; simpl; try by split.
  case_decide; simpl; [|by split].
  split; [by eapply Hs | done].
Qed.

Lemma respects_group_meta_update I Q uri m :
  group_stable I uri -> Q (EGroupMeta uri m) ->
  respects I Q (group_meta_update uri m).
Proof.
  intros Hs He st HI. unfold group_meta_update, bind; simpl.
  destruct (st !! uri) as [[m0 ms|]|] eqn:Ho; simpl; try by split.
  split; [by eapply Hs | by repeat constructor].
Qed.

Lemma respects_group_add I Q uri member rel :
  group_stable I uri -> Q (EGroupAdd uri member rel) ->
  respects I Q (group_add uri member rel).
Proof.
  intros Hs He st HI. unfold group_add, bind; simpl.
  destruct (st !! uri) as [[m0 ms|]|] eqn:Ho; simpl; try by split.
  split; [by eapply Hs | by repeat constructor].
Qed.

End Respects.

(* --------------------------------------------------------------------- *)
(*  The events each part of to_tiledb can produce                        *)
(* --------------------------------------------------------------------- *)

Section Orchestration.

Context {E : Env}.
Implicit Types (I : gmap string object -> Prop) (Q : event -> Prop).

(* the events of populating the array of `level` at `uri` *)
Definition write_event (chunked : bool) (max_workers : Z) (level : Z)
    (uri : string) (e : event) : Prop :=
  match e with
  | EArrayMeta u _ => u = uri
  | ELevelImage l (Some _) => l = level /\ (chunked = true \/ max_workers <> 0)
  | ELevelImage l None => l = level /\ chunked = false /\ max_workers = 0
  | EThreadPool n => n = max_workers /\ 0 < n
  | EShutdown => max_workers <> 0
  | EWriteTile u _ => u = uri /\ (chunked = true \/ max_workers <> 0)
  | EWriteAll u => u = uri /\ chunked = false /\ max_workers = 0
  | _ => False
  end.

(* the creation of an array whose schema _get_schema made *)
Definition create_event (max_tiles : gmap string tile_bound) (c : Filter)
    (uri : string) (e : event) : Prop :=
  match e with
  | EArrayCreate u s =>
      u = uri /\ exists names shape adt, _get_schema names shape max_tiles adt c = Ok s
  | _ => False
  end.

(* the events of one iteration of the level loop *)
Definition level_event (max_tiles : gmap string tile_bound) (o : Options)
    (pixel_depth : Z) (level : Z) (uri : string) (e : event) : Prop :=
  (pixel_depth = 1 /\ create_event max_tiles (compressor o) uri e)
  \/ write_event (chunked o) (max_workers o) level uri e.

(* the events of generating one pyramid level *)
Definition scale_event (max_tiles : gmap string tile_bound) (c : Filter)
    (uri : string) (e : event) : Prop :=
  create_event max_tiles c uri e
  \/ match e with
     | EArrayMeta u _ => u = uri
     | EScalerApply _ d _ => d = uri
     | _ => False
     end.

(* the events about the group *)
Definition group_event (output_path : string) (e : event) : Prop :=
  match e with
  | ECloudRegister _ => True
  | EGroupCreate u | EGroupMeta u _ | EGroupAdd u _ _ => u = output_path
  | _ => False
  end.

(* when to_tiledb warns *)
Definition warns (reader : ImageReader) (o : Options) : Prop :=
  is_Some (pyramid_kwargs o) /\ level_min o + 1 < level_count reader.

Lemma tile_to_tiledb_respects I reader level uri am iam t ch mw :
  array_stable I uri -> ch = true \/ mw <> 0 ->
  respects I (write_event ch mw level uri)
           (tile_to_tiledb reader level uri am iam t).
Proof.
  intros Hs Hc. unfold tile_to_tiledb.
  apply respects_bind; [by apply respects_emit|]. intros _.
  apply respects_bind; [apply respects_lift|]. intros image.
  apply respects_bind; [by apply respects_array_write|]. intros _.
  by apply respects_emit.
Qed.

Lemma ThreadPoolExecutor_respects I ch mw level uri :
  respects I (write_event ch mw level uri) (ThreadPoolExecutor mw).
Proof.
  unfold ThreadPoolExecutor. destruct (Z.leb_spec mw 0).
  - apply respects_raise.
  - by apply respects_emit.
Qed.

Lemma write_level_respects I reader level uri am ch mw :
  array_stable I uri ->
  respects I (write_event ch mw level uri) (write_level reader level uri am ch mw).
Proof.
  intros Hs. unfold write_level.
  apply respects_bind; [apply respects_open_array|]. intros a.
  apply respects_bind; [apply respects_lift|]. intros md.
  apply respects_bind; [by apply respects_array_meta_update|]. intros _.
  destruct (ch || negb (mw =? 0)) eqn:Hc.
  - assert (ch = true \/ mw <> 0) as Hc'.
    { apply orb_true_iff in Hc as [->|Hc]; [by left|right].
      apply negb_true_iff, Z.eqb_neq in Hc. done. }
    apply respects_bind.
    { destruct (negb (mw =? 0)); [apply ThreadPoolExecutor_respects|apply respects_ret]. }
    intros _. apply respects_bind.
    { apply respects_for_each_. intros t _. by apply tile_to_tiledb_respects. }
    intros _. destruct (negb (mw =? 0)) eqn:Hmw; [|apply respects_ret].
    apply respects_emit. simpl. by apply negb_true_iff, Z.eqb_neq in Hmw.
  - apply orb_false_iff in Hc as [-> Hc].
    apply negb_false_iff, Z.eqb_eq in Hc. subst mw.
    apply respects_bind; [by apply respects_emit|]. intros _.
    apply respects_bind; [apply respects_lift|]. intros image.
    apply respects_bind; [by apply respects_array_write|]. intros _.
    by apply respects_emit.
Qed.

Lemma convert_level_respects I reader out o pd mt level s :
  create_stable I (level_uri out level) ->
  array_stable I (level_uri out level) ->
  respects I (level_event mt o pd level (level_uri out level))
           (convert_level reader out o pd mt level s).
Proof.
  intros Hc Ha. unfold convert_level.
  apply respects_bind; [apply respects_object_type|]. intros ot.
  case_decide; [apply respects_ret|].
  apply respects_bind; [apply respects_lift|]. intros source_shape.
  case_decide as Hpd; [|apply respects_raise].
  apply respects_bind; [apply respects_lift|]. intros am.
  apply respects_bind; [apply respects_lift|]. intros adt.
  apply respects_bind_lift. intros schema Hs.
  apply respects_bind.
  { apply respects_Array_create; [done|]. left. split; [done|].
    split; [done|]. eauto. }
  intros _. apply respects_bind; [|intros _; apply respects_ret].
  eapply respects_weaken; [|by apply write_level_respects].
  intros e He. by right.
Qed.

End Orchestration.

(* --------------------------------------------------------------------- *)
(*  What a successful computation went through                           *)
(* --------------------------------------------------------------------- *)

Section Inversion.

Lemma bind_Ok {A B} (m : M A) (k : A -> M B) st b :
  result (bind m k st) = Ok b ->
  exists a, result (m st) = Ok a /\
            result (k a (final (m st))) = Ok b /\
            final (bind m k st) = final (k a (final (m st))) /\
            trace (bind m k st) = trace (m st) ++ trace (k a (final (m st))).
Proof.
  unfold bind. destruct (result (m st)) as [a|e]; simpl; [|done].
  intros H. by exists a.
Qed.

Lemma bind_Raise {A B} (m : M A) (k : A -> M B) st e :
  result (m st) = Raise e ->
  bind m k st = mkOutcome (Raise e) (final (m st)) (trace (m st)).
Proof. intros H. unfold bind. by rewrite H. Qed.

Lemma bind_step {A B} (m : M A) (k : A -> M B) st a :
  result (m st) = Ok a ->
  bind m k st = mkOutcome (result (k a (final (m st))))
                          (final (k a (final (m st))))
                          (trace (m st) ++ trace (k a (final (m st)))).
Proof. intros H. unfold bind. by rewrite H. Qed.

(* a property of the loop variables that every iteration keeps *)
Lemma for_each_value {A S} (P : S -> Prop) (l : list A) (body : A -> S -> M S) :
  (forall x s st s', P s -> result (body x s st) = Ok s' -> P s') ->
  forall s st s', P s -> result (for_each l body s st) = Ok s' -> P s'.
Proof.
  intros Hbody. induction l as [|x l IH]; intros s st s' HP; simpl.
  - by intros [= <-].
  - intros H. apply bind_Ok in H as (s1 & H1 & H2 & _).
    eapply IH; [|exact H2]. eauto.
Qed.

(* a property of the variables and the store, by the levels gone through *)
Lemma for_each_Ok {A S} (P : list A -> S -> gmap string object -> Prop)
    (l : list A) (body : A -> S -> M S) :
  (forall done x s st s', x ∈ l -> P done s st -> result (body x s st) = Ok s' ->
                          P (done ++ [x]) s' (final (body x s st))) ->
  forall done s st s',
    P done s st -> result (for_each l body s st) = Ok s' ->
    P (done ++ l) s' (final (for_each l body s st)).
Proof.
  induction l as [|x l IH]; intros Hbody done s st s' HP; simpl.
  - intros [= <-]. by rewrite app_nil_r.
  - intros H. pose proof H as H'. apply bind_Ok in H' as (s1 & H1 & H2 & H3 & _).
    rewrite H3. rewrite cons_middle, app_assoc.
    apply IH; [|by apply (Hbody done x s st s1); [left|..]|done].
    intros d y s0 st0 s0' Hy. apply Hbody. by right.
Qed.

End Inversion.

(* --------------------------------------------------------------------- *)
(*  The whole of to_tiledb                                               *)
(* --------------------------------------------------------------------- *)

Section Run.

Context {E : Env}.
Implicit Types (I : gmap string object -> Prop) (Q : event -> Prop).

Lemma scale_level_respects I sc out dn adt mt c ils uris lm level :
  create_stable I (level_uri out level) ->
  array_stable I (level_uri out level) ->
  respects I (scale_event mt c (level_uri out level))
           (scale_level sc out dn adt mt c ils (uris, lm, level)).
Proof.
  intros Hc Ha. destruct ils as [index level_shape]. unfold scale_level.
  apply respects_bind_lift. intros schema Hs.
  apply respects_bind.
  { apply respects_Array_create; [done|]. left. split; [done|]. eauto. }
  intros _. apply respects_bind; [apply respects_lift|]. intros src.
  apply respects_bind; [apply respects_open_array|]. intros _.
  apply respects_bind; [apply respects_open_array|]. intros _.
  apply respects_bind.
  { apply respects_array_meta_update; [done|]. by right. }
  intros _. apply respects_bind; [|intros _; apply respects_ret].
  unfold scaler_apply.
  apply respects_bind; [apply respects_array_read|]. intros base.
  apply respects_bind; [apply respects_open_array|]. intros o.
  apply respects_bind; [apply respects_emit; by right|]. intros _.
  by apply respects_array_write.
Qed.

Lemma _scale_respects I Q uris lm out lmin dn adt mt c kw :
  (forall sc ils s, respects I Q (scale_level sc out dn adt mt c ils s)) ->
  respects I Q (_scale uris lm out lmin dn adt mt c kw).
Proof.
  intros Hl. unfold _scale.
  apply respects_bind; [apply respects_lift|]. intros uri0.
  apply respects_bind; [apply respects_open_array|]. intros a.
  apply respects_bind; [apply respects_lift|]. intros sc.
  apply respects_bind; [|intros st; apply respects_ret].
  apply respects_for_each. intros x s' _. apply Hl.
Qed.

(* with a packed-pixel compressor an iteration that returns has skipped
   its level *)
Lemma convert_level_packed reader out o pd mt level s st s' :
  pd <> 1 ->
  result (convert_level reader out o pd mt level s st) = Ok s' -> s' = s.
Proof.
  intros Hpd. unfold convert_level. intros H.
  apply bind_Ok in H as (ot & _ & H & _).
  case_decide; [by injection H|].
  apply bind_Ok in H as (shape & _ & H & _).
  case_decide; [done|]. discriminate H.
Qed.

Lemma loop_dim_names reader out o pd mt l st s' :
  result (for_each l (convert_level reader out o pd mt)
                   (mkLocals [] [] None None) st) = Ok s' ->
  pd = 1 \/ (l_dim_names s' = None /\ l_uris s' = [] /\ l_levels_meta s' = []).
Proof.
  destruct (decide (pd = 1)) as [|Hpd]; [by left|]. intros H. right.
  eapply (for_each_value
            (fun s => l_dim_names s = None /\ l_uris s = [] /\ l_levels_meta s = []));
    [| |exact H]; [|done].
  intros x s st0 s0 Hs Hr. by apply convert_level_packed in Hr as ->.
Qed.

Lemma warns_spec reader o :
  (level_min o + 1 <? level_count reader)
  && bool_decide (is_Some (pyramid_kwargs o)) = true <-> warns reader o.
Proof.
  unfold warns. rewrite andb_true_iff, Z.ltb_lt, bool_decide_eq_true. tauto.
Qed.

Lemma before_levels_respects I Q reader out o :
  create_stable I out -> (forall e, group_event out e -> Q e) ->
  (warns reader o -> Q (EWarn multiple_levels_warning)) ->
  respects I Q (before_levels reader out o).
Proof.
  intros Hc HQ Hw. unfold before_levels.
  apply respects_bind; [apply respects_object_type|]. intros ot.
  apply respects_bind.
  { case_decide; [apply respects_ret|].
    apply respects_group_create; [done|]. by apply HQ. }
  intros _.
  destruct (_ && _) eqn:Hc'; [|apply respects_ret].
  apply respects_emit. by apply Hw, warns_spec.
Qed.

Lemma write_group_respects I Q reader out uris lm :
  group_stable I out ->
  (forall e, group_event out e -> Q e) ->
  respects I Q (write_group reader out uris lm).
Proof.
  intros Hg HQ. unfold write_group. apply respects_bind.
  { apply respects_group_meta_update; [done|]. by apply HQ. }
  intros _. apply respects_bind.
  { apply respects_for_each_. intros uri _.
    case_decide; (apply respects_group_add; [done|]; by apply HQ). }
  intros _. destruct (String.prefix _ _); [|apply respects_ret].
  apply respects_emit. by apply HQ.
Qed.

Lemma after_levels_respects I Q reader out o mt s :
  group_stable I out ->
  (forall e, group_event out e -> Q e) ->
  (is_Some (pyramid_kwargs o) -> is_Some (l_dim_names s) ->
   forall sc dn adt ils s0,
     respects I Q (scale_level sc out dn adt mt (compressor o) ils s0)) ->
  respects I Q (after_levels reader out o mt s).
Proof.
  intros Hg HQ Hscale. unfold after_levels. apply respects_bind.
  { destruct (pyramid_kwargs o) as [kw|] eqn:Hkw; [|apply respects_ret].
    destruct (l_dim_names s) as [dn|] eqn:Hdn; simpl.
    - apply respects_bind; [apply respects_ret|]. intros dn'.
      apply respects_bind.
      { destruct (l_attr_dtype s); [apply respects_ret|apply respects_raise]. }
      intros adt. apply _scale_respects. intros sc ils s0. by apply Hscale.
    - intros st HI. unfold bind, read_local, raise; simpl. by split. }
  intros ul. by apply write_group_respects.
Qed.

Lemma to_tiledb_respects I Q cls inp out o :
  create_stable I out -> group_stable I out ->
  (forall e, group_event out e -> Q e) ->
  (forall rt, _ImageReaderType cls = Some rt -> warns (rt inp) o ->
              Q (EWarn multiple_levels_warning)) ->
  (forall rt level s,
      _ImageReaderType cls = Some rt ->
      level ∈ range (level_min o) (level_max (rt inp) o) ->
      respects I Q (convert_level (rt inp) out o (get_pixel_depth (compressor o))
                      (max_tiles_of (tiles o) (get_pixel_depth (compressor o)))
                      level s)) ->
  (get_pixel_depth (compressor o) = 1 -> is_Some (pyramid_kwargs o) ->
   forall sc dn adt ils s,
     respects I Q (scale_level sc out dn adt (max_tiles_of (tiles o) 1)
                               (compressor o) ils s)) ->
  respects I Q (to_tiledb cls inp out o).
Proof.
  intros Hc Hg HQ Hw Hlevel Hscale. unfold to_tiledb.
  destruct (_ImageReaderType cls) as [rt|] eqn:Hrt; [|apply respects_raise].
  apply respects_bind; [apply before_levels_respects; eauto|]. intros _.
  apply (respects_bind_val I Q
           (fun s => get_pixel_depth (compressor o) = 1 \/
                     (l_dim_names s = None /\ l_uris s = [] /\ l_levels_meta s = []))).
  { apply respects_for_each. intros level s Hl. by apply Hlevel. }
  { intros st s. apply loop_dim_names. }
  intros s Hs. apply after_levels_respects; [done..|].
  intros Hkw [dn Hdn] sc dn' adt ils s0.
  destruct Hs as [Hpd|[? _]]; [|congruence].
  rewrite Hpd. by apply Hscale.
Qed.

End Run.

(* --------------------------------------------------------------------- *)
(*  The schemas and the write paths of a run                             *)
(* --------------------------------------------------------------------- *)

Section TraceProperties.

Context {E : Env}.

Definition any_store : gmap string object -> Prop := fun _ => True.

Lemma any_store_create uri : create_stable any_store uri.
Proof. by intros st o _ _. Qed.
Lemma any_store_array uri : array_stable any_store uri.
Proof. by intros st s m c s' m' c' _ _. Qed.
Lemma any_store_group uri : group_stable any_store uri.
Proof. by intros st m ms m' ms' _ _. Qed.

(* every event of a run is an event of the group, of a level of the
   range, or of a generated pyramid level *)
Definition run_event (cls : Converter) (inp out : string) (o : Options)
    (e : event) : Prop :=
  group_event out e
  \/ (e = EWarn multiple_levels_warning /\
      exists rt, _ImageReaderType cls = Some rt /\ warns (rt inp) o)
  \/ (exists rt level,
        _ImageReaderType cls = Some rt /\
        level ∈ range (level_min o) (level_max (rt inp) o) /\
        level_event (max_tiles_of (tiles o) (get_pixel_depth (compressor o))) o
                    (get_pixel_depth (compressor o)) level (level_uri out level) e)
  \/ (get_pixel_depth (compressor o) = 1 /\ is_Some (pyramid_kwargs o) /\
      exists level, scale_event (max_tiles_of (tiles o) 1) (compressor o)
                                (level_uri out level) e).

Lemma to_tiledb_events cls inp out o st :
  Forall (run_event cls inp out o) (trace (to_tiledb cls inp out o st)).
Proof.
  refine (proj2 (to_tiledb_respects any_store _ cls inp out o _ _ _ _ _ _ st I)).
  - apply any_store_create.
  - apply any_store_group.
  - intros e He. by left.
  - intros rt Hrt Hw. right. left. eauto.
  - intros rt level s Hrt Hl.
    eapply respects_weaken;
      [|apply convert_level_respects; [apply any_store_create|apply any_store_array]].
    intros e He. right. right. left. eauto.
  - intros Hpd Hkw sc dn adt ils [[uris lm] level].
    eapply respects_weaken;
      [|apply scale_level_respects; [apply any_store_create|apply any_store_array]].
    intros e He. right. right. right. eauto.
Qed.

End TraceProperties.

(** C2. Every array schema that a run of to_tiledb creates, for a level of
    the image or for a generated pyramid level, has in each dimension the
    tile min(extent, requested maximum tile of that name); a name that the
    requested mapping lacks takes the default of its kind: 1 for T and Z,
    the whole extent for C, 1024 for Y and X. *)
Theorem to_tiledb_tiles_as_requested `{E : Env} cls inp out o st :
  Forall (fun e => forall uri s, e = EArrayCreate uri s ->
                                 tiles_as_requested (tiles o) s)
         (trace (to_tiledb cls inp out o st)).
Proof.
  eapply Forall_impl; [apply to_tiledb_events|].
  intros e He uri s ->.
  destruct He as [He|[[He _]|[(rt & level & _ & _ & He)|(Hpd & _ & level & He)]]].
  - destruct He.
  - discriminate He.
  - destruct He as [(Hpd & _ & names & shape & adt & Hs)|He]; [|destruct He].
    rewrite Hpd in Hs. by eapply get_schema_tiles_as_requested.
  - destruct He as [(_ & names & shape & adt & Hs)|He]; [|destruct He].
    by eapply get_schema_tiles_as_requested.
Qed.

(* --------------------------------------------------------------------- *)
(*  The storage calls, when they return                                  *)
(* --------------------------------------------------------------------- *)

Section StorageCalls.

Lemma Array_create_Ok uri schema st u :
  result (Array_create uri schema st) = Ok u ->
  st !! uri = None /\
  final (Array_create uri schema st) = <[uri := Array schema ∅ ∅]> st /\
  trace (Array_create uri schema st) = [EArrayCreate uri schema].
Proof.
  unfold Array_create, bind; simpl. by destruct (st !! uri) as [o|] eqn:Ho; simpl.
Qed.

Lemma Array_create_exists uri schema st :
  st !! uri <> None ->
  Array_create uri schema st
  = mkOutcome (Raise (TileDBError "object already exists")) st [].
Proof.
  unfold Array_create, bind; simpl. by destruct (st !! uri) as [o|] eqn:Ho; simpl.
Qed.

Lemma open_array_Ok uri st a :
  result (open_array uri st) = Ok a ->
  (exists m c, st !! uri = Some (Array a m c)) /\
  final (open_array uri st) = st /\ trace (open_array uri st) = [].
Proof.
  unfold open_array, bind; simpl.
  destruct (st !! uri) as [[|s m c]|] eqn:Ho; simpl; try done.
  intros [= <-]. eauto.
Qed.

Lemma open_array_eq uri st s m c :
  st !! uri = Some (Array s m c) -> open_array uri st = mkOutcome (Ok s) st [].
Proof. intros H. unfold open_array, bind; simpl. by rewrite H. Qed.

Lemma array_meta_update_Ok uri m st u :
  result (array_meta_update uri m st) = Ok u ->
  exists s m0 c, st !! uri = Some (Array s m0 c) /\
    final (array_meta_update uri m st) = <[uri := Array s (m ∪ m0) c]> st /\
    trace (array_meta_update uri m st) = [EArrayMeta uri m].
Proof.
  unfold array_meta_update, bind; simpl.
  destruct (st !! uri) as [[|s m0 c]|] eqn:Ho; simpl; try done.
  intros _. by exists s, m0, c.
Qed.

Lemma array_meta_update_eq uri m st s m0 c :
  st !! uri = Some (Array s m0 c) ->
  array_meta_update uri m st
  = mkOutcome (Ok tt) (<[uri := Array s (m ∪ m0) c]> st) [EArrayMeta uri m].
Proof. intros H. unfold array_meta_update, bind; simpl. by rewrite H. Qed.

Lemma array_write_Ok uri t image st u :
  result (array_write uri t image st) = Ok u ->
  exists s m c, st !! uri = Some (Array s m c) /\
    nd_shape image = tile_shape t /\
    final (array_write uri t image st)
    = <[uri := Array s m (write_region c t image)]> st /\
    trace (array_write uri t image st) = [].
Proof.
  unfold array_write, bind; simpl.
  destruct (st !! uri) as [[|s m0 c]|] eqn:Ho; simpl; try done.
  case_decide; simpl; [|done]. intros _. by exists s, m0, c.
Qed.

Lemma array_write_eq uri t image st s m c :
  st !! uri = Some (Array s m c) -> nd_shape image = tile_shape t ->
  array_write uri t image st
  = mkOutcome (Ok tt) (<[uri := Array s m (write_region c t image)]> st) [].
Proof.
  intros H Hs. unfold array_write, bind; simpl. rewrite H.
  by rewrite decide_True.
Qed.

Lemma object_type_array uri st :
  result (object_type uri st) = Ok (Some "array") <-> is_array (st !! uri) = true.
Proof.
  unfold object_type, bind; simpl.
  destruct (st !! uri) as [[]|]; simpl; split; intros H; try done; by inversion H.
Qed.

Lemma object_type_eq uri st :
  object_type uri st
  = mkOutcome (Ok (match st !! uri with
                   | Some (Group _ _) => Some "group"
                   | Some (Array _ _ _) => Some "array"
                   | None => None
                   end)) st [].
Proof. reflexivity. Qed.

End StorageCalls.

(* --------------------------------------------------------------------- *)
(*  One iteration of the level loop                                      *)
(* --------------------------------------------------------------------- *)

Section OneLevel.

Context {E : Env}.

(* an existing array makes the iteration a no-op *)
Lemma convert_level_skip reader out o pd mt level s st :
  is_array (st !! level_uri out level) = true ->
  convert_level reader out o pd mt level s st = mkOutcome (Ok s) st [].
Proof.
  intros H. unfold convert_level. rewrite (bind_step _ _ _ (Some "array")).
  - rewrite decide_True by done. reflexivity.
  - by apply object_type_array.
Qed.

(* with a packed-pixel compressor no iteration touches the store *)
Lemma convert_level_packed_noop reader out o pd mt level s st :
  pd <> 1 ->
  final (convert_level reader out o pd mt level s st) = st /\
  trace (convert_level reader out o pd mt level s st) = [].
Proof.
  intros Hpd. unfold convert_level.
  rewrite (bind_step (object_type _) _ st _ eq_refl).
  cbn [result final trace object_type].
  case_decide; [done|].
  destruct (level_shape reader level) as [shape|e] eqn:Hshape;
    [rewrite (bind_step (lift _) _ _ _ eq_refl)
    |by rewrite (bind_Raise (lift _) _ _ _ eq_refl)].
  cbn [result final trace lift]. by rewrite decide_False.
Qed.

(* what an iteration that returns has done *)
Lemma convert_level_Ok reader out o pd mt level s st s' :
  result (convert_level reader out o pd mt level s st) = Ok s' ->
  let uri := level_uri out level in
  (is_array (st !! uri) = true /\ s' = s /\
   convert_level reader out o pd mt level s st = mkOutcome (Ok s) st [])
  \/
  (is_array (st !! uri) = false /\ st !! uri = None /\ pd = 1 /\
   exists source_shape am adt schema,
     let dim_names := if preserve_axes o then axes reader
                      else canonical (axes reader) source_shape in
     let st1 := <[uri := Array schema ∅ ∅]> st in
     let w := write_level reader level uri am (chunked o) (max_workers o) st1 in
     level_shape reader level = Ok source_shape /\
     new_mapper (axes reader) dim_names = Ok am /\
     level_dtype reader level = Ok adt /\
     _get_schema dim_names (map_shape am source_shape) mt adt (compressor o)
     = Ok schema /\
     result w = Ok tt /\
     s' = mkLocals (l_uris s ++ [uri])
                   (l_levels_meta s
                      ++ [mkLevelMeta uri level (join dim_names)
                                      (map_shape am source_shape)])
                   (Some dim_names) (Some adt) /\
     final (convert_level reader out o pd mt level s st) = final w /\
     trace (convert_level reader out o pd mt level s st)
     = EArrayCreate uri schema :: trace w).
Proof.
  intros H uri. destruct (is_array (st !! uri)) eqn:Harr.
  { left. rewrite convert_level_skip in H |- * by done. by injection H as <-. }
  right. split; [done|]. revert H. unfold convert_level. fold uri.
  rewrite (bind_step (object_type uri) _ st _ eq_refl). cbn [result final trace object_type].
  rewrite decide_False; [|by destruct (st !! uri) as [[]|]].
  destruct (level_shape reader level) as [source_shape|] eqn:Hshape;
    [rewrite (bind_step (lift _) _ _ _ eq_refl)|by rewrite (bind_Raise (lift _) _ _ _ eq_refl)].
  cbn [result final trace lift].
  case_decide as Hpd; [|done].
  destruct (new_mapper _ _) as [am|] eqn:Ham;
    [rewrite (bind_step (lift _) _ _ _ eq_refl)|by rewrite (bind_Raise (lift _) _ _ _ eq_refl)].
  cbn [result final trace lift].
  destruct (level_dtype reader level) as [adt|] eqn:Hadt;
    [rewrite (bind_step (lift _) _ _ _ eq_refl)|by rewrite (bind_Raise (lift _) _ _ _ eq_refl)].
  cbn [result final trace lift].
  destruct (_get_schema _ _ _ _ _) as [schema|] eqn:Hschema;
    [rewrite (bind_step (lift _) _ _ _ eq_refl)|by rewrite (bind_Raise (lift _) _ _ _ eq_refl)].
  cbn [result final trace lift].
  destruct (result (Array_create uri schema st)) as [[]|] eqn:Hcreate;
    [rewrite (bind_step _ _ _ _ Hcreate)|by rewrite (bind_Raise _ _ _ _ Hcreate)].
  apply Array_create_Ok in Hcreate as (Hnone & -> & ->).
  cbn [result final trace].
  destruct (result (write_level reader level uri am (chunked o) (max_workers o)
                      (<[uri:=Array schema ∅ ∅]> st))) as [[]|] eqn:Hw;
    [rewrite (bind_step _ _ _ _ Hw)|by rewrite (bind_Raise _ _ _ _ Hw)].
  cbn [result final trace ret app].
  intros [= <-]. split; [done|]. split; [done|].
  exists source_shape, am, adt, schema. cbn zeta.
  rewrite Hw, app_nil_r. done.
Qed.

End OneLevel.

(* --------------------------------------------------------------------- *)
(*  Invariants of the store across a run                                 *)
(* --------------------------------------------------------------------- *)

Section Frames.

Context {E : Env}.

(* an array is stored at k *)
Definition holds_array (k : string) : gmap string object -> Prop :=
  fun st => is_array (st !! k) = true.

(* the array stored at k is this one *)
Definition holds (k : string) (s : ArraySchema) (m : gmap string meta_value)
    (c : gmap (list Z) Z) : gmap string object -> Prop :=
  fun st => st !! k = Some (Array s m c).

(* the store differs from st0 at most at `out` *)
Definition only_changes (out : string) (st0 : gmap string object)
  : gmap string object -> Prop :=
  fun st => forall k, k <> out -> st !! k = st0 !! k.

Lemma holds_array_create k uri : create_stable (holds_array k) uri.
Proof.
  intros st o H Hn. unfold holds_array in *.
  destruct (decide (uri = k)) as [->|Hne]; [by rewrite Hn in H|].
  by rewrite lookup_insert_ne.
Qed.

Lemma holds_array_array k uri : array_stable (holds_array k) uri.
Proof.
  intros st s m c s' m' c' H Hn. unfold holds_array in *.
  destruct (decide (uri = k)) as [->|Hne]; [by rewrite lookup_insert_eq|].
  by rewrite lookup_insert_ne.
Qed.

Lemma holds_array_group k uri : group_stable (holds_array k) uri.
Proof.
  intros st m ms m' ms' H Hn. unfold holds_array in *.
  destruct (decide (uri = k)) as [->|Hne]; [by rewrite Hn in H|].
  by rewrite lookup_insert_ne.
Qed.

Lemma holds_create k s m c uri : create_stable (holds k s m c) uri.
Proof.
  intros st o H Hn. unfold holds in *.
  destruct (decide (uri = k)) as [->|Hne]; [congruence|].
  by rewrite lookup_insert_ne.
Qed.

Lemma holds_array_ne k s m c uri : uri <> k -> array_stable (holds k s m c) uri.
Proof.
  intros Hne st s1 m1 c1 s' m' c' H Hn. unfold holds in *.
  by rewrite lookup_insert_ne.
Qed.

Lemma holds_group k s m c uri : group_stable (holds k s m c) uri.
Proof.
  intros st m0 ms m' ms' H Hn. unfold holds in *.
  destruct (decide (uri = k)) as [->|Hne]; [congruence|].
  by rewrite lookup_insert_ne.
Qed.

Lemma only_changes_create out st0 : create_stable (only_changes out st0) out.
Proof.
  intros st o H Hn k Hk. rewrite lookup_insert_ne by done. by apply H.
Qed.

Lemma only_changes_group out st0 : group_stable (only_changes out st0) out.
Proof.
  intros st m ms m' ms' H Hn k Hk. rewrite lookup_insert_ne by done. by apply H.
Qed.

(* generating a pyramid level whose uri is taken changes nothing *)
Lemma scale_level_exists sc out dn adt mt c ils uris lm level st :
  st !! level_uri out level <> None ->
  final (scale_level sc out dn adt mt c ils (uris, lm, level) st) = st /\
  trace (scale_level sc out dn adt mt c ils (uris, lm, level) st) = [].
Proof.
  intros H. destruct ils as [index level_shape]. unfold scale_level.
  destruct (_get_schema dn level_shape mt adt c) as [schema|] eqn:Hs;
    [rewrite (bind_step (lift _) _ _ _ eq_refl)
    |by rewrite (bind_Raise (lift _) _ _ _ eq_refl)].
  cbn [result final trace lift].
  rewrite (bind_Raise (Array_create _ _) _ _ (TileDBError "object already exists"));
    rewrite Array_create_exists by done; done.
Qed.

(* the events that leave alone the level `level` stored at k *)
Definition leaves_alone (level : Z) (k : string) (e : event) : Prop :=
  match e with
  | ELevelImage l _ => l <> level
  | EArrayCreate u _ | EArrayMeta u _ | EWriteTile u _ | EWriteAll u => u <> k
  | EScalerApply _ d _ => d <> k
  | _ => True
  end.

(* a run leaves every array it finds as it is, and leaves alone the
   level stored there *)
Lemma to_tiledb_keeps cls inp out o level s m c :
  respects (holds (level_uri out level) s m c)
           (leaves_alone level (level_uri out level))
           (to_tiledb cls inp out o).
Proof.
  set (k := level_uri out level).
  apply to_tiledb_respects.
  - apply holds_create.
  - apply holds_group.
  - by intros [] He.
  - done.
  - intros rt l s0 Hrt Hl.
    destruct (decide (level_uri out l = k)) as [Heq|Hne].
    + intros st HI. rewrite convert_level_skip; [done|].
      rewrite Heq. unfold holds in HI. fold k in HI. by rewrite HI.
    + eapply respects_weaken;
        [|apply convert_level_respects; [apply holds_create|by apply holds_array_ne]].
      intros e [(_ & He)|He].
      * destruct e; try done. simpl in *. by destruct He as [-> _].
      * destruct e as [| | | |l' [t|]| | | | | | | | | | |]; simpl in *; try done.
        -- by subst.
        -- destruct He as [-> _]. intros ->. by apply Hne.
        -- destruct He as [-> _]. intros ->. by apply Hne.
        -- by destruct He as [-> _].
        -- by destruct He as [-> _].
  - intros Hpd Hkw sc dn adt ils [[uris lm] l].
    destruct (decide (level_uri out l = k)) as [Heq|Hne].
    + intros st HI. unfold holds in HI. fold k in HI.
      destruct (scale_level_exists sc out dn adt (max_tiles_of (tiles o) 1)
                  (compressor o) ils uris lm l st) as [-> ->]; [|done].
      rewrite Heq. by rewrite HI.
    + eapply respects_weaken;
        [|apply scale_level_respects; [apply holds_create|by apply holds_array_ne]].
      intros e [He|He].
      * destruct e; try done. simpl in *. by destruct He as [-> _].
      * destruct e; simpl in *; try done; by subst.
Qed.

(* a run never turns an array into something else *)
Lemma to_tiledb_keeps_arrays cls inp out o k :
  respects (holds_array k) (fun _ => True) (to_tiledb cls inp out o).
Proof.
  apply to_tiledb_respects; try done.
  - apply holds_array_create.
  - apply holds_array_group.
  - intros rt l s0 Hrt Hl.
    eapply respects_weaken;
      [|apply convert_level_respects; [apply holds_array_create|apply holds_array_array]].
    done.
  - intros Hpd Hkw sc dn adt ils [[uris lm] l].
    eapply respects_weaken;
      [|apply scale_level_respects; [apply holds_array_create|apply holds_array_array]].
    done.
Qed.

(* after an iteration that returns, the level has its array *)
Lemma convert_level_Ok_array reader out o pd mt level s st s' :
  result (convert_level reader out o pd mt level s st) = Ok s' ->
  holds_array (level_uri out level)
              (final (convert_level reader out o pd mt level s st)).
Proof.
  intros H. apply convert_level_Ok in H as [(Harr & _ & ->)|(_ & Hn & _ & H)];
    [done|].
  destruct H as (shape & am & adt & schema & _ & _ & _ & _ & _ & _ & -> & _).
  refine (proj1 (write_level_respects (holds_array (level_uri out level))
                   reader level _ am _ _ _ _ _)).
  - apply holds_array_array.
  - unfold holds_array. by rewrite lookup_insert_eq.
Qed.

(* after a loop that returns, every level of the list has its array *)
Lemma convert_levels_Ok_arrays reader out o pd mt l s st s' :
  result (for_each l (convert_level reader out o pd mt) s st) = Ok s' ->
  forall level, level ∈ l ->
    holds_array (level_uri out level)
                (final (for_each l (convert_level reader out o pd mt) s st)).
Proof.
  intros H level Hlevel.
  refine (for_each_Ok
    (fun done _ st => forall level, level ∈ done -> holds_array (level_uri out level) st)
    l (convert_level reader out o pd mt) _ [] s st s' _ H level Hlevel).
  - intros done x s0 st0 s0' _ HP Hr lv [Hl| ->%list_elem_of_singleton]%elem_of_app.
    + refine (proj1 (convert_level_respects (holds_array (level_uri out lv))
                       reader out o pd mt x s0 _ _ st0 _)).
      * apply holds_array_create.
      * apply holds_array_array.
      * by apply HP.
    + by eapply convert_level_Ok_array.
  - by intros ? ?%elem_of_nil.
Qed.

End Frames.

(* --------------------------------------------------------------------- *)
(*  Runs that return, and runs with a packed-pixel compressor            *)
(* --------------------------------------------------------------------- *)

Section Runs.

Context {E : Env}.

Lemma bind_ext {A B} (m : M A) (k k' : A -> M B) st :
  (forall a st', k a st' = k' a st') -> bind m k st = bind m k' st.
Proof. intros H. unfold bind. destruct (result (m st)); [by rewrite H|done]. Qed.

Lemma bind_assoc {A B C} (m : M A) (k : A -> M B) (k' : B -> M C) st :
  bind (bind m k) k' st = bind m (fun a => bind (k a) k') st.
Proof.
  unfold bind. destruct (result (m st)) as [a|e]; simpl; [|done].
  destruct (result (k a (final (m st)))) as [b|e]; simpl; [|done].
  by rewrite app_assoc.
Qed.

Lemma bind_ret_l {A B} (a : A) (k : A -> M B) st : bind (ret a) k st = k a st.
Proof. unfold bind, ret; simpl. by destruct (k a st). Qed.

Lemma for_each_app {A S} (l1 l2 : list A) (body : A -> S -> M S) s st :
  for_each (l1 ++ l2) body s st
  = bind (for_each l1 body s) (for_each l2 body) st.
Proof.
  revert s st. induction l1 as [|x l1 IH]; intros s st; simpl.
  - by rewrite bind_ret_l.
  - rewrite bind_assoc. apply bind_ext. intros s1 st1. apply IH.
Qed.

(* the levels that have their array are gone through without effect *)
Lemma convert_levels_skip reader out o pd mt l s st :
  (forall level, level ∈ l -> is_array (st !! level_uri out level) = true) ->
  for_each l (convert_level reader out o pd mt) s st = mkOutcome (Ok s) st [].
Proof.
  induction l as [|x l IH]; intros H; simpl; [done|].
  erewrite bind_step; rewrite convert_level_skip by (apply H; by left); [|done].
  cbn [result final trace]. rewrite IH; [done|].
  intros level Hl. apply H. by right.
Qed.

Lemma convert_level_packed_raise reader out o pd mt level s st shape :
  pd <> 1 -> is_array (st !! level_uri out level) = false ->
  level_shape reader level = Ok shape ->
  convert_level reader out o pd mt level s st
  = mkOutcome (Raise NotImplementedError) st [].
Proof.
  intros Hpd Harr Hshape. unfold convert_level.
  rewrite (bind_step (object_type _) _ st _ eq_refl).
  cbn [result final trace object_type].
  rewrite decide_False; [|by destruct (st !! level_uri out level) as [[]|]].
  rewrite Hshape, (bind_step (lift _) _ _ _ eq_refl).
  cbn [result final trace lift]. by rewrite decide_False.
Qed.

(* before the loop: the group is there or is created, unless an array
   is in its place *)
Lemma before_levels_Ok reader out o st :
  is_array (st !! out) = false ->
  result (before_levels reader out o st) = Ok tt /\
  is_group (final (before_levels reader out o st) !! out) = true /\
  (forall k, is_array (final (before_levels reader out o st) !! k)
             = is_array (st !! k)) /\
  (forall k, k <> out -> final (before_levels reader out o st) !! k = st !! k).
Proof.
  intros Harr. unfold before_levels.
  rewrite (bind_step (object_type _) _ st _ eq_refl).
  cbn [result final trace object_type].
  destruct (st !! out) as [[m ms|]|] eqn:Hout; [|done|].
  - rewrite decide_True by done.
    rewrite (bind_step (ret tt) _ st tt eq_refl). cbn [result final trace ret].
    destruct (_ && _); cbn; rewrite Hout; done.
  - rewrite decide_False by done.
    assert (group_create out st
            = mkOutcome (Ok tt) (<[out := Group ∅ []]> st) [EGroupCreate out]) as Hg.
    { unfold group_create, bind; simpl. by rewrite Hout. }
    rewrite (bind_step (group_create out) _ st tt) by by rewrite Hg.
    rewrite Hg. cbn [result final trace].
    assert (forall k, is_array (<[out:=Group ∅ []]> st !! k) = is_array (st !! k)) as Ha.
    { intros k. destruct (decide (k = out)) as [->|Hne].
      - by rewrite lookup_insert_eq, Hout.
      - by rewrite lookup_insert_ne. }
    destruct (_ && _); cbn; rewrite lookup_insert_eq; (repeat split; [done..|]);
      intros k Hk; by rewrite lookup_insert_ne.
Qed.

(* the phases of a run that returns *)
Lemma to_tiledb_Ok cls inp out o st :
  result (to_tiledb cls inp out o st) = Ok tt ->
  exists rt s,
    let reader := rt inp in
    let pd := get_pixel_depth (compressor o) in
    let mt := max_tiles_of (tiles o) pd in
    let b := before_levels reader out o st in
    let lp := for_each (range (level_min o) (level_max reader o))
                       (convert_level reader out o pd mt)
                       (mkLocals [] [] None None) (final b) in
    let a := after_levels reader out o mt s (final lp) in
    _ImageReaderType cls = Some rt /\
    result b = Ok tt /\ result lp = Ok s /\ result a = Ok tt /\
    final (to_tiledb cls inp out o st) = final a /\
    trace (to_tiledb cls inp out o st) = trace b ++ trace lp ++ trace a.
Proof.
  unfold to_tiledb. destruct (_ImageReaderType cls) as [rt|]; [|done].
  intros H. exists rt.
  apply bind_Ok in H as ([] & Hb & H & Hf & Ht).
  apply bind_Ok in H as (s & Hlp & Ha & Hf' & Ht').
  exists s. cbn zeta. rewrite Hf, Ht, Hf', Ht'. by destruct (result (after_levels _ _ _ _ _ _)) as [[]|].
Qed.

End Runs.

Section RunTheorems.

Context {E : Env}.

Lemma range_pyramid reader o :
  is_Some (pyramid_kwargs o) ->
  range (level_min o) (level_max reader o) = [level_min o].
Proof.
  intros [kw Hkw]. unfold range, level_max. rewrite Hkw.
  replace (level_min o + 1 - level_min o) with 1 by lia. reflexivity.
Qed.

Lemma range_native reader o :
  pyramid_kwargs o = None ->
  range (level_min o) (level_max reader o)
  = seqZ (level_min o) (level_count reader - level_min o).
Proof. intros Hkw. unfold range, level_max. by rewrite Hkw. Qed.

(* after a run that returns, every level of the range has its array *)
Lemma to_tiledb_Ok_arrays cls inp out o st rt level :
  _ImageReaderType cls = Some rt ->
  result (to_tiledb cls inp out o st) = Ok tt ->
  level ∈ range (level_min o) (level_max (rt inp) o) ->
  is_array (final (to_tiledb cls inp out o st) !! level_uri out level) = true.
Proof.
  intros Hrt H Hl.
  apply to_tiledb_Ok in H as (rt' & s & Hrt' & Hb & Hlp & Ha & -> & _).
  rewrite Hrt in Hrt'. injection Hrt' as <-.
  pose proof (convert_levels_Ok_arrays _ _ _ _ _ _ _ _ _ Hlp level Hl) as Harr.
  refine (proj1 (after_levels_respects (holds_array (level_uri out level))
                   (fun _ => True) _ _ _ _ _ _ _ _ _ Harr)); [|done|].
  - apply holds_array_group.
  - intros _ _ sc dn adt ils [[uris lm] l].
    eapply respects_weaken;
      [|apply scale_level_respects; [apply holds_array_create|apply holds_array_array]].
    done.
Qed.


(* with a packed-pixel compressor a run changes the store at the output
   group only, and its events are those of the group *)
Lemma to_tiledb_packed cls inp out o st :
  get_pixel_depth (compressor o) <> 1 ->
  only_changes out st (final (to_tiledb cls inp out o st)) /\
  Forall (fun e => group_event out e \/ e = EWarn multiple_levels_warning)
         (trace (to_tiledb cls inp out o st)).
Proof.
  intros Hpd. apply to_tiledb_respects; try done.
  - apply only_changes_create.
  - apply only_changes_group.
  - intros e He. by left.
  - intros rt Hrt Hw. by right.
  - intros rt level s Hrt Hl st' HI.
    by destruct (convert_level_packed_noop (rt inp) out o _
                   (max_tiles_of (tiles o) (get_pixel_depth (compressor o)))
                   level s st' Hpd) as [-> ->].
Qed.

End RunTheorems.

(* the skip of the level loop: whatever the outcome of a run of to_tiledb,
   every array that is stored at the location l_{level}.tdb of a level
   before the run is stored there unchanged after it, and the run reads no
   image of that level and creates or writes no array there. When pyramid
   generation is not requested and the run returns, every level from
   level_min to level_count - 1 has an array at its location, so that the
   levels that had none were created by the run. *)
Lemma to_tiledb_resume `{E : Env} cls inp out o st rt :
  _ImageReaderType cls = Some rt ->
  (forall level s m c,
      st !! level_uri out level = Some (Array s m c) ->
      final (to_tiledb cls inp out o st) !! level_uri out level
      = Some (Array s m c) /\
      Forall (leaves_alone level (level_uri out level))
             (trace (to_tiledb cls inp out o st))) /\
  (pyramid_kwargs o = None ->
   result (to_tiledb cls inp out o st) = Ok tt ->
   forall level, level_min o <= level < level_count (rt inp) ->
     is_array (final (to_tiledb cls inp out o st) !! level_uri out level) = true).
Proof.
  intros Hrt. split.
  - intros level s m c Hst. by apply to_tiledb_keeps.
  - intros Hkw Hok level Hl. eapply to_tiledb_Ok_arrays; [done..|].
    rewrite range_native by done. apply elem_of_seqZ. lia.
Qed.


(** C8 (as amended). With a compressor whose pixel depth is not 1, when
    no array is stored in the place of the output group, to_tiledb
    raises NotImplementedError at the first level of its range that has
    no array yet, provided the reader gives the shape of that level. No
    level array has been created or written by then: the store differs
    from the one before the run at most by the creation of the output
    group, and the events of the run are those of the group and the
    warning. *)
Theorem to_tiledb_packed_pixels `{E : Env} cls inp out o st rt level shape :
  _ImageReaderType cls = Some rt ->
  get_pixel_depth (compressor o) <> 1 ->
  is_array (st !! out) = false ->
  level_min o <= level < level_max (rt inp) o ->
  (forall l, level_min o <= l < level ->
             is_array (st !! level_uri out l) = true) ->
  is_array (st !! level_uri out level) = false ->
  level_shape (rt inp) level = Ok shape ->
  result (to_tiledb cls inp out o st) = Raise NotImplementedError /\
  (forall k, k <> out -> final (to_tiledb cls inp out o st) !! k = st !! k) /\
  Forall (fun e => group_event out e \/ e = EWarn multiple_levels_warning)
         (trace (to_tiledb cls inp out o st)).
Proof.
  intros Hrt Hpd Hout Hlevel Hbefore Hmissing Hshape.
  split; [|by apply to_tiledb_packed].
  unfold to_tiledb. rewrite Hrt.
  destruct (before_levels_Ok (rt inp) out o st Hout) as (Hb & _ & Harr & _).
  rewrite (bind_step _ _ _ _ Hb). cbn [result].
  set (st1 := final (before_levels (rt inp) out o st)) in *.
  assert (range (level_min o) (level_max (rt inp) o)
          = seqZ (level_min o) (level - level_min o)
            ++ level :: seqZ (level + 1) (level_max (rt inp) o - level - 1)) as ->.
  { unfold range.
    replace (level_max (rt inp) o - level_min o)
      with ((level - level_min o) + (level_max (rt inp) o - level)) by lia.
    rewrite seqZ_app by lia. f_equal.
    replace (level_min o + (level - level_min o)) with level by lia.
    rewrite seqZ_cons by lia. by f_equal. }
  set (init := mkLocals [] [] None None).
  set (body := convert_level (rt inp) out o (get_pixel_depth (compressor o))
                 (max_tiles_of (tiles o) (get_pixel_depth (compressor o)))).
  assert (for_each (seqZ (level_min o) (level - level_min o)) body init st1
          = mkOutcome (Ok init) st1 []) as Hpre.
  { apply convert_levels_skip. intros l Hl. apply elem_of_seqZ in Hl.
    rewrite Harr. apply Hbefore. lia. }
  assert (body level init st1 = mkOutcome (Raise NotImplementedError) st1 []) as Hat.
  { eapply convert_level_packed_raise; [done| |done]. by rewrite Harr. }
  rewrite (bind_Raise _ _ _ NotImplementedError); [done|].
  rewrite for_each_app, (bind_step _ _ _ init) by (by rewrite Hpre).
  rewrite Hpre. cbn [result final trace for_each].
  rewrite (bind_Raise _ _ _ NotImplementedError); [done|]. by rewrite Hat.
Qed.

(** C1 (as amended). For a shape of positive extents whose cell count,
    the product of the extents, is below 2^63, the index dtype that
    _get_schema gives to every dimension is the narrowest unsigned
    integer type among 8, 16, 32 and 64 bits whose range covers the cell
    count itself; _get_schema raises nothing for a cell count that is too
    large: it fails only on the length assertion or on a dimension name
    that max_tiles lacks. *)
Theorem get_schema_index_dtype names shape max_tiles adt c :
  Forall (fun e => 0 < e) shape -> shape <> [] -> NumPy.product shape < 2 ^ 63 ->
  smallest_unsigned (index_dtype shape) (NumPy.product shape) /\
  match _get_schema names shape max_tiles adt c with
  | Ok schema => Forall (fun d => dim_dtype d = index_dtype shape) (domain schema)
  | Raise e => e = AssertionError \/ exists k, e = KeyError k
  end.
Proof.
  intros Hpos Hne Hlt. split; [by apply index_dtype_smallest|].
  destruct (_get_schema names shape max_tiles adt c) as [schema|e] eqn:Hs.
  - apply get_schema_ok in Hs as (_ & _ & Hs).
    induction Hs as [|nd d nds ds (_ & _ & Hd & _) _ IH]; by constructor.
  - by eapply get_schema_raise.
Qed.

Lemma get_schema_index_dtype_witness :
  (Forall (fun e => 0 < e) [15; 17] /\ [15; 17] <> [] /\
   NumPy.product [15; 17] < 2 ^ 63) /\
  smallest_unsigned NumPy.uint8 255 /\
  _get_schema ["Y"; "X"] [15; 17] _DEFAULT_TILES NumPy.uint8 (ZstdFilter 0)
  = Ok (mkSchema [mkDim "Y" (0, 14) 15 NumPy.uint8; mkDim "X" (0, 16) 17 NumPy.uint8]
          [mkAttr "" NumPy.uint8 [ZstdFilter 0]]).
Proof.
  assert (Forall (fun e => 0 < e) [15; 17]) as H1 by (repeat constructor; lia).
  assert ([15; 17] <> []) as H2 by done.
  assert (NumPy.product [15; 17] < 2 ^ 63) as H3 by (vm_compute; reflexivity).
  split; [done|].
  pose proof (get_schema_index_dtype ["Y"; "X"] [15; 17] _DEFAULT_TILES
                NumPy.uint8 (ZstdFilter 0) H1 H2 H3) as [H _].
  split; [exact H|]. vm_compute. reflexivity.
Defined.

(* 256 cells take a 16-bit index although 8 bits cover 0..255; and
   2^64 + 2^40 cells, which no supported width covers, raise nothing: the
   int64 product has wrapped to 2^40 and the index is a uint64 *)
Lemma get_schema_index_dtype_counterexample :
  (_get_schema ["Y"; "X"] [16; 16] _DEFAULT_TILES NumPy.uint8 (ZstdFilter 0)
   = Ok (mkSchema [mkDim "Y" (0, 15) 16 NumPy.uint16; mkDim "X" (0, 15) 16 NumPy.uint16]
           [mkAttr "" NumPy.uint8 [ZstdFilter 0]]) /\
   ~ smallest_unsigned NumPy.uint16 (NumPy.product [16; 16] - 1)) /\
  (_get_schema ["Y"; "X"] [2 ^ 24 + 1; 2 ^ 40] _DEFAULT_TILES NumPy.uint8
               (ZstdFilter 0)
   = Ok (mkSchema [mkDim "Y" (0, 2 ^ 24) 1024 NumPy.uint64;
                   mkDim "X" (0, 2 ^ 40 - 1) 1024 NumPy.uint64]
           [mkAttr "" NumPy.uint8 [ZstdFilter 0]]) /\
   forall w, w ∈ supported_widths ->
             ~ covers w (NumPy.product [2 ^ 24 + 1; 2 ^ 40] - 1)).
Proof.
  split; split.
  - vm_compute. reflexivity.
  - intros (w & Hw & _ & Hmin). injection Hw as <-.
    specialize (Hmin 8). unfold covers in Hmin. simpl in Hmin.
    assert (8 ∈ supported_widths) as H8 by (apply elem_of_supported; lia).
    specialize (Hmin H8). lia.
  - vm_compute. reflexivity.
  - intros w Hw [_ Hc]. apply elem_of_supported in Hw.
    destruct Hw as [ -> | [ -> | [ -> | -> ] ] ]; vm_compute in Hc; by apply Hc.
Qed.

(* a run is resumed after the reader failed on the shape of level 1: level
   0 is left as it was, level 1 gets its array *)
Lemma to_tiledb_resume_witness :
  let st := Demo.interrupted_before_level_1 in
  let run := Demo.ingest Demo.reader Demo.defaults st in
  _ImageReaderType (Demo.cls Demo.reader) = Some (fun _ => Demo.reader) /\
  (exists s m c,
      st !! "out/l_0.tdb" = Some (Array s m c) /\
      final run !! "out/l_0.tdb" = Some (Array s m c) /\
      Forall (leaves_alone 0 "out/l_0.tdb") (trace run)) /\
  pyramid_kwargs Demo.defaults = None /\
  result run = Ok tt /\
  st !! "out/l_1.tdb" = None /\
  is_array (final run !! "out/l_1.tdb") = true.
Proof.
  intros st run. unfold Demo.ingest in run. subst run.
  assert (_ImageReaderType (Demo.cls Demo.reader) = Some (fun _ => Demo.reader))
    as Hrt by reflexivity.
  assert (result (to_tiledb (E := Demo.env) (Demo.cls Demo.reader) "in.tiff" "out"
                            Demo.defaults st) = Ok tt) as Hok
    by (vm_compute; reflexivity).
  destruct (to_tiledb_resume (E := Demo.env) (Demo.cls Demo.reader) "in.tiff" "out"
              Demo.defaults st (fun _ => Demo.reader) Hrt) as [Hkeep Hnew].
  assert (level_uri "out" 0 = "out/l_0.tdb") as Hu0 by reflexivity.
  assert (level_uri "out" 1 = "out/l_1.tdb") as Hu1 by reflexivity.
  rewrite <- Hu0, <- Hu1.
  split; [exact Hrt|]. split.
  - assert (is_array (st !! level_uri "out" 0) = true) as Harr
      by (vm_compute; reflexivity).
    destruct (st !! level_uri "out" 0) as [[|s m c]|] eqn:H0;
      [discriminate Harr| |discriminate Harr].
    exists s, m, c. split; [reflexivity|]. exact (Hkeep 0 s m c H0).
  - split; [reflexivity|]. split; [exact Hok|]. split; [vm_compute; reflexivity|].
    apply (Hnew eq_refl Hok 1). vm_compute. split; [discriminate|reflexivity].
Defined.

(** C3. A run of to_tiledb on a two-level image whose reader fails on the
    pixels of level 1 raises after Array.create: it leaves level 0
    complete and the array of level 1 stored without cells. The run that
    resumes it with a working reader returns, but it takes the array of
    level 1 for a converted level: no event of the run reads an image of
    level 1 or writes to its array, the array is still without cells
    after the run, and the levels entry of the group is empty, where a
    complete ingestion stores the pixels of level 1. Level 0 is left as
    the first run completed it. *)
Theorem to_tiledb_resume_incomplete :
  let st := Demo.interrupted_in_level_1 in
  let run := Demo.ingest Demo.reader Demo.defaults st in
  result (Demo.ingest Demo.reader_failing_image Demo.defaults ∅)
  = Raise (ReaderError "simulated failure") /\
  st !! "out/l_0.tdb" = Demo.complete !! "out/l_0.tdb" /\
  is_array (st !! "out/l_0.tdb") = true /\
  Demo.cells_at st "out/l_1.tdb" = Some ∅ /\
  result run = Ok tt /\
  Forall (leaves_alone 1 "out/l_1.tdb") (trace run) /\
  final run !! "out/l_0.tdb" = st !! "out/l_0.tdb" /\
  Demo.cells_at (final run) "out/l_1.tdb" = Some ∅ /\
  Demo.levels_at (final run) "out" = Some (MLevels []) /\
  Demo.cells_at Demo.complete "out/l_1.tdb" <> Some ∅.
Proof.
  cbv zeta.
  repeat match goal with |- _ /\ _ => split end;
    try (vm_compute; reflexivity).
  - vm_compute. repeat constructor.
  - vm_compute. discriminate.
Qed.


(* a packed-pixel compressor on a fresh output: the group is created, then
   level 0 raises *)
Lemma to_tiledb_packed_pixels_witness :
  let o := Demo.with_compressor Demo.defaults (WebpFilter 0) in
  let run := Demo.ingest Demo.reader o ∅ in
  (get_pixel_depth (Env := Demo.env) (compressor o) <> 1 /\
   is_array ((∅ : gmap string object) !! "out") = false /\
   level_min o <= 0 < level_max Demo.reader o /\
   is_array ((∅ : gmap string object) !! level_uri "out" 0) = false /\
   level_shape Demo.reader 0 = Ok [4; 3; 2]) /\
  result run = Raise NotImplementedError /\
  (forall k, k <> "out" -> final run !! k = (∅ : gmap string object) !! k) /\
  Forall (fun e => group_event "out" e \/ e = EWarn multiple_levels_warning)
         (trace run).
Proof.
  intros o run. unfold Demo.ingest in run. subst run.
  assert (get_pixel_depth (Env := Demo.env) (compressor o) <> 1) as H1
    by (vm_compute; discriminate).
  assert (is_array ((∅ : gmap string object) !! "out") = false) as H2 by reflexivity.
  assert (level_min o <= 0 < level_max Demo.reader o) as H3
    by (vm_compute; split; [discriminate|reflexivity]).
  assert (is_array ((∅ : gmap string object) !! level_uri "out" 0) = false) as H4
    by reflexivity.
  assert (level_shape Demo.reader 0 = Ok [4; 3; 2]) as H5 by reflexivity.
  split; [done|].
  apply (to_tiledb_packed_pixels (E := Demo.env) (Demo.cls Demo.reader) "in.tiff"
           "out" o ∅ (fun _ => Demo.reader) 0 [4; 3; 2] eq_refl H1 H2 H3); [|done..].
  intros l Hl. simpl in Hl. lia.
Defined.

(* a packed-pixel compressor on an output whose levels all have their
   array: nothing is raised and the group metadata is rewritten; and on a
   fresh output the group is created before the exception *)
Lemma to_tiledb_packed_pixels_counterexample :
  let o := Demo.with_compressor Demo.defaults (WebpFilter 0) in
  get_pixel_depth (Env := Demo.env) (compressor o) = 3 /\
  result (Demo.ingest Demo.reader o Demo.complete) = Ok tt /\
  Demo.levels_at Demo.complete "out" <> Some (MLevels []) /\
  Demo.levels_at (final (Demo.ingest Demo.reader o Demo.complete)) "out"
  = Some (MLevels []) /\
  result (Demo.ingest Demo.reader o ∅) = Raise NotImplementedError /\
  final (Demo.ingest Demo.reader o ∅) !! "out" = Some (Group ∅ []).
Proof.
  cbv zeta. repeat split; try (vm_compute; reflexivity).
  vm_compute. discriminate.
Qed.

(** C4. A run is resumed on an output where level 0 is complete and level
    1 has no array; it returns, and the levels entry of the group
    metadata it writes describes level 1 only, although level 0 is a
    completed level of the image: the levels that the loop skips are not
    described. *)
Theorem to_tiledb_levels_after_resume :
  let st := Demo.interrupted_before_level_1 in
  let run := Demo.ingest Demo.reader Demo.defaults st in
  is_array (st !! "out/l_0.tdb") = true /\
  st !! "out/l_1.tdb" = None /\
  result run = Ok tt /\
  is_array (final run !! "out/l_0.tdb") = true /\
  is_array (final run !! "out/l_1.tdb") = true /\
  Demo.levels_at (final run) "out"
  = Some (MLevels [mkLevelMeta "out/l_1.tdb" 1 "CYX" [2; 2; 2]]) /\
  Demo.levels_at Demo.complete "out"
  = Some (MLevels [mkLevelMeta "out/l_0.tdb" 0 "CYX" [2; 4; 3];
                   mkLevelMeta "out/l_1.tdb" 1 "CYX" [2; 2; 2]]).
Proof. cbv zeta. repeat split; vm_compute; reflexivity. Qed.

(* --------------------------------------------------------------------- *)
(*  Export: from_tiledb                                                  *)
(* --------------------------------------------------------------------- *)

Section Exports.

Context {E : Env}.




End Exports.



(* --------------------------------------------------------------------- *)
(*  The two ways of populating a level                                   *)
(* --------------------------------------------------------------------- *)

Section WritePaths.

Context {E : Env}.





End WritePaths.



(* --------------------------------------------------------------------- *)
(*  The source of each generated pyramid level                           *)
(* --------------------------------------------------------------------- *)

Section Pyramid.

Context {E : Env}.

(* the calls of scaler.apply in a trace: source, destination, index *)
Definition scaler_apply_of (e : event) : option (string * string * nat) :=
  match e with
  | EScalerApply src dst index => Some (src, dst, index)
  | _ => None
  end.

Definition scaler_applies (tr : list event) : list (string * string * nat) :=
  omap scaler_apply_of tr.

Lemma scaler_applies_app tr1 tr2 :
  scaler_applies (tr1 ++ tr2) = scaler_applies tr1 ++ scaler_applies tr2.
Proof. apply omap_app. Qed.

Lemma scaler_applies_none (Q : event -> Prop) tr :
  (forall e, Q e -> scaler_apply_of e = None) -> Forall Q tr ->
  scaler_applies tr = [].
Proof.
  intros HQ. induction 1 as [|e tr He _ IH]; [done|].
  unfold scaler_applies in *. simpl. by rewrite (HQ e He).
Qed.

Lemma array_read_Ok uri st b :
  result (array_read uri st) = Ok b -> trace (array_read uri st) = [].
Proof.
  unfold array_read, bind; simpl. by destruct (st !! uri) as [[]|]; simpl.
Qed.

Lemma scale_level_Ok sc out dn adt mt c index level_shape uris lm level st s' :
  result (scale_level sc out dn adt mt c (index, level_shape) (uris, lm, level) st)
  = Ok s' ->
  exists src,
    (if progressive sc then last uris else head uris) = Some src /\
    s' = (uris ++ [level_uri out level],
          lm ++ [mkLevelMeta (level_uri out level) level (join dn) level_shape],
          level + 1) /\
    scaler_applies
      (trace (scale_level sc out dn adt mt c (index, level_shape) (uris, lm, level) st))
    = [(src, level_uri out level, index)].
Proof.
  unfold scale_level, scaler_apply. intros H.
  apply bind_Ok in H as (schema & _ & H & _ & ->).
  apply bind_Ok in H as ([] & Hc & H & _ & ->).
  apply bind_Ok in H as (src & Hsrc & H & _ & ->).
  apply bind_Ok in H as (a1 & Ho1 & H & _ & ->).
  apply bind_Ok in H as (a2 & Ho2 & H & _ & ->).
  apply bind_Ok in H as ([] & Hm & H & _ & ->).
  apply bind_Ok in H as ([] & Ha & H & _ & ->).
  apply bind_Ok in Ha as (base & Hr & Ha & _ & ->).
  apply bind_Ok in Ha as (o & Ho3 & Ha & _ & ->).
  apply bind_Ok in Ha as ([] & _ & Ha & _ & ->).
  apply array_write_Ok in Ha as (? & ? & ? & _ & _ & _ & ->).
  apply open_array_Ok in Ho1 as (_ & _ & ->).
  apply open_array_Ok in Ho2 as (_ & _ & ->).
  apply open_array_Ok in Ho3 as (_ & _ & ->).
  apply array_read_Ok in Hr as ->.
  apply array_meta_update_Ok in Hm as (? & ? & ? & _ & _ & ->).
  apply Array_create_Ok in Hc as (_ & _ & ->).
  cbn in Hsrc, H. injection H as <-.
  exists src. split.
  { destruct (if progressive sc then last uris else head uris); congruence. }
  split; [done|]. reflexivity.
Qed.

Lemma scale_loop_sources sc out dn adt mt c shapes :
  forall (i0 : nat) uris lm level st s' base prev,
    head uris = Some base -> last uris = Some prev ->
    result (for_each (imap (fun k sh => ((i0 + k)%nat, sh)) shapes)
                     (scale_level sc out dn adt mt c) (uris, lm, level) st) = Ok s' ->
    scaler_applies
      (trace (for_each (imap (fun k sh => ((i0 + k)%nat, sh)) shapes)
                       (scale_level sc out dn adt mt c) (uris, lm, level) st))
    = imap (fun (k : nat) (_ : list Z) =>
              (if progressive sc
               then match k with
                    | O => prev
                    | S j => level_uri out (level + Z.of_nat j)
                    end
               else base,
               level_uri out (level + Z.of_nat k), (i0 + k)%nat))
           shapes.
Proof.
  induction shapes as [|sh shapes IH]; intros i0 uris lm level st s' base prev Hh Hl H.
  { done. }
  rewrite imap_cons in H |- *. cbn [for_each] in H |- *.
  apply bind_Ok in H as (s1 & H1 & H2 & _ & ->).
  rewrite scaler_applies_app.
  apply scale_level_Ok in H1 as (src & Hsrc & -> & ->).
  rewrite imap_cons. cbn [app]. f_equal.
  - rewrite Nat.add_0_r, Z.add_0_r. f_equal. f_equal.
    destruct (progressive sc); congruence.
  - assert (imap ((fun (k : nat) (sh0 : list Z) => ((i0 + k)%nat, sh0)) ∘ S) shapes
            = imap (fun k sh0 => ((S i0 + k)%nat, sh0)) shapes) as Heq.
    { apply imap_ext. intros k x _. unfold compose. f_equal. lia. }
    rewrite Heq in H2 |- *.
    erewrite (IH (S i0) _ _ (level + 1) _ s' base (level_uri out level)); [|..|exact H2].
    + apply imap_ext. intros k x _. unfold compose. f_equal; [f_equal|lia].
      * destruct (progressive sc); [|done]. destruct k as [|k]; f_equal; lia.
      * f_equal. lia.
    + destruct uris; [done|]. done.
    + by rewrite last_snoc.
Qed.

Lemma _scale_sources uris lm out lmin dn adt mt c kw st r base prev :
  head uris = Some base -> last uris = Some prev ->
  result (_scale uris lm out lmin dn adt mt c kw st) = Ok r ->
  scaler_applies (trace (_scale uris lm out lmin dn adt mt c kw st))
  = imap (fun (k : nat) (_ : Z) =>
            (if pk_progressive kw
             then match k with
                  | O => prev
                  | S j => level_uri out (lmin + 1 + Z.of_nat j)
                  end
             else base,
             level_uri out (lmin + 1 + Z.of_nat k), k))
         (scale_factors kw).
Proof.
  intros Hh Hl. unfold _scale. intros H.
  apply bind_Ok in H as (uri0 & _ & H & _ & ->).
  apply bind_Ok in H as (a & Ha & H & _ & ->).
  apply bind_Ok in H as (sc & Hsc & H & _ & ->).
  apply bind_Ok in H as (s' & H & _ & _ & ->).
  apply open_array_Ok in Ha as (_ & _ & ->).
  cbn [trace lift ret app]. rewrite app_nil_r.
  cbn in Hsc. unfold new_scaler in Hsc. case_decide; [|done].
  injection Hsc as <-. cbn [level_shapes progressive] in H |- *.
  erewrite (scale_loop_sources _ out dn adt mt c _ 0%nat); [|done..|exact H].
  cbn [progressive]. by rewrite imap_fmap.
Qed.

End Pyramid.

Section PyramidRun.

Context {E : Env}.

Definition no_apply (e : event) : Prop := scaler_apply_of e = None.

Lemma after_levels_Ok_pyramid reader out o mt s st kw :
  pyramid_kwargs o = Some kw ->
  result (after_levels reader out o mt s st) = Ok tt ->
  exists dn adt r,
    l_dim_names s = Some dn /\ l_attr_dtype s = Some adt /\
    result (_scale (l_uris s) (l_levels_meta s) out (level_min o) dn adt mt
                   (compressor o) kw st) = Ok r /\
    scaler_applies (trace (after_levels reader out o mt s st))
    = scaler_applies (trace (_scale (l_uris s) (l_levels_meta s) out (level_min o)
                                    dn adt mt (compressor o) kw st)).
Proof.
  intros Hkw. unfold after_levels. rewrite Hkw. intros H.
  apply bind_Ok in H as (ul & H1 & _ & _ & ->).
  rewrite scaler_applies_app.
  rewrite (scaler_applies_none no_apply (trace (write_group _ _ _ _ _))); [|done|].
  2:{ refine (proj2 (write_group_respects any_store no_apply reader out _ _ _ _ _ I)).
      - apply any_store_group.
      - by intros []. }
  rewrite app_nil_r. revert H1.
  destruct (l_dim_names s) as [dn|];
    [|intros H1; apply bind_Ok in H1 as (? & H1 & _); discriminate H1].
  unfold read_local at 1. rewrite bind_ret_l.
  destruct (l_attr_dtype s) as [adt|];
    [|intros H1; apply bind_Ok in H1 as (? & H1 & _); discriminate H1].
  unfold read_local at 1. rewrite bind_ret_l.
  intros H1. by exists dn, adt, ul.
Qed.

Lemma pyramid_loop_uris reader out o pd mt level st s :
  result (for_each [level] (convert_level reader out o pd mt)
                   (mkLocals [] [] None None) st) = Ok s ->
  is_Some (l_dim_names s) ->
  l_uris s = [level_uri out level].
Proof.
  cbn [for_each]. intros H [dn Hdn].
  apply bind_Ok in H as (s1 & H1 & H2 & _). cbn in H2. injection H2 as <-.
  apply convert_level_Ok in H1 as [(_ & -> & _)|(_ & _ & _ & H1)]; [done|].
  by destruct H1 as (? & ? & ? & ? & _ & _ & _ & _ & _ & -> & _).
Qed.

End PyramidRun.

(** C6. In a run of to_tiledb with pyramid generation that returns, the
    calls of scaler.apply are, in order, one per scale factor: the k-th
    (from 0) writes the array of level level_min + 1 + k and reads, when
    the scaler is progressive, the array of level level_min + k, the
    level just before it, and, when it is not, the array of level
    level_min, the same base for every generated level. *)
Theorem to_tiledb_pyramid_sources `{E : Env} cls inp out o st kw :
  pyramid_kwargs o = Some kw ->
  result (to_tiledb cls inp out o st) = Ok tt ->
  scaler_applies (trace (to_tiledb cls inp out o st))
  = imap (fun (k : nat) (_ : Z) =>
            (level_uri out (if pk_progressive kw then level_min o + Z.of_nat k
                            else level_min o),
             level_uri out (level_min o + 1 + Z.of_nat k), k))
         (scale_factors kw).
Proof.
  intros Hkw Hok.
  apply to_tiledb_Ok in Hok as (rt & s & Hrt & Hb & Hlp & Ha & _ & ->).
  rewrite !scaler_applies_app.
  rewrite (scaler_applies_none no_apply (trace (before_levels _ _ _ _))); [|done|].
  2:{ refine (proj2 (before_levels_respects any_store no_apply _ _ _ _ _ _ _ I)).
      - apply any_store_create.
      - by intros [].
      - done. }
  rewrite (scaler_applies_none no_apply (trace (for_each _ _ _ _))); [|done|].
  2:{ refine (proj2 (respects_for_each any_store no_apply _ _ _ _ _ I)).
      intros level s0 _. eapply respects_weaken;
        [|apply convert_level_respects; [apply any_store_create|apply any_store_array]].
      intros e [(_ & He)|He]; by destruct e. }
  cbn [app].
  apply (after_levels_Ok_pyramid _ _ _ _ _ _ kw Hkw) in Ha
    as (dn & adt & r & Hdn & _ & Hscale & ->).
  rewrite range_pyramid in Hlp by (by rewrite Hkw).
  apply pyramid_loop_uris in Hlp; [|by rewrite Hdn].
  rewrite Hlp in Hscale |- *.
  erewrite (_scale_sources _ _ _ _ _ _ _ _ _ _ _ (level_uri out (level_min o))
              (level_uri out (level_min o))); [|done..|exact Hscale].
  apply imap_ext. intros k x _. f_equal. f_equal.
  destruct (pk_progressive kw); [|done].
  destruct k as [|k]; f_equal; lia.
Qed.

(* three scale factors over the demo image: progressive scaling reads the
   level just generated, non-progressive scaling reads level 0 each time *)
Lemma to_tiledb_pyramid_sources_witness :
  let o := fun progressive =>
             Demo.with_pyramid Demo.defaults (Demo.pyramid progressive) in
  (pyramid_kwargs (o true) = Some (Demo.pyramid true) /\
   result (Demo.ingest Demo.reader (o true) ∅) = Ok tt /\
   pyramid_kwargs (o false) = Some (Demo.pyramid false) /\
   result (Demo.ingest Demo.reader (o false) ∅) = Ok tt) /\
  scaler_applies (trace (Demo.ingest Demo.reader (o true) ∅))
  = [("out/l_0.tdb", "out/l_1.tdb", 0%nat); ("out/l_1.tdb", "out/l_2.tdb", 1%nat);
     ("out/l_2.tdb", "out/l_3.tdb", 2%nat)] /\
  scaler_applies (trace (Demo.ingest Demo.reader (o false) ∅))
  = [("out/l_0.tdb", "out/l_1.tdb", 0%nat); ("out/l_0.tdb", "out/l_2.tdb", 1%nat);
     ("out/l_0.tdb", "out/l_3.tdb", 2%nat)].
Proof.
  intros o. unfold Demo.ingest.
  assert (result (to_tiledb (E := Demo.env) (Demo.cls Demo.reader) "in.tiff" "out"
                            (o true) ∅) = Ok tt) as Hp
    by (vm_compute; reflexivity).
  assert (result (to_tiledb (E := Demo.env) (Demo.cls Demo.reader) "in.tiff" "out"
                            (o false) ∅) = Ok tt) as Hn
    by (vm_compute; reflexivity).
  split; [split; [reflexivity|split; [exact Hp|split; [reflexivity|exact Hn]]]|].
  split.
  - rewrite (to_tiledb_pyramid_sources (E := Demo.env) (Demo.cls Demo.reader)
               "in.tiff" "out" (o true) ∅ (Demo.pyramid true) eq_refl Hp).
    vm_compute. reflexivity.
  - rewrite (to_tiledb_pyramid_sources (E := Demo.env) (Demo.cls Demo.reader)
               "in.tiff" "out" (o false) ∅ (Demo.pyramid false) eq_refl Hn).
    vm_compute. reflexivity.
Defined.

(* --------------------------------------------------------------------- *)
(*  Tiles: the tiles of a domain cover it                                *)
(* --------------------------------------------------------------------- *)

Section Tiling.

(* the index tuple lies in the tile *)
Definition in_tile (idx : list Z) (t : tile) : Prop :=
  Forall2 (fun (i : Z) (s : slice) => fst s <= i < snd s) idx t.

(* the tile lies in an array of the given shape *)
Definition in_bounds (t : tile) (shape : list Z) : Prop :=
  Forall2 (fun (s : slice) (e : Z) => 0 <= fst s <= snd s /\ snd s <= e) t shape.

Lemma elem_of_indices idx t : idx ∈ indices t <-> in_tile idx t.
Proof.
  revert idx. induction t as [|s t IH]; intros idx; simpl.
  - rewrite list_elem_of_singleton. split.
    + intros ->. constructor.
    + by intros ->%Forall2_nil_inv_r.
  - rewrite list_elem_of_bind. split.
    + intros (i & Hidx & Hi). apply elem_of_seqZ in Hi.
      apply list_elem_of_fmap in Hidx as (idx' & -> & Hidx').
      constructor; [lia|]. by apply IH.
    + intros H. apply Forall2_cons_inv_r in H as (i & idx' & Hi & Hidx' & ->).
      exists i. split.
      * apply list_elem_of_fmap. exists idx'. split; [done|]. by apply IH.
      * apply elem_of_seqZ. lia.
Qed.

Lemma ceil_div_bound e t k :
  0 < t -> 0 <= k -> (k < ceil_div e t <-> k * t < e).
Proof.
  intros Ht Hk. unfold ceil_div. split.
  - intros H. assert (k + 1 <= (e + t - 1) / t) as H' by lia.
    pose proof (Z.mul_div_le (e + t - 1) t Ht). nia.
  - intros H. assert (k + 1 <= (e + t - 1) / t); [|lia].
    apply Z.div_le_lower_bound; [done|]. nia.
Qed.

Lemma elem_of_dim_slices e t s :
  0 < t ->
  s ∈ dim_slices e t <->
  exists k, 0 <= k /\ k * t < e /\ s = (k * t, Z.min ((k + 1) * t) e).
Proof.
  intros Ht. unfold dim_slices. rewrite list_elem_of_fmap. split.
  - intros (k & -> & Hk). apply elem_of_seqZ in Hk. exists k.
    split; [lia|]. split; [|done]. apply ceil_div_bound; lia.
  - intros (k & Hk & Hlt & ->). exists k. split; [done|].
    apply elem_of_seqZ. split; [lia|]. rewrite Z.add_0_l.
    apply ceil_div_bound; lia.
Qed.

(* along one dimension every index is in a slice, and the slices stay
   within the extent *)
Lemma dim_slices_cover e t i :
  0 < t -> 0 <= i < e -> exists s, s ∈ dim_slices e t /\ fst s <= i < snd s.
Proof.
  intros Ht Hi. exists (i / t * t, Z.min ((i / t + 1) * t) e).
  pose proof (Z.mul_div_le i t Ht) as H1.
  pose proof (Z.mul_succ_div_gt i t Ht) as H2.
  assert (0 <= i / t) as H3 by (apply Z.div_pos; lia).
  split.
  - apply elem_of_dim_slices; [done|]. exists (i / t). split; [done|].
    split; [nia|done].
  - simpl. split; [nia|]. apply Z.min_glb_lt; nia.
Qed.

Lemma dim_slices_bounds e t s :
  0 < t -> s ∈ dim_slices e t -> 0 <= fst s <= snd s /\ snd s <= e.
Proof.
  intros Ht (k & Hk & Hlt & ->)%elem_of_dim_slices; [|done]. simpl.
  split; [|lia]. split; [nia|]. apply Z.min_glb; nia.
Qed.

Lemma elem_of_product_tiles t ss :
  t ∈ product_tiles ss <-> Forall2 (fun s sl => s ∈ sl) t ss.
Proof.
  revert t. induction ss as [|sl ss IH]; intros t; simpl.
  - rewrite list_elem_of_singleton. split.
    + intros ->. constructor.
    + by intros ->%Forall2_nil_inv_r.
  - rewrite list_elem_of_bind. split.
    + intros (x & Ht & Hx).
      apply list_elem_of_fmap in Ht as (t' & -> & Ht').
      constructor; [done|]. by apply IH.
    + intros H. apply Forall2_cons_inv_r in H as (x & t' & Hx & Ht' & ->).
      exists x. split; [|done].
      apply list_elem_of_fmap. exists t'. split; [done|]. by apply IH.
Qed.

Lemma elem_of_iter_tiles t dom :
  t ∈ iter_tiles dom <->
  Forall2 (fun s d => s ∈ dim_slices (dim_size d) (dim_tile d)) t dom.
Proof.
  unfold iter_tiles. rewrite elem_of_product_tiles, Forall2_fmap_r. done.
Qed.

(* every tile of the domain lies within the array *)
Lemma iter_tiles_in_bounds dom t :
  Forall (fun d => 0 < dim_tile d) dom ->
  t ∈ iter_tiles dom -> in_bounds t (dim_size <$> dom).
Proof.
  intros Hpos Ht. apply elem_of_iter_tiles in Ht.
  unfold in_bounds. rewrite Forall2_fmap_r.
  induction Ht as [|s d t dom Hs _ IH]; [constructor|].
  apply Forall_cons in Hpos as [Hd Hpos].
  constructor; [|by apply IH]. by eapply dim_slices_bounds.
Qed.

(* every index of the array is in a tile of the domain *)
Lemma iter_tiles_cover dom idx :
  Forall (fun d => 0 < dim_tile d) dom ->
  in_tile idx (full_tile (dim_size <$> dom)) ->
  exists t, t ∈ iter_tiles dom /\ in_tile idx t.
Proof.
  intros Hpos. unfold in_tile, full_tile. rewrite !Forall2_fmap_r.
  intros H. induction H as [|i d idx dom Hi _ IH].
  - exists []. split; [|constructor]. apply elem_of_iter_tiles. constructor.
  - apply Forall_cons in Hpos as [Hd Hpos].
    destruct (IH Hpos) as (t & Ht & Hin). simpl in Hi.
    destruct (dim_slices_cover (dim_size d) (dim_tile d) i Hd Hi) as (s & Hs & His).
    exists (s :: t). split; [|by constructor].
    apply elem_of_iter_tiles. constructor; [done|]. by apply elem_of_iter_tiles.
Qed.

(* an index in a tile of the domain is an index of the array *)
Lemma iter_tiles_within dom t idx :
  Forall (fun d => 0 < dim_tile d) dom ->
  t ∈ iter_tiles dom -> in_tile idx t ->
  in_tile idx (full_tile (dim_size <$> dom)).
Proof.
  intros Hpos Ht Hin. apply iter_tiles_in_bounds in Ht; [|done].
  unfold in_tile, in_bounds, full_tile in *. rewrite !Forall2_fmap_r in *.
  revert idx Hin. induction Ht as [|s d t dom Hs _ IH]; intros idx Hin.
  - apply Forall2_nil_inv_r in Hin as ->. constructor.
  - apply Forall2_cons_inv_r in Hin as (i & idx' & Hi & Hin & ->).
    apply Forall_cons in Hpos as [_ Hpos].
    constructor; [unfold compose in *; simpl in *; lia|]. by apply IH.
Qed.

Lemma foldr_insert_lookup (f : list Z -> Z) (cells : gmap (list Z) Z) l idx :
  foldr (fun j c => <[j := f j]> c) cells l !! idx
  = if decide (idx ∈ l) then Some (f idx) else cells !! idx.
Proof.
  induction l as [|j l IH]; cbn [fold_right].
  - rewrite decide_False; [done|]. by intros ?%elem_of_nil.
  - destruct (decide (j = idx)) as [->|Hne].
    + rewrite lookup_insert_eq, decide_True; [done|]. by left.
    + rewrite lookup_insert_ne by done. rewrite IH.
      destruct (decide (idx ∈ l)) as [Hl|Hl].
      * rewrite decide_True; [done|]. by right.
      * rewrite decide_False; [done|].
        intros [?|?]%elem_of_cons; [congruence|done].
Qed.

(* a[t] = image, cell by cell *)
Lemma write_region_lookup cells t image idx :
  write_region cells t image !! idx
  = if decide (idx ∈ indices t)
    then Some (nd_at image (sub_index idx (tile_start t)))
    else cells !! idx.
Proof.
  unfold write_region.
  apply (foldr_insert_lookup (fun j => nd_at image (sub_index j (tile_start t)))).
Qed.

End Tiling.

(* --------------------------------------------------------------------- *)
(*  Axes: the permutation of a mapper and its inverse                    *)
(* --------------------------------------------------------------------- *)

Section AxesPermutation.

(* the invariant of AxesMapper: distinct labels, the same on both sides *)
Definition valid_mapper (m : AxesMapper) : Prop :=
  NoDup (source m) /\ NoDup (target m) /\ forall d, d ∈ source m <-> d ∈ target m.

Lemma valid_inverted m : valid_mapper m -> valid_mapper (inverted m).
Proof. intros (Hs & Ht & Hst). repeat split; simpl; try done; by apply Hst. Qed.

Lemma valid_length m : valid_mapper m -> length (source m) = length (target m).
Proof.
  intros (Hs & Ht & Hst). apply Permutation_length. by apply NoDup_Permutation.
Qed.

Lemma index_of_lookup d (l : Axes) : d ∈ l -> l !! index_of d l = Some d.
Proof.
  intros Hd. unfold index_of.
  destruct (list_find_elem_of (fun x => x = d) l d Hd eq_refl) as [[i x] Hf].
  rewrite Hf. simpl. apply list_find_Some in Hf as (Hi & -> & _). done.
Qed.

Lemma index_of_NoDup (l : Axes) k d : NoDup l -> l !! k = Some d -> index_of d l = k.
Proof.
  intros Hnd Hk. eapply NoDup_lookup; [done| |done].
  apply index_of_lookup. by eapply list_elem_of_lookup_2.
Qed.

Lemma perm_in_range m i :
  valid_mapper m -> i ∈ perm m -> (i < length (source m))%nat.
Proof.
  intros (Hs & Ht & Hst) Hi. unfold perm in Hi.
  apply list_elem_of_fmap in Hi as (d & -> & Hd).
  eapply lookup_lt_Some, index_of_lookup. by apply Hst.
Qed.

Lemma length_permute {A} `{Inhabited A} p (l : list A) : length (permute p l) = length p.
Proof. unfold permute. by rewrite length_fmap. Qed.

Lemma length_perm m : length (perm m) = length (target m).
Proof. unfold perm. by rewrite length_fmap. Qed.

Lemma permute_lookup {A} `{Inhabited A} p (l : list A) k :
  permute p l !! k = (fun i => l !!! i) <$> (p !! k).
Proof. unfold permute. apply list_lookup_fmap. Qed.

Lemma perm_lookup m k :
  perm m !! k = (fun d => index_of d (source m)) <$> (target m !! k).
Proof. unfold perm. apply list_lookup_fmap. Qed.

(* going to the target order and back *)
Lemma permute_inverse {A} `{Inhabited A} m (l : list A) :
  valid_mapper m -> length l = length (target m) ->
  permute (perm m) (permute (perm (inverted m)) l) = l.
Proof.
  intros Hv Hlen. pose proof Hv as (Hs & Ht & Hst).
  apply list_eq. intros k. rewrite permute_lookup, perm_lookup.
  destruct (target m !! k) as [d|] eqn:Hk; simpl.
  - assert (d ∈ source m) as Hd by (apply Hst; by eapply list_elem_of_lookup_2).
    pose proof (index_of_lookup d (source m) Hd) as Hi.
    assert (permute (perm (inverted m)) l !! index_of d (source m)
            = Some (l !!! k)) as HX.
    { rewrite permute_lookup, perm_lookup. simpl. rewrite Hi. simpl.
      by rewrite (index_of_NoDup (target m) k d). }
    rewrite (list_lookup_total_correct _ _ _ HX).
    symmetry. apply list_lookup_lookup_total_lt.
    rewrite Hlen. by eapply lookup_lt_Some.
  - symmetry. apply lookup_ge_None. rewrite Hlen. by apply lookup_ge_None.
Qed.

Lemma permute_fmap {A B} `{Inhabited A, Inhabited B} (f : A -> B) p (l : list A) :
  (forall i, i ∈ p -> (i < length l)%nat) ->
  permute p (f <$> l) = f <$> permute p l.
Proof.
  intros Hp. unfold permute. rewrite <- list_fmap_compose.
  apply Forall_fmap_ext_1, Forall_forall. intros i Hi. simpl.
  apply list_lookup_total_fmap. by apply Hp.
Qed.

Lemma lookup_total_zip_with {A B C} `{Inhabited A, Inhabited B, Inhabited C}
    (f : A -> B -> C) (a : list A) (b : list B) i :
  (i < length a)%nat -> (i < length b)%nat ->
  zip_with f a b !!! i = f (a !!! i) (b !!! i).
Proof.
  intros Ha Hb.
  destruct (lookup_lt_is_Some_2 a i Ha) as [x Hx].
  destruct (lookup_lt_is_Some_2 b i Hb) as [y Hy].
  rewrite (list_lookup_total_correct a i x Hx), (list_lookup_total_correct b i y Hy).
  apply list_lookup_total_correct. rewrite lookup_zip_with, Hx. simpl. by rewrite Hy.
Qed.

Lemma permute_zip_with {A B C} `{Inhabited A, Inhabited B, Inhabited C}
    (f : A -> B -> C) p (a : list A) (b : list B) :
  (forall i, i ∈ p -> (i < length a)%nat) ->
  (forall i, i ∈ p -> (i < length b)%nat) ->
  permute p (zip_with f a b) = zip_with f (permute p a) (permute p b).
Proof.
  intros Ha Hb. unfold permute. rewrite zip_with_fmap_l, zip_with_fmap_r.
  rewrite zip_with_diag. apply Forall_fmap_ext_1, Forall_forall. intros i Hi.
  by apply lookup_total_zip_with; [apply Ha|apply Hb].
Qed.

Lemma permute_Forall2 {A B} `{Inhabited A, Inhabited B} (R : A -> B -> Prop) p
    (a : list A) (b : list B) :
  Forall2 R a b -> (forall i, i ∈ p -> (i < length a)%nat) ->
  Forall2 R (permute p a) (permute p b).
Proof.
  intros HR Hp. unfold permute. apply Forall2_fmap, Forall_Forall2_diag.
  apply Forall_forall. intros i Hi. specialize (Hp i Hi).
  destruct (lookup_lt_is_Some_2 a i Hp) as [x Hx].
  destruct (Forall2_lookup_l _ _ _ _ _ HR Hx) as (y & Hy & Hxy).
  by rewrite (list_lookup_total_correct a i x Hx), (list_lookup_total_correct b i y Hy).
Qed.

Lemma add_sub_index a b :
  length a = length b -> add_index (sub_index a b) b = a.
Proof.
  unfold add_index, sub_index. revert b.
  induction a as [|x a IH]; intros [|y b] Hlen; simpl in *; try done.
  f_equal; [lia|]. apply IH. lia.
Qed.

End AxesPermutation.

(* --------------------------------------------------------------------- *)
(*  Populating a level: tile by tile and in one write                    *)
(* --------------------------------------------------------------------- *)

Section TwoWays.

Context {E : Env}.

(* the image is the region t of the full image *)
Definition is_crop (image full : ndarray) (t : tile) : Prop :=
  nd_shape image = tile_shape t /\
  forall j, in_tile j (full_tile (tile_shape t)) ->
            nd_at image j = nd_at full (add_index j (tile_start t)).

(* the reader gives the image of the level, of the shape it announces, and
   for every tile within that shape the region of that image *)
Definition reads_regions (reader : ImageReader) (level : Z)
    (source_shape : list Z) : Prop :=
  exists full,
    level_image reader level None = Ok full /\
    nd_shape full = source_shape /\
    forall t, in_bounds t source_shape ->
              exists image, level_image reader level (Some t) = Ok image /\
                            is_crop image full t.

Lemma tile_shape_full sh : tile_shape (full_tile sh) = sh.
Proof.
  unfold tile_shape, full_tile. rewrite <- list_fmap_compose.
  rewrite <- (list_fmap_id sh) at 2. apply list_fmap_ext. intros i e _. simpl. lia.
Qed.

Lemma in_tile_length idx t : in_tile idx t -> length idx = length t.
Proof. apply Forall2_length. Qed.

Lemma sub_index_full idx sh :
  in_tile idx (full_tile sh) -> sub_index idx (tile_start (full_tile sh)) = idx.
Proof.
  unfold in_tile, sub_index, tile_start, full_tile.
  rewrite <- list_fmap_compose, Forall2_fmap_r.
  induction 1 as [|i e idx sh _ _ IH]; simpl; [done|]. f_equal; [lia|done].
Qed.

Lemma in_tile_offset idx t :
  in_tile idx t ->
  in_tile (sub_index idx (tile_start t)) (full_tile (tile_shape t)).
Proof.
  unfold in_tile, sub_index, tile_start, full_tile, tile_shape.
  induction 1 as [|i s idx t Hi _ IH]; simpl; constructor; [simpl; lia|done].
Qed.

Section OneLevel.

Variables (reader : ImageReader) (level : Z) (uri : string) (am : AxesMapper)
          (a : ArraySchema) (source_shape : list Z) (full : ndarray).
Hypothesis Hvalid : valid_mapper am.
Hypothesis Hlen : length source_shape = length (source am).
Hypothesis Hshape : shape a = map_shape am source_shape.
Hypothesis Htiles : Forall (fun d => 0 < dim_tile d) (domain a).
Hypothesis Hfull : level_image reader level None = Ok full.
Hypothesis Hfull_shape : nd_shape full = source_shape.
Hypothesis Hcrop :
  forall t, in_bounds t source_shape ->
            exists image, level_image reader level (Some t) = Ok image /\
                          is_crop image full t.

Lemma rank_target : length (shape a) = length (target am).
Proof. rewrite Hshape. unfold map_shape. by rewrite length_permute, length_perm. Qed.

Lemma inverse_in_range {A} (l : list A) i :
  length l = length (target am) -> i ∈ perm (inverted am) -> (i < length l)%nat.
Proof.
  intros Hl Hi. apply perm_in_range in Hi; [|by apply valid_inverted].
  simpl in Hi. lia.
Qed.

Lemma forward_in_range {A} (l : list A) i :
  length l = length (source am) -> i ∈ perm am -> (i < length l)%nat.
Proof. intros Hl Hi. apply perm_in_range in Hi; [|done]. lia. Qed.

(* what a tile brings: the region of the transposed full image *)
Lemma tile_good t :
  t ∈ iter_tiles (domain a) ->
  exists image,
    level_image reader level (Some (map_tile (inverted am) t)) = Ok image /\
    nd_shape (map_array am image) = tile_shape t /\
    forall idx, idx ∈ indices t ->
      nd_at (map_array am image) (sub_index idx (tile_start t))
      = nd_at (map_array am full) idx.
Proof.
  intros Ht. pose proof (iter_tiles_in_bounds _ _ Htiles Ht) as Hb.
  fold (shape a) in Hb.
  assert (length t = length (target am)) as Hlt.
  { rewrite <- rank_target. by apply Forall2_length in Hb. }
  assert (in_bounds (map_tile (inverted am) t) source_shape) as Hsb.
  { unfold in_bounds, map_tile.
    replace source_shape with (permute (perm (inverted am)) (shape a)).
    - apply permute_Forall2; [done|]. intros i. by apply inverse_in_range.
    - rewrite Hshape. unfold map_shape.
      apply (permute_inverse (inverted am)); [by apply valid_inverted|done]. }
  destruct (Hcrop _ Hsb) as (image & Himage & Hs & Hat).
  exists image. split; [done|]. split.
  - simpl. unfold map_shape. rewrite Hs. unfold map_tile, tile_shape.
    rewrite <- (permute_fmap _ (perm (inverted am)) t)
      by (intros i; by apply inverse_in_range).
    apply permute_inverse; [done|]. by rewrite length_fmap.
  - intros idx Hidx%elem_of_indices. simpl.
    pose proof (in_tile_length _ _ Hidx) as Hli.
    rewrite Hat.
    + f_equal. unfold map_tile, tile_start, sub_index.
      rewrite <- (permute_fmap fst (perm (inverted am)) t)
        by (intros i; by apply inverse_in_range).
      rewrite permute_zip_with;
        [|intros i; apply inverse_in_range; congruence
         |intros i; apply inverse_in_range; by rewrite length_fmap].
      apply add_sub_index. by rewrite !length_permute.
    + unfold map_tile, tile_shape, full_tile.
      rewrite <- (permute_fmap _ (perm (inverted am)) t)
        by (intros i; by apply inverse_in_range).
      rewrite <- (permute_fmap (fun e : Z => (0, e)) (perm (inverted am)))
        by (intros i; apply inverse_in_range; by rewrite length_fmap).
      apply permute_Forall2; [by apply in_tile_offset|].
      intros i. apply inverse_in_range.
      unfold sub_index, tile_start. rewrite length_zip_with, length_fmap.
      rewrite Hli, Nat.min_id. exact Hlt.
Qed.

(* the tiles ts, in any order *)
Lemma tile_loop_chunked ts :
  forall m c st,
    (forall t, t ∈ ts -> t ∈ iter_tiles (domain a)) ->
    st !! uri = Some (Array a m c) ->
    exists c',
      result (for_each_ ts (tile_to_tiledb reader level uri am (inverted am)) st)
      = Ok tt /\
      final (for_each_ ts (tile_to_tiledb reader level uri am (inverted am)) st)
      = <[uri := Array a m c']> st /\
      forall idx,
        c' !! idx = if decide (Exists (fun t => idx ∈ indices t) ts)
                    then Some (nd_at (map_array am full) idx)
                    else c !! idx.
Proof.
  induction ts as [|t ts IH]; intros m c st Hts Hst.
  - exists c. split; [done|]. split.
    + simpl. by rewrite insert_id.
    + intros idx. rewrite decide_False; [done|]. by intros ?%Exists_nil.
  - destruct (tile_good t) as (image & Himage & Hs & Hat); [apply Hts; by left|].
    assert (tile_to_tiledb reader level uri am (inverted am) t st
            = mkOutcome (Ok tt)
                (<[uri := Array a m (write_region c t (map_array am image))]> st)
                [ELevelImage level (Some (map_tile (inverted am) t));
                 EWriteTile uri t]) as Hstep.
    { unfold tile_to_tiledb.
      rewrite (bind_step (emit _) _ st tt eq_refl). cbn [result final trace emit].
      rewrite Himage, (bind_step (lift _) _ st image eq_refl).
      cbn [result final trace lift].
      rewrite (bind_step (array_write _ _ _) _ st tt);
        rewrite (array_write_eq _ _ _ _ _ _ _ Hst Hs); [|done].
      cbn [result final trace emit]. done. }
    cbn [for_each_]. rewrite (bind_step _ _ st tt) by (by rewrite Hstep).
    rewrite Hstep. cbn [result final trace].
    destruct (IH m (write_region c t (map_array am image))
                 (<[uri := Array a m (write_region c t (map_array am image))]> st))
      as (c' & Hr & Hf & Hc').
    { intros t' Ht'. apply Hts. by right. }
    { by rewrite lookup_insert_eq. }
    exists c'. split; [done|]. split.
    + rewrite Hf. by rewrite insert_insert_eq.
    + intros idx. rewrite Hc'. rewrite write_region_lookup.
      destruct (decide (Exists (fun t0 => idx ∈ indices t0) ts)) as [Hex|Hex].
      * rewrite decide_True; [done|]. by right.
      * destruct (decide (idx ∈ indices t)) as [Hin|Hin].
        -- rewrite decide_True by (by left). f_equal. by apply Hat.
        -- rewrite decide_False; [done|].
           intros [?|?]%Exists_cons; done.
Qed.

(* the two ways of populating the array leave the same store *)
Lemma write_level_modes mw m c st :
  0 <= mw ->
  (mw <> 0 -> forall ts, schedule ts ≡ₚ ts) ->
  st !! uri = Some (Array a m c) ->
  result (write_level reader level uri am true mw st)
  = result (write_level reader level uri am false 0 st) /\
  final (write_level reader level uri am true mw st)
  = final (write_level reader level uri am false 0 st).
Proof.
  intros Hmw Hsched Hst. unfold write_level.
  rewrite !(bind_step (open_array uri) _ st a) by (by rewrite (open_array_eq _ _ _ _ _ Hst)).
  rewrite (open_array_eq _ _ _ _ _ Hst). cbn [result final trace].
  destruct (level_metadata reader level) as [md|e] eqn:Hmd;
    [rewrite !(bind_step (lift _) _ st md eq_refl)
    |by rewrite !(bind_Raise (lift _) _ st e eq_refl)].
  cbn [result final trace lift].
  set (md' := <["level" := MInt level]> md).
  rewrite !(bind_step (array_meta_update uri md') _ st tt)
    by (by rewrite (array_meta_update_eq _ _ _ _ _ _ Hst)).
  rewrite (array_meta_update_eq _ _ _ _ _ _ Hst). cbn [result final trace].
  set (st1 := <[uri := Array a (md' ∪ m) c]> st).
  assert (st1 !! uri = Some (Array a (md' ∪ m) c)) as Hst1
    by (by unfold st1; rewrite lookup_insert_eq).
  (* the whole-image write *)
  cbn [orb negb Z.eqb].
  rewrite (bind_step (emit _) _ st1 tt eq_refl). cbn [result final trace emit].
  rewrite Hfull, (bind_step (lift _) _ st1 full eq_refl).
  cbn [result final trace lift].
  assert (nd_shape (map_array am full) = tile_shape (full_tile (shape a))) as Hws.
  { rewrite tile_shape_full, Hshape. simpl. by rewrite Hfull_shape. }
  rewrite (bind_step (array_write _ _ _) _ st1 tt)
    by (by rewrite (array_write_eq _ _ _ _ _ _ _ Hst1 Hws)).
  rewrite (array_write_eq _ _ _ _ _ _ _ Hst1 Hws). cbn [result final trace emit].
  (* the tiles *)
  set (ts := (if negb (mw =? 0) then schedule else id) (iter_tiles (domain a))).
  assert (ts ≡ₚ iter_tiles (domain a)) as Hperm.
  { unfold ts. destruct (Z.eqb_spec mw 0) as [->|Hne]; simpl; [done|]. by apply Hsched. }
  destruct (tile_loop_chunked ts (md' ∪ m) c st1) as (c' & Hr & Hf & Hc'); [|done|].
  { intros t Ht. by rewrite <- Hperm. }
  assert (result ((if negb (mw =? 0) then ThreadPoolExecutor mw else ret tt) st1) = Ok tt
          /\ final ((if negb (mw =? 0) then ThreadPoolExecutor mw else ret tt) st1) = st1)
    as [Hp1 Hp2].
  { destruct (Z.eqb_spec mw 0) as [->|Hne]; simpl; [done|].
    unfold ThreadPoolExecutor. by destruct (Z.leb_spec mw 0); [lia|]. }
  rewrite (bind_step _ _ st1 tt Hp1), Hp2. cbn [result final trace].
  fold ts. rewrite (bind_step _ _ st1 tt Hr), Hf. cbn [result final trace].
  assert (c' = write_region c (full_tile (shape a)) (map_array am full)) as ->.
  { apply map_eq. intros idx. rewrite Hc', write_region_lookup.
    destruct (decide (idx ∈ indices (full_tile (shape a)))) as [Hin|Hin].
    - apply elem_of_indices in Hin.
      rewrite decide_True.
      + by rewrite sub_index_full.
      + destruct (iter_tiles_cover (domain a) idx Htiles Hin) as (t & Ht & Hit).
        apply Exists_exists. exists t. split; [by rewrite Hperm|].
        by apply elem_of_indices.
    - rewrite decide_False; [done|].
      intros (t & Ht & Hit)%Exists_exists. apply Hin, elem_of_indices.
      eapply iter_tiles_within; [done| |by apply elem_of_indices].
      by rewrite <- Hperm. }
  by destruct (negb (mw =? 0)).
Qed.

End OneLevel.

End TwoWays.

(* --------------------------------------------------------------------- *)
(*  Chunked and whole-image ingestion                                    *)
(* --------------------------------------------------------------------- *)

Section Modes.

Context {E : Env}.

(* the same keyword arguments with another chunked and max_workers *)
Definition with_mode (o : Options) (chunked : bool) (max_workers : Z) : Options :=
  mkOptions (level_min o) (tiles o) (preserve_axes o) chunked max_workers
            (compressor o) (pyramid_kwargs o).

(* a reader whose axes are distinct and which, for every level of the
   range, announces a shape of positive extents, one per axis, and reads
   the regions of the image of that shape *)
Definition regular (reader : ImageReader) (o : Options) : Prop :=
  NoDup (axes reader) /\
  forall level sh,
    level ∈ range (level_min o) (level_max reader o) ->
    level_shape reader level = Ok sh ->
    length sh = length (axes reader) /\ Forall (fun e => 0 < e) sh /\
    reads_regions reader level sh.

Definition positive_bound (b : tile_bound) : Prop :=
  match b with
  | Fin t => 0 < t
  | Inf => True
  end.

Lemma max_tiles_positive tiles n b :
  map_Forall (fun _ v => 0 < v) tiles ->
  max_tiles_of tiles 1 !! n = Some b -> positive_bound b.
Proof.
  intros Hpos Hb. unfold max_tiles_of in Hb.
  assert (exists b', ((Fin <$> tiles) ∪ _DEFAULT_TILES) !! n = Some b'
                     /\ (positive_bound b' -> positive_bound b)) as (b' & Hu & Himp).
  { destruct (decide (n = "X")) as [->|Hne].
    - rewrite lookup_alter_eq in Hb.
      destruct (((Fin <$> tiles) ∪ _DEFAULT_TILES) !! "X") as [b'|]; [|done].
      exists b'. split; [done|]. injection Hb as <-.
      destruct b'; simpl; [lia|done].
    - rewrite lookup_alter_ne in Hb by done. by exists b. }
  apply Himp. rewrite lookup_union, lookup_fmap in Hu.
  destruct (tiles !! n) as [t|] eqn:Ht; simpl in Hu.
  - assert (b' = Fin t) as -> by (destruct (_DEFAULT_TILES !! n); by injection Hu).
    by apply (Hpos n t).
  - destruct (_DEFAULT_TILES !! n) as [b0|] eqn:Hd; simpl in Hu; [|done].
    injection Hu as ->. unfold _DEFAULT_TILES in Hd.
    repeat (rewrite lookup_insert in Hd; case_decide; subst;
            [injection Hd as <-; simpl; done|]).
    by rewrite lookup_empty in Hd.
Qed.

Lemma canonical_NoDup axes sh : NoDup (canonical axes sh).
Proof.
  unfold canonical. apply NoDup_filter.
  apply (bool_decide_unpack (NoDup ["T"; "C"; "Z"; "Y"; "X"])). by vm_compute.
Qed.

Lemma new_mapper_valid src tgt am :
  NoDup src -> NoDup tgt -> new_mapper src tgt = Ok am ->
  valid_mapper am /\ source am = src /\ target am = tgt.
Proof.
  intros Hs Ht. unfold new_mapper. case_decide as Heq; [|done].
  intros [= <-]. split; [|done]. split; [done|]. split; [done|].
  intros d. simpl.
  rewrite <- (elem_of_list_to_set (C := gset string) d src), Heq.
  apply elem_of_list_to_set.
Qed.

Lemma permute_positive p (sh : list Z) :
  Forall (fun e => 0 < e) sh -> (forall i, i ∈ p -> (i < length sh)%nat) ->
  Forall (fun e => 0 < e) (permute p sh).
Proof.
  intros Hpos Hp. unfold permute. apply Forall_fmap, Forall_forall.
  intros i Hi. simpl. specialize (Hp i Hi).
  destruct (lookup_lt_is_Some_2 sh i Hp) as [e He].
  rewrite (list_lookup_total_correct sh i e He).
  rewrite Forall_forall in Hpos. apply Hpos. by eapply list_elem_of_lookup_2.
Qed.

Lemma get_schema_tiles_positive names sh mt adt c schema :
  Forall (fun e => 0 < e) sh ->
  (forall n b, mt !! n = Some b -> positive_bound b) ->
  _get_schema names sh mt adt c = Ok schema ->
  Forall (fun d => 0 < dim_tile d) (domain schema).
Proof.
  intros Hpos Hmt Hs. pose proof (get_schema_ok _ _ _ _ _ _ Hs) as (Hlen & _ & H).
  assert (Forall (fun nd : string * Z => 0 < snd nd) (zip names sh)) as Hz.
  { apply Forall_forall. intros [n e] Hin. simpl.
    rewrite Forall_forall in Hpos. apply Hpos.
    apply list_elem_of_lookup in Hin as (i & Hi).
    apply lookup_zip_with_Some in Hi as (x & y & Heq & _ & Hy).
    injection Heq as -> ->. by eapply list_elem_of_lookup_2. }
  induction H as [|[n e] d nds ds (_ & _ & _ & b & Hb & Ht) _ IH]; [constructor|].
  apply Forall_cons in Hz as [He Hz]. constructor; [|by apply IH].
  rewrite Ht. simpl in *. specialize (Hmt n b Hb).
  destruct b as [t|]; simpl in *; [|done]. rewrite py_min_Zmin. lia.
Qed.

Lemma bind_modes {A B} (m1 m2 : M A) (k1 k2 : A -> M B) st :
  result (m1 st) = result (m2 st) -> final (m1 st) = final (m2 st) ->
  (forall a st', result (k1 a st') = result (k2 a st') /\
                 final (k1 a st') = final (k2 a st')) ->
  result (bind m1 k1 st) = result (bind m2 k2 st) /\
  final (bind m1 k1 st) = final (bind m2 k2 st).
Proof.
  intros Hr Hf Hk. unfold bind. rewrite <- Hr, <- Hf.
  destruct (result (m1 st)) as [a|e]; simpl; [|done]. apply Hk.
Qed.

(* but for the whole-image mode, every mode takes the tile path *)
Lemma write_level_tiles reader level uri am c mw :
  ~ (c = false /\ mw = 0) ->
  write_level reader level uri am c mw = write_level reader level uri am true mw.
Proof.
  intros Hc. unfold write_level. destruct c; [done|].
  destruct (Z.eqb_spec mw 0) as [->|Hne]; [by destruct Hc|done].
Qed.

(* one iteration of the level loop in any mode and in the whole-image mode *)
Lemma convert_level_modes reader out o pd mt c mw level s st :
  0 <= mw ->
  (mw <> 0 -> forall ts, schedule ts ≡ₚ ts) ->
  NoDup (axes reader) ->
  (forall sh, level_shape reader level = Ok sh ->
              length sh = length (axes reader) /\ Forall (fun e => 0 < e) sh /\
              reads_regions reader level sh) ->
  (pd = 1 -> forall n b, mt !! n = Some b -> positive_bound b) ->
  result (convert_level reader out (with_mode o c mw) pd mt level s st)
  = result (convert_level reader out (with_mode o false 0) pd mt level s st) /\
  final (convert_level reader out (with_mode o c mw) pd mt level s st)
  = final (convert_level reader out (with_mode o false 0) pd mt level s st).
Proof.
  intros Hmw Hsched Hnd Hlevel Hmt.
  destruct (decide (c = false /\ mw = 0)) as [[-> ->]|Hc]; [done|].
  destruct (is_array (st !! level_uri out level)) eqn:Harr.
  { by rewrite !convert_level_skip. }
  unfold convert_level. cbn [with_mode preserve_axes compressor chunked max_workers].
  set (uri := level_uri out level).
  rewrite !(bind_step (object_type uri) _ st _ eq_refl).
  cbn [result final trace object_type].
  rewrite !decide_False by (by fold uri in Harr; destruct (st !! uri) as [[]|]).
  destruct (level_shape reader level) as [sh|e] eqn:Hsh;
    [rewrite !(bind_step (lift _) _ st sh eq_refl)
    |by rewrite !(bind_Raise (lift _) _ st e eq_refl)].
  cbn [result final trace lift].
  case_decide as Hpd; [|done]. specialize (Hmt Hpd).
  set (tgt := if preserve_axes o then axes reader else canonical (axes reader) sh).
  assert (NoDup tgt) as Htgt.
  { unfold tgt. destruct (preserve_axes o); [done|apply canonical_NoDup]. }
  destruct (new_mapper (axes reader) tgt) as [am|e] eqn:Ham;
    [rewrite !(bind_step (lift _) _ st am eq_refl)
    |by rewrite !(bind_Raise (lift _) _ st e eq_refl)].
  cbn [result final trace lift].
  destruct (level_dtype reader level) as [adt|e] eqn:Hadt;
    [rewrite !(bind_step (lift _) _ st adt eq_refl)
    |by rewrite !(bind_Raise (lift _) _ st e eq_refl)].
  cbn [result final trace lift].
  destruct (_get_schema tgt (map_shape am sh) mt adt (compressor o))
    as [schema|e] eqn:Hschema;
    [rewrite !(bind_step (lift _) _ st schema eq_refl)
    |by rewrite !(bind_Raise (lift _) _ st e eq_refl)].
  cbn [result final trace lift].
  destruct (result (Array_create uri schema st)) as [[]|e] eqn:Hcreate;
    [rewrite !(bind_step _ _ _ _ Hcreate)|by rewrite !(bind_Raise _ _ _ _ Hcreate)].
  apply Array_create_Ok in Hcreate as (Hnone & -> & _).
  cbn [result final trace].
  destruct (Hlevel sh eq_refl) as (Hlen & Hpos & full & Hfull & Hfs & Hcrop).
  destruct (new_mapper_valid _ _ _ Hnd Htgt Ham) as (Hvalid & Hsrc & Htg).
  rewrite (write_level_tiles reader level uri am c mw Hc).
  apply bind_modes; [..|done].
  all: eapply (write_level_modes reader level uri am schema sh full); try done.
  all: try (by rewrite Hsrc).
  all: try (by rewrite lookup_insert_eq).
  all: try (by apply get_schema_shape in Hschema as [-> _]).
  all: eapply get_schema_tiles_positive; [|done|done].
  all: apply permute_positive; [done|].
  all: intros i Hi; apply perm_in_range in Hi; [|done]; rewrite Hsrc in Hi; lia.
Qed.

Lemma convert_levels_modes reader out o pd mt c mw l :
  0 <= mw ->
  (mw <> 0 -> forall ts, schedule ts ≡ₚ ts) ->
  NoDup (axes reader) ->
  (forall level sh, level ∈ l -> level_shape reader level = Ok sh ->
              length sh = length (axes reader) /\ Forall (fun e => 0 < e) sh /\
              reads_regions reader level sh) ->
  (pd = 1 -> forall n b, mt !! n = Some b -> positive_bound b) ->
  forall s st,
    result (for_each l (convert_level reader out (with_mode o c mw) pd mt) s st)
    = result (for_each l (convert_level reader out (with_mode o false 0) pd mt) s st) /\
    final (for_each l (convert_level reader out (with_mode o c mw) pd mt) s st)
    = final (for_each l (convert_level reader out (with_mode o false 0) pd mt) s st).
Proof.
  intros Hmw Hsched Hnd Hlevel Hmt.
  induction l as [|level l IH]; intros s st; cbn [for_each]; [done|].
  apply bind_modes.
  - apply convert_level_modes; try done. intros sh. apply Hlevel. by left.
  - apply convert_level_modes; try done. intros sh. apply Hlevel. by left.
  - intros s' st'. apply IH. intros lv sh Hlv. apply Hlevel. by right.
Qed.

Lemma before_levels_mode reader out o c mw :
  before_levels reader out (with_mode o c mw) = before_levels reader out o.
Proof. reflexivity. Qed.

Lemma level_max_mode reader o c mw :
  level_max reader (with_mode o c mw) = level_max reader o.
Proof. reflexivity. Qed.

Lemma after_levels_mode reader out o c mw mt s :
  after_levels reader out (with_mode o c mw) mt s = after_levels reader out o mt s.
Proof. reflexivity. Qed.

(* a run in any mode and the run in the whole-image mode *)
Lemma to_tiledb_modes cls inp out o c mw st :
  0 <= mw ->
  (forall ts, schedule ts ≡ₚ ts) ->
  map_Forall (fun _ v => 0 < v) (tiles o) ->
  (forall rt, _ImageReaderType cls = Some rt -> regular (rt inp) o) ->
  result (to_tiledb cls inp out (with_mode o c mw) st)
  = result (to_tiledb cls inp out (with_mode o false 0) st) /\
  final (to_tiledb cls inp out (with_mode o c mw) st)
  = final (to_tiledb cls inp out (with_mode o false 0) st).
Proof.
  intros Hmw Hsched Hpos Hreg. unfold to_tiledb.
  destruct (_ImageReaderType cls) as [rt|] eqn:Hrt; [|done].
  destruct (Hreg rt eq_refl) as [Hnd Hlv].
  cbn [with_mode compressor tiles level_min].
  rewrite (before_levels_mode _ _ o c mw), (before_levels_mode _ _ o false 0).
  rewrite (level_max_mode _ o c mw), (level_max_mode _ o false 0).
  apply bind_modes; [done|done|]. intros [] st1.
  set (pd := get_pixel_depth (compressor o)).
  set (mt := max_tiles_of (tiles o) pd).
  destruct (convert_levels_modes (rt inp) out o pd mt c mw
              (range (level_min o) (level_max (rt inp) o)) Hmw
              (fun _ => Hsched) Hnd Hlv) with (s := mkLocals [] [] None None)
                                              (st := st1) as [Hr Hf].
  { intros Hpd n b. unfold mt. rewrite Hpd. by apply max_tiles_positive. }
  refine (bind_modes _ _ _ _ _ Hr Hf _).
  intros s st2.
  rewrite (after_levels_mode _ _ o c mw), (after_levels_mode _ _ o false 0).
  split; reflexivity.
Qed.

End Modes.

(** C7 (as amended). For a reader with distinct axes that, for every
    level of the requested range, announces a shape of positive extents,
    one per axis, returns the whole image of that shape and, for every
    tile within it, exactly the region of that image, and for positive
    requested tiles: the runs of to_tiledb in any two modes (chunked or
    not, any max_workers >= 0, the pool running the tiles in any order)
    have the same result and leave the same store. In particular
    chunked=True (tile-by-tile writes through the inverse axis mapping)
    and chunked=False with max_workers=0 (one write of the reordered
    image) leave every cell of every converted level equal. *)
Theorem to_tiledb_chunked_whole `{E : Env} cls inp out o c1 mw1 c2 mw2 st :
  0 <= mw1 -> 0 <= mw2 ->
  (forall ts, schedule ts ≡ₚ ts) ->
  map_Forall (fun _ v => 0 < v) (tiles o) ->
  (forall rt, _ImageReaderType cls = Some rt -> regular (rt inp) o) ->
  result (to_tiledb cls inp out (with_mode o c1 mw1) st)
  = result (to_tiledb cls inp out (with_mode o c2 mw2) st) /\
  final (to_tiledb cls inp out (with_mode o c1 mw1) st)
  = final (to_tiledb cls inp out (with_mode o c2 mw2) st).
Proof.
  intros H1 H2 Hsched Hpos Hreg.
  destruct (to_tiledb_modes cls inp out o c1 mw1 st H1 Hsched Hpos Hreg) as [Hr1 Hf1].
  destruct (to_tiledb_modes cls inp out o c2 mw2 st H2 Hsched Hpos Hreg) as [Hr2 Hf2].
  split; congruence.
Qed.

(* the demo image with a requested tile of 2 along X, ingested tile by tile
   through a pool of two workers, which runs the tiles in reverse order,
   and as a whole *)
Lemma to_tiledb_chunked_whole_witness :
  let o := mkOptions 0 (<["X" := 2]> ∅) false false 0 (ZstdFilter 0) None in
  let run := fun c mw =>
               to_tiledb (E := Demo.env) (Demo.cls Demo.reader) "in.tiff" "out"
                         (with_mode o c mw) ∅ in
  (0 <= 2 /\ 0 <= 0 /\
   (forall ts, schedule (Env := Demo.env) ts ≡ₚ ts) /\
   map_Forall (fun _ v => 0 < v) (tiles o) /\
   regular Demo.reader o) /\
  result (run true 2) = result (run false 0) /\
  final (run true 2) = final (run false 0).
Proof.
  intros o run. subst run. cbv beta.
  assert (forall ts : list tile, schedule (Env := Demo.env) ts ≡ₚ ts) as Hsched
    by (intros ts; apply reverse_Permutation).
  assert (map_Forall (fun (_ : string) v => 0 < v) (tiles o)) as Hpos.
  { intros k v Hk. subst o. cbn [tiles] in Hk.
    apply lookup_insert_Some in Hk as [[_ <-]|[_ Hk]]; [lia|].
    by rewrite lookup_empty in Hk. }
  assert (regular Demo.reader o) as Hreg.
  { split.
    - apply (bool_decide_unpack (NoDup ["Y"; "X"; "C"])). by vm_compute.
    - intros level sh _ [= <-]. unfold Demo.shape_of.
      split; [by destruct (level =? 0)|].
      split; [destruct (level =? 0); by repeat constructor|].
      exists (Demo.image_of (if level =? 0 then [4; 3; 2] else [2; 2; 2])).
      split; [reflexivity|]. split; [reflexivity|].
      intros t _. eexists. split; [reflexivity|].
      split; [reflexivity|]. intros j _. reflexivity. }
  split; [split; [lia|split; [lia|split; [exact Hsched|split; [exact Hpos|exact Hreg]]]]|].
  apply (to_tiledb_chunked_whole (E := Demo.env) (Demo.cls Demo.reader) "in.tiff"
           "out" o true 2 false 0 ∅); [lia|lia|exact Hsched|exact Hpos|].
  intros rt Hrt. injection Hrt as <-. exact Hreg.
Defined.

(* a reader whose tile reads are not the regions of its whole-level reads:
   both runs return, and the first cell of level 0 differs *)
Lemma to_tiledb_chunked_whole_counterexample :
  let run := fun c =>
               to_tiledb (E := Demo.env) (Demo.cls Demo.reader_resampling)
                         "in.tiff" "out" (with_mode Demo.defaults c 0) ∅ in
  result (run true) = Ok tt /\ result (run false) = Ok tt /\
  Demo.cells_at (final (run true)) "out/l_0.tdb" ≫= (.!! [0; 0; 0]) = Some 0 /\
  Demo.cells_at (final (run false)) "out/l_0.tdb" ≫= (.!! [0; 0; 0]) = Some 1000.
Proof. vm_compute. repeat split. Qed.

(* ===================================================================== *)
(*  Further properties of the schema policy                              *)
(* ===================================================================== *)

Section SchemaFacts.

(* the first of the names that max_tiles does not hold *)
Definition first_missing (max_tiles : gmap string tile_bound)
    (names : list string) : option string :=
  head (filter (fun n => max_tiles !! n = None) names).

(* the labels that have a default tile *)
Definition default_names : list string := ["T"; "C"; "Z"; "Y"; "X"].

Lemma rmap_make_dim_total max_tiles dt nds :
  Forall (fun nd : string * Z => is_Some (max_tiles !! fst nd)) nds ->
  exists dims, rmap (make_dim max_tiles dt) nds = Ok dims.
Proof.
  induction 1 as [|[n e] nds [b Hb] _ [dims IH]]; simpl; [by eexists|].
  simpl in Hb. rewrite Hb. simpl. rewrite IH. simpl. by eexists.
Qed.

Lemma rmap_make_dim_first max_tiles dt names shape n :
  length names = length shape ->
  first_missing max_tiles names = Some n ->
  rmap (make_dim max_tiles dt) (zip names shape) = Raise (KeyError n).
Proof.
  unfold first_missing. revert shape.
  induction names as [|x names IH]; intros [|e shape] Hlen; try done.
  rewrite filter_cons. simpl.
  destruct (decide (max_tiles !! x = None)) as [Hx|Hx].
  - intros [= <-]. by rewrite Hx.
  - intros H. destruct (max_tiles !! x) as [b|]; [|done]. simpl.
    rewrite (IH shape); [done|by injection Hlen|done].
Qed.

Lemma first_missing_None max_tiles names :
  first_missing max_tiles names = None <->
  Forall (fun n => is_Some (max_tiles !! n)) names.
Proof.
  unfold first_missing. induction names as [|x names IH]; [done|].
  rewrite filter_cons, Forall_cons.
  destruct (decide (max_tiles !! x = None)) as [Hx|Hx]; simpl.
  - split; [done|]. intros [[b Hb] _]. congruence.
  - rewrite IH. split; [|tauto]. intros H. split; [|done].
    by destruct (max_tiles !! x); [eexists|].
Qed.

Lemma max_tiles_of_is_Some tiles pd n :
  is_Some (max_tiles_of tiles pd !! n) <-> n ∈ default_names \/ is_Some (tiles !! n).
Proof.
  unfold max_tiles_of.
  assert (is_Some (((Fin <$> tiles) ∪ _DEFAULT_TILES) !! n)
          <-> n ∈ default_names \/ is_Some (tiles !! n)) as Hu.
  { rewrite lookup_union_is_Some, lookup_fmap, fmap_is_Some.
    assert (is_Some (_DEFAULT_TILES !! n) <-> n ∈ default_names) as ->; [|tauto].
    unfold _DEFAULT_TILES, default_names.
    rewrite !lookup_insert_is_Some', lookup_empty, !elem_of_cons, elem_of_nil.
    rewrite <- not_eq_None_Some. intuition congruence. }
  rewrite <- Hu. destruct (decide (n = "X")) as [->|Hne].
  - rewrite lookup_alter_eq. by rewrite fmap_is_Some.
  - by rewrite lookup_alter_ne.
Qed.

Lemma max_tiles_of_positive tiles pd n b :
  0 < pd -> map_Forall (fun _ v => 0 < v) tiles ->
  max_tiles_of tiles pd !! n = Some b ->
  match b with Fin t => 0 < t | Inf => True end.
Proof.
  intros Hpd Hpos Hb. unfold max_tiles_of in Hb.
  assert (exists b', ((Fin <$> tiles) ∪ _DEFAULT_TILES) !! n = Some b'
                     /\ (match b' with Fin t => 0 < t | Inf => True end ->
                         match b with Fin t => 0 < t | Inf => True end))
    as (b' & Hu & Himp).
  { destruct (decide (n = "X")) as [->|Hne].
    - rewrite lookup_alter_eq in Hb.
      destruct (((Fin <$> tiles) ∪ _DEFAULT_TILES) !! "X") as [b'|]; [|done].
      exists b'. split; [done|]. injection Hb as <-.
      destruct b'; simpl; [lia|done].
    - rewrite lookup_alter_ne in Hb by done. by exists b. }
  apply Himp. rewrite lookup_union, lookup_fmap in Hu.
  destruct (tiles !! n) as [t|] eqn:Ht; simpl in Hu.
  - assert (b' = Fin t) as -> by (destruct (_DEFAULT_TILES !! n); by injection Hu).
    by apply (Hpos n t).
  - destruct (_DEFAULT_TILES !! n) as [b0|] eqn:Hd; simpl in Hu; [|done].
    injection Hu as ->. unfold _DEFAULT_TILES in Hd.
    repeat (rewrite lookup_insert in Hd; case_decide; subst;
            [injection Hd as <-; simpl; done|]).
    by rewrite lookup_empty in Hd.
Qed.

Lemma get_schema_outcome names shape max_tiles adt c :
  match _get_schema names shape max_tiles adt c with
  | Ok _ => length names = length shape /\ first_missing max_tiles names = None
  | Raise e =>
      (length names <> length shape /\ e = AssertionError) \/
      (length names = length shape /\
       exists n, first_missing max_tiles names = Some n /\ e = KeyError n)
  end.
Proof.
  unfold _get_schema. case_decide as Hlen; [|by left].
  destruct (first_missing max_tiles names) as [n|] eqn:Hm.
  - rewrite (rmap_make_dim_first _ _ _ _ n Hlen Hm). simpl. right. eauto.
  - apply first_missing_None in Hm.
    destruct (rmap_make_dim_total max_tiles (index_dtype shape) (zip names shape))
      as [dims ->]; [|done].
    apply Forall_forall. intros [n e] Hin. simpl.
    rewrite Forall_forall in Hm. apply Hm.
    apply list_elem_of_lookup in Hin as (i & Hi).
    apply lookup_zip_with_Some in Hi as (x & y & Heq & Hx & _).
    injection Heq as -> ->. by eapply list_elem_of_lookup_2.
Qed.

End SchemaFacts.

(** X1. The schema that _get_schema returns gives back its arguments: its
    shape is dim_shape, its dimensions carry dim_names in order, every
    dimension starts at 0 and has the one index dtype computed from the
    whole shape, and the single attribute is anonymous, of the dtype of
    the image, with the compressor as its only filter. *)
Theorem get_schema_round_trip names shape max_tiles adt c schema :
  _get_schema names shape max_tiles adt c = Ok schema ->
  Schema.shape schema = shape /\
  dim_name <$> domain schema = names /\
  Forall (fun d => fst (dim_domain d) = 0 /\ dim_dtype d = index_dtype shape)
         (domain schema) /\
  attrs schema = [mkAttr "" adt [c]].
Proof.
  intros H. destruct (get_schema_shape _ _ _ _ _ _ H) as [Hs Hn].
  apply get_schema_ok in H as (_ & Ha & H).
  repeat split; try done. clear Hs Hn Ha.
  induction H as [|nd d nds ds (_ & Hd & Ht & _) _ IH]; [constructor|].
  constructor; [|done]. by rewrite Hd.
Qed.

Lemma get_schema_round_trip_witness :
  let mt := max_tiles_of ∅ 1 in
  exists schema,
    _get_schema ["C"; "Y"; "X"] [3; 2000; 700] mt NumPy.uint8 (ZstdFilter 0)
    = Ok schema /\
    Schema.shape schema = [3; 2000; 700] /\
    dim_name <$> domain schema = ["C"; "Y"; "X"].
Proof.
  intros mt.
  destruct (_get_schema ["C"; "Y"; "X"] [3; 2000; 700] mt NumPy.uint8 (ZstdFilter 0))
    as [schema|e] eqn:H; [|by vm_compute in H].
  exists schema. split; [reflexivity|].
  destruct (get_schema_round_trip _ _ _ _ _ _ H) as (Hs & Hn & _).
  by split.
Defined.

(** X2. The checks of _get_schema itself, in their order. With a
    different number of names and extents it raises AssertionError,
    whatever the names: the assertion comes before any name is looked
    up. A KeyError that it raises names the first dimension name, in
    order, that max_tiles does not hold, and there are then as many names
    as extents. And when it returns a schema there are as many names as
    extents and max_tiles holds every name. *)
Theorem get_schema_failure names shape max_tiles adt c :
  (length names <> length shape ->
   _get_schema names shape max_tiles adt c = Raise AssertionError) /\
  (forall n,
      _get_schema names shape max_tiles adt c = Raise (KeyError n) ->
      length names = length shape /\ first_missing max_tiles names = Some n) /\
  (forall schema,
      _get_schema names shape max_tiles adt c = Ok schema ->
      length names = length shape /\
      Forall (fun n => is_Some (max_tiles !! n)) names).
Proof.
  pose proof (get_schema_outcome names shape max_tiles adt c) as H.
  destruct (_get_schema names shape max_tiles adt c) as [s|e].
  - destruct H as [Hlen Hm]. split; [done|]. split; [done|].
    intros schema _. split; [done|]. by apply first_missing_None.
  - destruct H as [[Hlen ->]|(Hlen & n & Hm & ->)].
    + split; [done|]. split; [intros n [=]|intros schema [=]].
    + split; [done|]. split; [|intros schema [=]].
      intros n' [= <-]. by split.
Qed.

Lemma get_schema_failure_witness :
  let mt := max_tiles_of ∅ 1 in
  (length ["Q"; "X"] <> length [700] /\
   _get_schema ["Q"; "X"] [700] mt NumPy.uint8 (ZstdFilter 0)
   = Raise AssertionError) /\
  (_get_schema ["C"; "Q"; "Y"; "W"] [3; 5; 2000; 7] mt NumPy.uint8 (ZstdFilter 0)
   = Raise (KeyError "Q") /\
   first_missing mt ["C"; "Q"; "Y"; "W"] = Some "Q").
Proof.
  intros mt. split.
  - assert (length ["Q"; "X"] <> length [700]) as Hlen by (simpl; lia).
    split; [exact Hlen|].
    destruct (get_schema_failure ["Q"; "X"] [700] mt NumPy.uint8 (ZstdFilter 0))
      as (Ha & _ & _).
    exact (Ha Hlen).
  - assert (_get_schema ["C"; "Q"; "Y"; "W"] [3; 5; 2000; 7] mt NumPy.uint8
                        (ZstdFilter 0) = Raise (KeyError "Q")) as Hk
      by (vm_compute; reflexivity).
    split; [exact Hk|].
    destruct (get_schema_failure ["C"; "Q"; "Y"; "W"] [3; 5; 2000; 7] mt NumPy.uint8
                (ZstdFilter 0)) as (_ & Hkey & _).
    exact (proj2 (Hkey "Q" Hk)).
Defined.

(** X3. With the max_tiles that to_tiledb builds (the defaults, updated
    with the requested tiles, X multiplied by the pixel depth),
    _get_schema never raises KeyError for one of T, C, Z, Y, X nor for a
    name that has a requested tile, whatever the caller requests: a
    KeyError that it raises names one of the dimension names that is none
    of the five labels and has no requested tile. And when it returns a
    schema every dimension name is one of the five labels or has a
    requested tile. *)
Theorem get_schema_known_names tiles pd names shape adt c :
  (forall n,
      _get_schema names shape (max_tiles_of tiles pd) adt c = Raise (KeyError n) ->
      n ∈ names /\ (n ∉ default_names) /\ tiles !! n = None) /\
  (forall schema,
      _get_schema names shape (max_tiles_of tiles pd) adt c = Ok schema ->
      Forall (fun n => n ∈ default_names \/ is_Some (tiles !! n)) names).
Proof.
  pose proof (get_schema_outcome names shape (max_tiles_of tiles pd) adt c) as H.
  destruct (_get_schema names shape (max_tiles_of tiles pd) adt c) as [s|e].
  - destruct H as [_ Hm]. split; [intros n [=]|]. intros schema _.
    apply first_missing_None in Hm. eapply Forall_impl; [exact Hm|].
    intros n Hn. simpl in Hn. by rewrite max_tiles_of_is_Some in Hn.
  - split; [|intros schema [=]]. intros n [= ->].
    destruct H as [[_ [=]]|(_ & n' & Hm & [= <-])].
    apply head_Some_elem_of, list_elem_of_filter in Hm as [Hnone Hin].
    split; [done|].
    assert (~ is_Some (max_tiles_of tiles pd !! n)) as Hno
      by (rewrite Hnone; by intros [? [=]]).
    rewrite max_tiles_of_is_Some in Hno.
    split; [tauto|]. apply eq_None_not_Some. tauto.
Qed.

Lemma get_schema_known_names_witness :
  let tiles : gmap string Z := <["S" := 3]> ∅ in
  _get_schema ["Y"; "X"; "S"; "Q"] [2000; 700; 3; 5] (max_tiles_of tiles 1)
              NumPy.uint8 (ZstdFilter 0) = Raise (KeyError "Q") /\
  "Q" ∈ ["Y"; "X"; "S"; "Q"] /\ ("Q" ∉ default_names) /\ tiles !! "Q" = None.
Proof.
  intros tiles.
  assert (_get_schema ["Y"; "X"; "S"; "Q"] [2000; 700; 3; 5] (max_tiles_of tiles 1)
                      NumPy.uint8 (ZstdFilter 0) = Raise (KeyError "Q")) as Hk
    by (vm_compute; reflexivity).
  split; [exact Hk|].
  destruct (get_schema_known_names tiles 1 ["Y"; "X"; "S"; "Q"] [2000; 700; 3; 5]
              NumPy.uint8 (ZstdFilter 0)) as [Hkey _].
  exact (Hkey "Q" Hk).
Defined.

(** X4. For positive extents, positive requested tiles and a positive
    pixel depth, every dimension of a schema made with the max_tiles of
    to_tiledb has a tile between 1 and its extent: a requested or default
    tile larger than the extent is cut to the extent, and the infinite
    default of C gives the whole extent. *)
Theorem get_schema_tile_bounds tiles pd names shape adt c schema :
  0 < pd ->
  Forall (fun e => 0 < e) shape ->
  map_Forall (fun _ t => 0 < t) tiles ->
  _get_schema names shape (max_tiles_of tiles pd) adt c = Ok schema ->
  Forall (fun d => 0 < dim_tile d <= dim_size d) (domain schema).
Proof.
  intros Hpd Hpos Htiles Hs.
  pose proof (get_schema_ok _ _ _ _ _ _ Hs) as (Hlen & _ & H).
  assert (Forall (fun nd : string * Z => 0 < snd nd) (zip names shape)) as Hz.
  { apply Forall_forall. intros [n e] Hin. simpl.
    rewrite Forall_forall in Hpos. apply Hpos.
    apply list_elem_of_lookup in Hin as (i & Hi).
    apply lookup_zip_with_Some in Hi as (x & y & Heq & _ & Hy).
    injection Heq as -> ->. by eapply list_elem_of_lookup_2. }
  induction H as [|[n e] d nds ds (_ & Hd & _ & b & Hb & Ht) _ IH]; [constructor|].
  apply Forall_cons in Hz as [He Hz]. constructor; [|by apply IH].
  unfold dim_size. rewrite Ht, Hd. simpl in *.
  pose proof (max_tiles_of_positive tiles pd n b Hpd Htiles Hb) as Hbp.
  destruct b as [t|]; simpl; [rewrite py_min_Zmin|]; lia.
Qed.

Lemma get_schema_tile_bounds_witness :
  let tiles : gmap string Z := <["Y" := 4096]> (<["X" := 256]> ∅) in
  exists schema,
    (0 < 1 /\ Forall (fun e => 0 < e) [3; 2000; 700] /\
     map_Forall (fun _ t => 0 < t) tiles /\
     _get_schema ["C"; "Y"; "X"] [3; 2000; 700] (max_tiles_of tiles 1)
                 NumPy.uint8 (ZstdFilter 0) = Ok schema) /\
    Forall (fun d => 0 < dim_tile d <= dim_size d) (domain schema).
Proof.
  intros tiles.
  assert (map_Forall (fun (_ : string) t => 0 < t) tiles) as Htiles.
  { intros k v Hk. subst tiles.
    apply lookup_insert_Some in Hk as [[_ <-]|[_ Hk]]; [lia|].
    apply lookup_insert_Some in Hk as [[_ <-]|[_ Hk]]; [lia|].
    by rewrite lookup_empty in Hk. }
  assert (Forall (fun e => 0 < e) [3; 2000; 700]) as Hpos
    by (repeat constructor).
  destruct (_get_schema ["C"; "Y"; "X"] [3; 2000; 700] (max_tiles_of tiles 1)
                        NumPy.uint8 (ZstdFilter 0)) as [schema|e] eqn:H;
    [|by vm_compute in H].
  exists schema. split; [split; [lia|split; [exact Hpos|split; [exact Htiles|reflexivity]]]|].
  exact (get_schema_tile_bounds tiles 1 _ _ _ _ schema ltac:(lia) Hpos Htiles H).
Defined.

(* ===================================================================== *)
(*  Further properties of to_tiledb: the output group                    *)
(* ===================================================================== *)

Section GroupFacts.

Context {E : Env}.

(* what group.add is given for the uri of a level *)
Definition member_of (uri : string) : string * bool :=
  if decide (urlparse_scheme uri = "tiledb") then (uri, false)
  else (basename uri, true).

(* the metadata and the members of the group stored at `out`, those of a
   new group when there is none *)
Definition group_before (st : gmap string object) (out : string)
  : gmap string meta_value * list (string * bool) :=
  match st !! out with
  | Some (Group m ms) => (m, ms)
  | _ => (∅, [])
  end.

(* the keys that to_tiledb sets in the group metadata *)
Definition converter_keys : list string :=
  ["axes"; "pkg_version"; "fmt_version"; "dataset_type"; "levels"].

(* this group is stored at k *)
Definition has_group (k : string) (m : gmap string meta_value)
    (ms : list (string * bool)) : gmap string object -> Prop :=
  fun st => st !! k = Some (Group m ms).

Lemma has_group_create k m ms uri : create_stable (has_group k m ms) uri.
Proof.
  intros st o H Hn. unfold has_group in *.
  destruct (decide (uri = k)) as [->|Hne]; [congruence|].
  by rewrite lookup_insert_ne.
Qed.

Lemma has_group_array k m ms uri : array_stable (has_group k m ms) uri.
Proof.
  intros st s m1 c s' m' c' H Hn. unfold has_group in *.
  destruct (decide (uri = k)) as [->|Hne]; [congruence|].
  by rewrite lookup_insert_ne.
Qed.

(* the store keeps what it holds at k *)
Definition same_at (k : string) (st0 : gmap string object)
  : gmap string object -> Prop :=
  fun st => st !! k = st0 !! k.

Lemma same_at_create k st0 uri : uri <> k -> create_stable (same_at k st0) uri.
Proof. intros Hne st o H Hn. unfold same_at in *. by rewrite lookup_insert_ne. Qed.

Lemma same_at_array k st0 uri : uri <> k -> array_stable (same_at k st0) uri.
Proof.
  intros Hne st s m c s' m' c' H Hn. unfold same_at in *. by rewrite lookup_insert_ne.
Qed.

Lemma same_at_group k st0 uri : uri <> k -> group_stable (same_at k st0) uri.
Proof.
  intros Hne st m ms m' ms' H Hn. unfold same_at in *. by rewrite lookup_insert_ne.
Qed.

Lemma before_levels_has_group reader out o st :
  result (before_levels reader out o st) = Ok tt ->
  has_group out (group_before st out).1 (group_before st out).2
            (final (before_levels reader out o st)) /\
  (forall k, k <> out -> final (before_levels reader out o st) !! k = st !! k) /\
  (forall k, is_array (final (before_levels reader out o st) !! k)
             = is_array (st !! k)).
Proof.
  destruct (is_array (st !! out)) eqn:Harr.
  - unfold before_levels.
    rewrite (bind_step (object_type _) _ st _ eq_refl).
    cbn [result final trace object_type].
    destruct (st !! out) as [[m ms|s m c]|] eqn:Hout; try done.
    rewrite decide_False by done.
    rewrite (bind_Raise (group_create out) _ st (TileDBError "object already exists"));
      [done|].
    unfold group_create, bind; simpl. by rewrite Hout.
  - intros _. destruct (before_levels_Ok reader out o st Harr) as (_ & Hg & Ha & Hf).
    split; [|done]. unfold has_group, group_before. revert Hg.
    unfold before_levels.
    rewrite (bind_step (object_type _) _ st _ eq_refl).
    cbn [result final trace object_type].
    destruct (st !! out) as [[m ms|]|] eqn:Hout; [|done|].
    + rewrite decide_True by done.
      rewrite (bind_step (ret tt) _ st tt eq_refl). cbn [result final trace ret].
      destruct (_ && _); cbn; by rewrite Hout.
    + rewrite decide_False by done.
      assert (group_create out st
              = mkOutcome (Ok tt) (<[out := Group ∅ []]> st) [EGroupCreate out]) as Hc.
      { unfold group_create, bind; simpl. by rewrite Hout. }
      rewrite (bind_step (group_create out) _ st tt) by (by rewrite Hc).
      rewrite Hc. cbn [result final trace].
      destruct (_ && _); cbn; by rewrite lookup_insert_eq.
Qed.

Lemma add_members_eq out uris :
  forall st m ms,
    st !! out = Some (Group m ms) ->
    let r := for_each_ uris
               (fun uri =>
                  if decide (urlparse_scheme uri = "tiledb")
                  then group_add out uri false
                  else group_add out (basename uri) true) st in
    result r = Ok tt /\
    final r = <[out := Group m (ms ++ (member_of <$> uris))]> st.
Proof.
  induction uris as [|uri uris IH]; intros st m ms Hst; cbn zeta.
  { cbn. by rewrite app_nil_r, insert_id. }
  cbn [for_each_ fmap list_fmap].
  assert (forall member rel,
            group_add out member rel st
            = mkOutcome (Ok tt) (<[out := Group m (ms ++ [(member, rel)])]> st)
                        [EGroupAdd out member rel]) as Hadd.
  { intros member rel. unfold group_add, bind; simpl. by rewrite Hst. }
  set (st1 := <[out := Group m (ms ++ [member_of uri])]> st).
  assert ((if decide (urlparse_scheme uri = "tiledb")
           then group_add out uri false
           else group_add out (basename uri) true) st
          = mkOutcome (Ok tt) st1
              [EGroupAdd out (member_of uri).1 (member_of uri).2]) as Hone.
  { unfold st1, member_of. case_decide; by rewrite Hadd. }
  rewrite (bind_step _ _ st tt) by (by rewrite Hone).
  rewrite Hone. cbn [result final trace].
  destruct (IH st1 m (ms ++ [member_of uri])) as [-> ->].
  { unfold st1. by rewrite lookup_insert_eq. }
  split; [done|]. unfold st1.
  by rewrite insert_insert_eq, <- app_assoc.
Qed.

Lemma write_group_eq reader out uris lm st m ms :
  st !! out = Some (Group m ms) ->
  result (write_group reader out uris lm st) = Ok tt /\
  final (write_group reader out uris lm st)
  = <[out := Group (group_meta reader lm ∪ m) (ms ++ (member_of <$> uris))]> st.
Proof.
  intros Hst. unfold write_group.
  set (gm := group_meta reader lm).
  assert (group_meta_update out gm st
          = mkOutcome (Ok tt) (<[out := Group (gm ∪ m) ms]> st) [EGroupMeta out gm])
    as Hup.
  { unfold group_meta_update, bind; simpl. by rewrite Hst. }
  rewrite (bind_step _ _ st tt) by (by rewrite Hup).
  rewrite Hup. cbn [result final trace].
  destruct (add_members_eq out uris (<[out := Group (gm ∪ m) ms]> st) (gm ∪ m) ms)
    as [Hr Hf]; [by rewrite lookup_insert_eq|].
  cbn zeta in Hr, Hf.
  rewrite (bind_step _ _ _ tt Hr), Hf. cbn [result final trace].
  rewrite insert_insert_eq.
  by destruct (String.prefix _ _).
Qed.

(* the pyramid generation keeps an invariant that creations and array
   updates keep *)
Lemma pyramid_phase_respects I out o mt s :
  (forall uri, create_stable I uri) -> (forall uri, array_stable I uri) ->
  respects I (fun _ => True)
    (match pyramid_kwargs o with
     | Some kw =>
         dim_names <- read_local "dim_names" (l_dim_names s) ;;
         attr_dtype <- read_local "attr_dtype" (l_attr_dtype s) ;;
         _scale (l_uris s) (l_levels_meta s) out (level_min o)
                dim_names attr_dtype mt (compressor o) kw
     | None => ret (l_uris s, l_levels_meta s)
     end).
Proof.
  intros Hc Ha. destruct (pyramid_kwargs o) as [kw|]; [|apply respects_ret].
  apply respects_bind.
  { destruct (l_dim_names s); [apply respects_ret|apply respects_raise]. }
  intros dn. apply respects_bind.
  { destruct (l_attr_dtype s); [apply respects_ret|apply respects_raise]. }
  intros adt. apply _scale_respects. intros sc ils [[uris lm] level].
  eapply respects_weaken; [|apply scale_level_respects; [apply Hc|apply Ha]].
  done.
Qed.

(* the group that a run that returns leaves *)
Lemma to_tiledb_Ok_group cls inp out o st :
  result (to_tiledb cls inp out o st) = Ok tt ->
  exists rt s ul,
    let reader := rt inp in
    let pd := get_pixel_depth (compressor o) in
    let mt := max_tiles_of (tiles o) pd in
    let b := before_levels reader out o st in
    let lp := for_each (range (level_min o) (level_max reader o))
                       (convert_level reader out o pd mt)
                       (mkLocals [] [] None None) (final b) in
    _ImageReaderType cls = Some rt /\
    result b = Ok tt /\ result lp = Ok s /\
    result (match pyramid_kwargs o with
            | Some kw =>
                dim_names <- read_local "dim_names" (l_dim_names s) ;;
                attr_dtype <- read_local "attr_dtype" (l_attr_dtype s) ;;
                _scale (l_uris s) (l_levels_meta s) out (level_min o)
                       dim_names attr_dtype mt (compressor o) kw
            | None => ret (l_uris s, l_levels_meta s)
            end (final lp)) = Ok ul /\
    final (to_tiledb cls inp out o st)
    = <[out := Group (group_meta reader ul.2 ∪ (group_before st out).1)
                     ((group_before st out).2 ++ (member_of <$> ul.1))]>
        (final (match pyramid_kwargs o with
                | Some kw =>
                    dim_names <- read_local "dim_names" (l_dim_names s) ;;
                    attr_dtype <- read_local "attr_dtype" (l_attr_dtype s) ;;
                    _scale (l_uris s) (l_levels_meta s) out (level_min o)
                           dim_names attr_dtype mt (compressor o) kw
                | None => ret (l_uris s, l_levels_meta s)
                end (final lp))).
Proof.
  intros H.
  apply to_tiledb_Ok in H as (rt & s & Hrt & Hb & Hlp & Ha & -> & _).
  exists rt, s. cbn zeta.
  destruct (before_levels_has_group _ _ _ _ Hb) as (Hg & _).
  set (gm := (group_before st out).1) in *.
  set (gms := (group_before st out).2) in *.
  set (b := before_levels (rt inp) out o st) in *.
  set (mt := max_tiles_of (tiles o) (get_pixel_depth (compressor o))) in *.
  set (lp := for_each _ _ _ (final b)) in *.
  assert (has_group out gm gms (final lp)) as Hg1.
  { refine (proj1 (respects_for_each (has_group out gm gms) (fun _ => True)
                     _ _ _ _ _ Hg)).
    intros level s0 _. eapply respects_weaken;
      [|apply convert_level_respects; [apply has_group_create|apply has_group_array]].
    done. }
  unfold after_levels in Ha |- *.
  apply bind_Ok in Ha as (ul & H1 & H2 & -> & _).
  exists ul. repeat (split; [done|]).
  pose proof (proj1 (pyramid_phase_respects (has_group out gm gms) out o mt s
                       (has_group_create out gm gms) (has_group_array out gm gms)
                       _ Hg1)) as Hg2.
  by destruct (write_group_eq (rt inp) out ul.1 ul.2 _ gm gms Hg2) as [_ ->].
Qed.

End GroupFacts.

(** X5. After a run of to_tiledb that returns, the output group holds
    the keys axes (the axes of the source), pkg_version, fmt_version,
    dataset_type and levels with the values of the converter, whatever
    the reader's group metadata and the metadata already stored say for
    these keys; every other key has the value of the reader's group
    metadata and, when the reader has none, the value stored before. *)
Theorem to_tiledb_group_metadata `{E : Env} cls inp out o st rt :
  _ImageReaderType cls = Some rt ->
  result (to_tiledb cls inp out o st) = Ok tt ->
  exists meta members,
    final (to_tiledb cls inp out o st) !! out = Some (Group meta members) /\
    meta !! "axes" = Some (MStr (join (axes (rt inp)))) /\
    meta !! "pkg_version" = Some (MStr version) /\
    meta !! "fmt_version" = Some (MInt FMT_VERSION) /\
    meta !! "dataset_type" = Some (MStr DATASET_TYPE) /\
    (exists lm, meta !! "levels" = Some (MLevels lm)) /\
    forall k, k ∉ converter_keys ->
              meta !! k = (group_metadata (rt inp) ∪ (group_before st out).1) !! k.
Proof.
  intros Hrt H.
  apply to_tiledb_Ok_group in H as (rt' & s & ul & Hrt' & _ & _ & _ & Hf).
  rewrite Hrt in Hrt'. injection Hrt' as <-.
  eexists _, _. split; [by rewrite Hf, lookup_insert_eq|]. unfold group_meta.
  assert (forall (k : string) v (m1 m2 : gmap string meta_value),
            m1 !! k = Some v -> (m1 ∪ m2) !! k = Some v) as Hl.
  { intros k v m1 m2 Hk. by apply lookup_union_Some_l. }
  split; [by apply Hl; rewrite lookup_insert_eq|].
  split; [by apply Hl; rewrite !lookup_insert_ne, lookup_insert_eq by done|].
  split; [by apply Hl; rewrite !lookup_insert_ne, lookup_insert_eq by done|].
  split; [by apply Hl; rewrite !lookup_insert_ne, lookup_insert_eq by done|].
  split.
  { exists ul.2. by apply Hl; rewrite !lookup_insert_ne, lookup_insert_eq by done. }
  intros k Hk. unfold converter_keys in Hk.
  rewrite !elem_of_cons, elem_of_nil in Hk.
  rewrite !lookup_union, !lookup_insert_ne; [done|naive_solver..].
Qed.

(* ===================================================================== *)
(*  Further properties of to_tiledb: the levels of a run                 *)
(* ===================================================================== *)

Section LevelFacts.

Context {E : Env}.

Lemma string_length_app (s t : string) :
  String.length (s +:+ t) = (String.length s + String.length t)%nat.
Proof. induction s as [|a s IH]; simpl; [done|]. by rewrite IH. Qed.

Lemma string_app_inj_r (s1 s2 t : string) : s1 +:+ t = s2 +:+ t -> s1 = s2.
Proof.
  revert s2. induction s1 as [|a s1 IH]; intros [|b s2] H; simpl in H.
  - done.
  - apply (f_equal String.length) in H.
    rewrite !string_length_app in H. simpl in H. lia.
  - apply (f_equal String.length) in H.
    rewrite !string_length_app in H. simpl in H. lia.
  - injection H as -> H. f_equal. by apply IH.
Qed.

(* the levels of an output have different uris *)
Lemma level_uri_inj out l1 l2 : level_uri out l1 = level_uri out l2 -> l1 = l2.
Proof.
  unfold level_uri, path_join. intros H.
  assert ("l_" +:+ pretty l1 +:+ ".tdb" = "l_" +:+ pretty l2 +:+ ".tdb") as H'.
  { case_decide; [done|]. destruct (ends_with_slash out).
    - by apply (inj (String.app out)) in H.
    - apply (inj (String.app out)) in H. by apply (inj (String.app "/")) in H. }
  apply (inj (String.app "l_")) in H'. apply string_app_inj_r in H'.
  by apply (inj pretty) in H'.
Qed.

(* an iteration of the level loop changes the store at the uri of its
   level only *)
Lemma convert_level_frame reader out o pd mt level s st k :
  k <> level_uri out level ->
  final (convert_level reader out o pd mt level s st) !! k = st !! k.
Proof.
  intros Hk.
  refine (proj1 (convert_level_respects (same_at k st) reader out o pd mt level s
                   _ _ st _)); [| |done].
  - by apply same_at_create.
  - by apply same_at_array.
Qed.

(* the descriptors of the levels, of the uris l_{level}.tdb of the
   output *)
Definition descriptors_of (out : string) (levels : list Z) (lm : list LevelMeta)
  : Prop :=
  lm_level <$> lm = levels /\
  Forall (fun d => lm_uri d = level_uri out (lm_level d)) lm.

Lemma descriptors_of_app out l1 l2 lm1 lm2 :
  descriptors_of out l1 lm1 -> descriptors_of out l2 lm2 ->
  descriptors_of out (l1 ++ l2) (lm1 ++ lm2).
Proof.
  intros [H1 H2] [H3 H4]. split.
  - by rewrite fmap_app, H1, H3.
  - by apply Forall_app.
Qed.

(* the levels that have no array yet *)
Definition to_convert (st : gmap string object) (out : string) (levels : list Z)
  : list Z :=
  filter (fun l => is_array (st !! level_uri out l) = false) levels.

Lemma to_convert_ext st st' out levels :
  (forall l, l ∈ levels ->
             is_array (st' !! level_uri out l) = is_array (st !! level_uri out l)) ->
  to_convert st' out levels = to_convert st out levels.
Proof.
  unfold to_convert. induction levels as [|x levels IH]; intros H; [done|].
  rewrite !filter_cons, IH by (intros l Hl; apply H; by right).
  rewrite (H x) by (by left). done.
Qed.

(* what the level loop appends to uris and levels_meta *)
Lemma convert_levels_Ok_meta reader out o pd mt l :
  NoDup l ->
  forall s st s',
    result (for_each l (convert_level reader out o pd mt) s st) = Ok s' ->
    exists lm,
      l_levels_meta s' = l_levels_meta s ++ lm /\
      l_uris s' = l_uris s ++ (lm_uri <$> lm) /\
      descriptors_of out (to_convert st out l) lm.
Proof.
  induction 1 as [|x l Hx Hnd IH]; intros s st s'.
  { cbn. intros [= <-]. exists []. by rewrite !app_nil_r. }
  cbn [for_each]. intros H. apply bind_Ok in H as (s1 & H1 & H2 & _).
  apply IH in H2 as (lm & Hlm & Hu & Hd).
  assert (to_convert (final (convert_level reader out o pd mt x s st)) out l
          = to_convert st out l) as Heq.
  { apply to_convert_ext. intros lv Hlv. rewrite convert_level_frame; [done|].
    intros Heq%level_uri_inj. by subst. }
  rewrite Heq in Hd. unfold to_convert at 1. rewrite filter_cons.
  apply convert_level_Ok in H1 as [(Harr & -> & _)|(Harr & _ & _ & H1)].
  - rewrite decide_False by (by rewrite Harr). by exists lm.
  - destruct H1 as (sh & am & adt & schema & _ & _ & _ & _ & _ & -> & _).
    rewrite decide_True by done. cbn [l_uris l_levels_meta] in Hlm, Hu.
    eexists (_ :: lm). rewrite <- !app_assoc in Hlm, Hu. split; [exact Hlm|].
    split; [exact Hu|].
    apply (descriptors_of_app out [x] _ [_] lm); [|done].
    split; [done|]. by constructor.
Qed.

(* what the pyramid loop appends *)
Lemma scale_loop_meta sc out dn adt mt c shapes :
  forall (i0 : nat) uris lm level st s',
    result (for_each (imap (fun k sh => ((i0 + k)%nat, sh)) shapes)
                     (scale_level sc out dn adt mt c) (uris, lm, level) st) = Ok s' ->
    exists lm',
      s'.1.2 = lm ++ lm' /\ s'.1.1 = uris ++ (lm_uri <$> lm') /\
      descriptors_of out (seqZ level (Z.of_nat (length shapes))) lm'.
Proof.
  induction shapes as [|sh shapes IH]; intros i0 uris lm level st s' H.
  { cbn in H. injection H as <-. exists []. by rewrite !app_nil_r. }
  rewrite imap_cons in H. cbn [for_each] in H.
  apply bind_Ok in H as (s1 & H1 & H2 & _).
  apply scale_level_Ok in H1 as (src & _ & -> & _).
  assert (imap ((fun (k : nat) (sh0 : list Z) => ((i0 + k)%nat, sh0)) ∘ S) shapes
          = imap (fun k sh0 => ((S i0 + k)%nat, sh0)) shapes) as Heq.
  { apply imap_ext. intros k x _. unfold compose. f_equal. lia. }
  rewrite Heq in H2. apply IH in H2 as (lm' & Hlm & Hu & Hd).
  eexists (_ :: lm'). rewrite <- !app_assoc in Hlm, Hu.
  split; [exact Hlm|]. split; [exact Hu|].
  cbn [length]. rewrite Nat2Z.inj_succ, seqZ_cons by lia.
  replace (Z.pred (Z.succ (Z.of_nat (length shapes))))
    with (Z.of_nat (length shapes)) by lia.
  apply (descriptors_of_app out [level] _ [_] lm'); [|done].
  split; [done|]. by constructor.
Qed.

Lemma _scale_Ok_meta uris lm out lmin dn adt mt c kw st r :
  result (_scale uris lm out lmin dn adt mt c kw st) = Ok r ->
  exists lm',
    r.2 = lm ++ lm' /\ r.1 = uris ++ (lm_uri <$> lm') /\
    descriptors_of out (seqZ (lmin + 1) (Z.of_nat (length (scale_factors kw)))) lm'.
Proof.
  unfold _scale. intros H.
  apply bind_Ok in H as (uri0 & _ & H & _).
  apply bind_Ok in H as (a & _ & H & _).
  apply bind_Ok in H as (sc & Hsc & H & _).
  apply bind_Ok in H as (s' & H & Hr & _).
  cbn in Hr. injection Hr as <-.
  cbn in Hsc. unfold new_scaler in Hsc. case_decide; [|done].
  injection Hsc as <-. cbn [level_shapes] in H.
  apply (scale_loop_meta _ out dn adt mt c _ 0%nat) in H as (lm' & Hlm & Hu & Hd).
  exists lm'. rewrite length_fmap in Hd. done.
Qed.

End LevelFacts.


(** X9. Re-running to_tiledb with pyramid generation on an output where
    the array of level_min already exists raises UnboundLocalError for
    dim_names: the level is skipped, so the variables that _scale is
    given were never assigned. Nothing but the creation of a missing
    group has happened by then. *)
Theorem to_tiledb_pyramid_rerun `{E : Env} cls inp out o st rt kw :
  _ImageReaderType cls = Some rt ->
  pyramid_kwargs o = Some kw ->
  is_array (st !! out) = false ->
  is_array (st !! level_uri out (level_min o)) = true ->
  result (to_tiledb cls inp out o st) = Raise (UnboundLocalError "dim_names") /\
  (forall k, k <> out -> final (to_tiledb cls inp out o st) !! k = st !! k) /\
  final (to_tiledb cls inp out o st) !! out
  = Some (Group (group_before st out).1 (group_before st out).2).
Proof.
  intros Hrt Hkw Hout Harr. unfold to_tiledb. rewrite Hrt. cbn zeta.
  destruct (before_levels_Ok (rt inp) out o st Hout) as (Hb & _ & _ & _).
  destruct (before_levels_has_group _ _ _ _ Hb) as (Hg & Hframe & Ha).
  rewrite (bind_step _ _ st tt Hb). cbn [result final trace].
  rewrite range_pyramid by (by rewrite Hkw).
  set (st1 := final (before_levels (rt inp) out o st)) in *.
  rewrite (bind_step _ _ st1 (mkLocals [] [] None None))
    by (rewrite convert_levels_skip; [done|];
        intros l ->%list_elem_of_singleton; by rewrite Ha).
  rewrite convert_levels_skip
    by (intros l ->%list_elem_of_singleton; by rewrite Ha).
  cbn [result final trace].
  unfold after_levels. rewrite Hkw. cbn [l_dim_names read_local].
  rewrite (bind_Raise _ _ st1 (UnboundLocalError "dim_names")).
  - cbn [result final trace]. split; [done|].
    rewrite (bind_Raise _ _ st1 (UnboundLocalError "dim_names")) by done.
    done.
  - by rewrite (bind_Raise _ _ st1 (UnboundLocalError "dim_names")).
Qed.

(* ===================================================================== *)
(*  Further properties of to_tiledb: descriptors and stored arrays       *)
(* ===================================================================== *)

Section Described.

Context {E : Env}.

(* the array that a descriptor stands for is stored, with the shape and
   the axes of the descriptor and with its level in the metadata *)
Definition described (st : gmap string object) (d : LevelMeta) : Prop :=
  exists schema meta cells,
    st !! lm_uri d = Some (Array schema meta cells) /\
    Schema.shape schema = lm_shape d /\
    join (dim_name <$> domain schema) = lm_axes d /\
    meta !! "level" = Some (MInt (lm_level d)).

(* a tile leaves the schema and the metadata of the array it writes *)
Lemma tile_to_tiledb_array reader level uri am iam t st s m c :
  st !! uri = Some (Array s m c) ->
  exists c', final (tile_to_tiledb reader level uri am iam t st) !! uri
             = Some (Array s m c').
Proof.
  intros Hst. unfold tile_to_tiledb.
  rewrite (bind_step (emit _) _ st tt eq_refl). cbn [result final trace emit].
  destruct (level_image reader level (Some (map_tile iam t))) as [image|e];
    [rewrite (bind_step (lift _) _ st image eq_refl)
    |rewrite (bind_Raise (lift _) _ st e eq_refl); by exists c].
  cbn [result final trace lift].
  destruct (decide (nd_shape (map_array am image) = tile_shape t)) as [Hs|Hs].
  - rewrite (bind_step (array_write _ _ _) _ st tt)
      by (by rewrite (array_write_eq _ _ _ _ _ _ _ Hst Hs)).
    rewrite (array_write_eq _ _ _ _ _ _ _ Hst Hs). cbn [result final trace emit].
    eexists. by rewrite lookup_insert_eq.
  - assert (array_write uri t (map_array am image) st
            = mkOutcome (Raise (ValueError "shape mismatch")) st []) as Hw.
    { unfold array_write, bind; simpl. rewrite Hst. by rewrite decide_False. }
    rewrite (bind_Raise (array_write _ _ _) _ st (ValueError "shape mismatch"))
      by (by rewrite Hw).
    rewrite Hw. by exists c.
Qed.

Lemma tile_loop_array reader level uri am iam ts :
  forall st s m c,
    st !! uri = Some (Array s m c) ->
    exists c', final (for_each_ ts (tile_to_tiledb reader level uri am iam) st) !! uri
               = Some (Array s m c').
Proof.
  induction ts as [|t ts IH]; intros st s m c Hst; cbn [for_each_].
  { by exists c. }
  destruct (tile_to_tiledb_array reader level uri am iam t st s m c Hst) as [c1 H1].
  unfold bind.
  destruct (result (tile_to_tiledb reader level uri am iam t st)); cbn [final].
  - by apply (IH _ s m c1).
  - by exists c1.
Qed.

(* writing a level sets its metadata, with the level number, and leaves
   the schema *)
Lemma write_level_Ok_array reader level uri am ch mw st a m0 c0 :
  st !! uri = Some (Array a m0 c0) ->
  result (write_level reader level uri am ch mw st) = Ok tt ->
  exists md c',
    level_metadata reader level = Ok md /\
    final (write_level reader level uri am ch mw st) !! uri
    = Some (Array a (<["level" := MInt level]> md ∪ m0) c').
Proof.
  intros Hst. unfold write_level.
  rewrite (bind_step (open_array uri) _ st a)
    by (by rewrite (open_array_eq _ _ _ _ _ Hst)).
  rewrite (open_array_eq _ _ _ _ _ Hst). cbn [result final trace].
  destruct (level_metadata reader level) as [md|e] eqn:Hmd;
    [rewrite (bind_step (lift _) _ st md eq_refl)
    |by rewrite (bind_Raise (lift _) _ st e eq_refl)].
  cbn [result final trace lift].
  set (md' := <["level" := MInt level]> md).
  rewrite (bind_step (array_meta_update uri md') _ st tt)
    by (by rewrite (array_meta_update_eq _ _ _ _ _ _ Hst)).
  rewrite (array_meta_update_eq _ _ _ _ _ _ Hst). cbn [result final trace].
  set (st1 := <[uri := Array a (md' ∪ m0) c0]> st).
  assert (st1 !! uri = Some (Array a (md' ∪ m0) c0)) as Hst1
    by (by unfold st1; rewrite lookup_insert_eq).
  intros H. exists md. destruct (ch || negb (mw =? 0)).
  - apply bind_Ok in H as ([] & Hp & H & -> & _).
    apply bind_Ok in H as ([] & Hl & H & -> & _).
    assert (final ((if negb (mw =? 0) then ThreadPoolExecutor mw else ret tt) st1)
            = st1) as ->.
    { destruct (negb (mw =? 0)); [|done]. unfold ThreadPoolExecutor.
      by destruct (mw <=? 0). }
    destruct (tile_loop_array reader level uri am (inverted am)
                ((if negb (mw =? 0) then schedule else id) (iter_tiles (domain a)))
                st1 a (md' ∪ m0) c0 Hst1) as [c' Hc'].
    exists c'. split; [done|].
    destruct (negb (mw =? 0)); cbn [final emit ret]; exact Hc'.
  - apply bind_Ok in H as ([] & _ & H & -> & _). cbn [final emit] in H |- *.
    apply bind_Ok in H as (image & _ & H & -> & _). cbn [final lift] in H |- *.
    apply bind_Ok in H as ([] & Hw & _ & -> & _).
    apply array_write_Ok in Hw as (s & m & c & Hs & _ & -> & _).
    cbn [final emit]. rewrite Hst1 in Hs. injection Hs as <- <- <-.
    eexists. split; [done|]. by rewrite lookup_insert_eq.
Qed.

(* an iteration of the level loop keeps every stored array *)
Lemma convert_level_keeps reader out o pd mt level s0 st k s m c :
  holds k s m c st ->
  holds k s m c (final (convert_level reader out o pd mt level s0 st)).
Proof.
  intros H. destruct (decide (level_uri out level = k)) as [Heq|Hne].
  - rewrite convert_level_skip; [done|]. rewrite Heq. unfold holds in H. by rewrite H.
  - refine (proj1 (convert_level_respects (holds k s m c) reader out o pd mt level s0
                     _ _ st H)).
    + apply holds_create.
    + by apply holds_array_ne.
Qed.

Lemma convert_levels_keep reader out o pd mt l k s m c :
  forall s0 st,
    holds k s m c st ->
    holds k s m c (final (for_each l (convert_level reader out o pd mt) s0 st)).
Proof.
  induction l as [|x l IH]; intros s0 st H; cbn [for_each]; [done|].
  unfold bind.
  pose proof (convert_level_keeps reader out o pd mt x s0 st k s m c H) as H1.
  destruct (result (convert_level reader out o pd mt x s0 st)); cbn [final]; [|done].
  by apply IH.
Qed.

Lemma described_keeps (st st' : gmap string object) d :
  (forall k s m c, holds k s m c st -> holds k s m c st') ->
  described st d -> described st' d.
Proof.
  intros Hk (s & m & c & Hd & Hrest). exists s, m, c. split; [|done].
  by apply Hk.
Qed.

(* the descriptors that the level loop appends describe the arrays it
   leaves *)
Lemma convert_levels_described reader out o pd mt l :
  forall s st s',
    result (for_each l (convert_level reader out o pd mt) s st) = Ok s' ->
    exists lm,
      l_levels_meta s' = l_levels_meta s ++ lm /\
      Forall (described (final (for_each l (convert_level reader out o pd mt) s st)))
             lm.
Proof.
  induction l as [|x l IH]; intros s st s'.
  { cbn. intros [= <-]. exists []. by rewrite app_nil_r. }
  cbn [for_each]. intros H. apply bind_Ok in H as (s1 & H1 & H2 & -> & _).
  pose proof H2 as H2'. apply IH in H2' as (lm & Hlm & Hd).
  apply convert_level_Ok in H1 as [(Harr & -> & _)|(Harr & Hnone & _ & H1)].
  { by exists lm. }
  destruct H1 as (sh & am & adt & schema & _ & _ & _ & Hs & Hw & -> & Hf & _).
  cbn [l_levels_meta] in Hlm. rewrite <- app_assoc in Hlm.
  eexists (_ :: lm). split; [exact Hlm|]. constructor; [|done].
  eapply described_keeps; [intros k s0 m c; apply convert_levels_keep|].
  rewrite Hf.
  destruct (write_level_Ok_array reader x (level_uri out x) am (chunked o)
              (max_workers o) _ schema ∅ ∅ (lookup_insert_eq _ _ _) Hw)
    as (md & c' & _ & Hfin).
  destruct (get_schema_shape _ _ _ _ _ _ Hs) as [Hshape Hnames].
  eexists _, _, _. split; [exact Hfin|]. cbn [lm_uri lm_shape lm_axes lm_level].
  split; [done|]. split; [by rewrite Hnames|].
  apply lookup_union_Some_l. by rewrite lookup_insert_eq.
Qed.

(* what generating a pyramid level leaves at its uri *)
Lemma scale_level_Ok_array sc out dn adt mt c index level_shape uris lm level st s' :
  result (scale_level sc out dn adt mt c (index, level_shape) (uris, lm, level) st)
  = Ok s' ->
  described
    (final (scale_level sc out dn adt mt c (index, level_shape) (uris, lm, level) st))
    (mkLevelMeta (level_uri out level) level (join dn) level_shape).
Proof.
  unfold scale_level, scaler_apply. intros H.
  apply bind_Ok in H as (schema & Hs & H & -> & _).
  apply bind_Ok in H as ([] & Hc & H & -> & _).
  apply bind_Ok in H as (src & Hsrc & H & -> & _).
  apply bind_Ok in H as (a1 & Ho1 & H & -> & _).
  apply bind_Ok in H as (a2 & Ho2 & H & -> & _).
  apply bind_Ok in H as ([] & Hm & H & -> & _).
  apply bind_Ok in H as ([] & Ha & H & -> & _).
  apply bind_Ok in Ha as (base & Hr & Ha & -> & _).
  apply bind_Ok in Ha as (o & Ho3 & Ha & -> & _).
  apply bind_Ok in Ha as ([] & _ & Ha & -> & _).
  cbn [final ret emit lift] in *.
  apply Array_create_Ok in Hc as (_ & Hc & _). rewrite Hc in *.
  apply open_array_Ok in Ho1 as (_ & Ho1 & _). rewrite Ho1 in *.
  apply open_array_Ok in Ho2 as (_ & Ho2 & _). rewrite Ho2 in *.
  apply array_meta_update_Ok in Hm as (s1 & m1 & c1 & Hl1 & Hm & _).
  rewrite Hm in *. rewrite lookup_insert_eq in Hl1. injection Hl1 as <- <- <-.
  assert (final (array_read src
                   (<[level_uri out level
                      := Array schema ({["level" := MInt level]} ∪ ∅) ∅]>
                      (<[level_uri out level := Array schema ∅ ∅]> st)))
          = <[level_uri out level := Array schema ({["level" := MInt level]} ∪ ∅) ∅]>
              (<[level_uri out level := Array schema ∅ ∅]> st)) as Hrd.
  { unfold array_read, bind; simpl. by destruct (_ !! src) as [[]|]. }
  rewrite Hrd in *.
  apply open_array_Ok in Ho3 as (_ & Ho3 & _). rewrite Ho3 in *.
  apply array_write_Ok in Ha as (s2 & m2 & c2 & Hl2 & _ & -> & _).
  rewrite lookup_insert_eq in Hl2. injection Hl2 as <- <- <-.
  cbn in Hs.
  destruct (get_schema_shape _ _ _ _ _ _ Hs) as [Hshape Hnames].
  eexists _, _, _. cbn [lm_uri lm_shape lm_axes lm_level].
  split; [by rewrite lookup_insert_eq|]. split; [done|]. split; [by rewrite Hnames|].
  apply lookup_union_Some_l. by rewrite lookup_singleton_eq.
Qed.

Lemma scale_level_keeps sc out dn adt mt c ils s0 st k s m c0 :
  holds k s m c0 st ->
  holds k s m c0 (final (scale_level sc out dn adt mt c ils s0 st)).
Proof.
  intros H. destruct s0 as [[uris lm] level].
  destruct (decide (level_uri out level = k)) as [Heq|Hne].
  - destruct (scale_level_exists sc out dn adt mt c ils uris lm level st) as [-> _];
      [|done].
    rewrite Heq. unfold holds in H. by rewrite H.
  - refine (proj1 (scale_level_respects (holds k s m c0) sc out dn adt mt c ils
                     uris lm level _ _ st H)).
    + apply holds_create.
    + by apply holds_array_ne.
Qed.

Lemma scale_levels_keep sc out dn adt mt c l k s m c0 :
  forall s0 st,
    holds k s m c0 st ->
    holds k s m c0 (final (for_each l (scale_level sc out dn adt mt c) s0 st)).
Proof.
  induction l as [|x l IH]; intros s0 st H; cbn [for_each]; [done|].
  unfold bind.
  pose proof (scale_level_keeps sc out dn adt mt c x s0 st k s m c0 H) as H1.
  destruct (result (scale_level sc out dn adt mt c x s0 st)); cbn [final]; [|done].
  by apply IH.
Qed.

Lemma scale_loop_described sc out dn adt mt c shapes :
  forall (i0 : nat) uris lm level st s',
    result (for_each (imap (fun k sh => ((i0 + k)%nat, sh)) shapes)
                     (scale_level sc out dn adt mt c) (uris, lm, level) st) = Ok s' ->
    exists lm',
      s'.1.2 = lm ++ lm' /\
      Forall (described
                (final (for_each (imap (fun k sh => ((i0 + k)%nat, sh)) shapes)
                                 (scale_level sc out dn adt mt c) (uris, lm, level) st)))
             lm'.
Proof.
  induction shapes as [|sh shapes IH]; intros i0 uris lm level st s' H.
  { cbn in H. injection H as <-. exists []. by rewrite app_nil_r. }
  rewrite imap_cons in H |- *. cbn [for_each] in H |- *.
  apply bind_Ok in H as (s1 & H1 & H2 & -> & _).
  pose proof (scale_level_Ok_array _ _ _ _ _ _ _ _ _ _ _ _ _ H1) as Hd1.
  apply scale_level_Ok in H1 as (src & _ & -> & _).
  assert (imap ((fun (k : nat) (sh0 : list Z) => ((i0 + k)%nat, sh0)) ∘ S) shapes
          = imap (fun k sh0 => ((S i0 + k)%nat, sh0)) shapes) as Heq.
  { apply imap_ext. intros k x _. unfold compose. f_equal. lia. }
  rewrite Heq in H2 |- *. pose proof H2 as H2'.
  apply IH in H2' as (lm' & Hlm & Hd).
  eexists (_ :: lm'). rewrite <- app_assoc in Hlm. split; [exact Hlm|].
  constructor; [|done].
  eapply described_keeps; [intros k s0 m c0; apply scale_levels_keep|exact Hd1].
Qed.

(* the pyramid generation keeps what is described and describes what it
   appends *)
Lemma _scale_described uris lm out lmin dn adt mt c kw st r :
  Forall (described st) lm ->
  result (_scale uris lm out lmin dn adt mt c kw st) = Ok r ->
  Forall (described (final (_scale uris lm out lmin dn adt mt c kw st))) r.2.
Proof.
  intros Hlm. unfold _scale. intros H.
  apply bind_Ok in H as (uri0 & _ & H & -> & _). cbn [final lift] in H |- *.
  apply bind_Ok in H as (a & Ha & H & -> & _).
  apply open_array_Ok in Ha as (_ & Ha & _). rewrite Ha in *.
  apply bind_Ok in H as (sc & _ & H & -> & _). cbn [final lift] in H |- *.
  apply bind_Ok in H as (s' & H & Hr & -> & _).
  cbn in Hr. injection Hr as <-. cbn [final ret snd].
  pose proof H as H'.
  apply (scale_loop_described sc out dn adt mt c _ 0%nat) in H' as (lm' & -> & Hd).
  apply Forall_app. split; [|done].
  eapply Forall_impl; [exact Hlm|]. intros d.
  apply described_keeps. intros k s0 m c0.
  apply (scale_levels_keep sc out dn adt mt c _ k s0 m c0 (uris, lm, lmin + 1) st).
Qed.

(* a run that returns: the group it leaves, the descriptors of its levels
   entry, and the arrays they stand for *)
Lemma to_tiledb_Ok_summary cls inp out o st :
  result (to_tiledb cls inp out o st) = Ok tt ->
  exists rt lm,
    _ImageReaderType cls = Some rt /\
    final (to_tiledb cls inp out o st) !! out
    = Some (Group (group_meta (rt inp) lm ∪ (group_before st out).1)
                  ((group_before st out).2 ++ (member_of ∘ lm_uri <$> lm))) /\
    descriptors_of out
      (to_convert st out (range (level_min o) (level_max (rt inp) o))
       ++ match pyramid_kwargs o with
          | Some kw => seqZ (level_min o + 1) (Z.of_nat (length (scale_factors kw)))
          | None => []
          end)
      lm /\
    Forall (described (final (to_tiledb cls inp out o st))) lm.
Proof.
  intros H.
  apply to_tiledb_Ok_group in H as (rt & s & ul & Hrt & Hb & Hlp & Hul & Hf).
  exists rt, ul.2. split; [done|].
  destruct (before_levels_has_group _ _ _ _ Hb) as (Hg & _ & Harr).
  pose proof Hlp as Hlp1. pose proof Hlp as Hlp2.
  apply convert_levels_Ok_meta in Hlp1 as (lm & Hlm & Hu & Hd);
    [|apply NoDup_seqZ].
  apply convert_levels_described in Hlp2 as (lm2 & Hlm2 & Hdd).
  cbn [l_uris l_levels_meta app] in Hlm, Hu, Hlm2. rewrite Hlm in Hlm2. subst lm2.
  rewrite (to_convert_ext st) in Hd by (intros l _; apply Harr).
  set (mt := max_tiles_of (tiles o) (get_pixel_depth (compressor o))) in *.
  set (lp := for_each _ _ _ _) in *.
  set (phase := match pyramid_kwargs o with
                | Some kw =>
                    dim_names <- read_local "dim_names" (l_dim_names s) ;;
                    attr_dtype <- read_local "attr_dtype" (l_attr_dtype s) ;;
                    _scale (l_uris s) (l_levels_meta s) out (level_min o)
                           dim_names attr_dtype mt (compressor o) kw
                | None => ret (l_uris s, l_levels_meta s)
                end (final lp)) in *.
  assert (ul.1 = lm_uri <$> ul.2 /\
          descriptors_of out
            (to_convert st out (range (level_min o) (level_max (rt inp) o))
             ++ match pyramid_kwargs o with
                | Some kw =>
                    seqZ (level_min o + 1) (Z.of_nat (length (scale_factors kw)))
                | None => []
                end) ul.2 /\
          Forall (described (final phase)) ul.2) as (Hu' & Hd' & Hphase).
  { unfold phase in *. destruct (pyramid_kwargs o) as [kw|].
    - apply bind_Ok in Hul as (dn & Hdn & Hul & -> & _).
      apply bind_Ok in Hul as (adt & Hadt & Hul & -> & _).
      assert (final (read_local "dim_names" (l_dim_names s) (final lp)) = final lp)
        as Hf1 by (by destruct (l_dim_names s)).
      rewrite Hf1 in *.
      assert (final (read_local "attr_dtype" (l_attr_dtype s) (final lp)) = final lp)
        as Hf2 by (by destruct (l_attr_dtype s)).
      rewrite Hf2 in *.
      assert (Forall (described (final lp)) (l_levels_meta s)) as Hds
        by (by rewrite Hlm).
      pose proof (_scale_described _ _ _ _ _ _ _ _ _ _ _ Hds Hul) as Hsd.
      apply _scale_Ok_meta in Hul as (lm' & Hl2 & Hl1 & Hd').
      rewrite Hl2, Hl1 in *. rewrite Hlm, Hu, fmap_app.
      split; [done|]. split; [by apply descriptors_of_app|].
      by rewrite Hlm, Hu in Hsd.
    - cbn in Hul. injection Hul as <-. cbn [fst snd final ret].
      rewrite Hlm, Hu, app_nil_r. done. }
  rewrite Hf, lookup_insert_eq. split.
  { do 3 f_equal. by rewrite Hu', <- list_fmap_compose. }
  split; [done|].
  eapply Forall_impl; [exact Hphase|]. intros d (sc & m & c & Hd1 & Hrest).
  exists sc, m, c. split; [|done].
  rewrite lookup_insert_ne; [done|]. intros Heq. rewrite <- Heq in Hd1.
  assert (has_group out (group_before st out).1 (group_before st out).2 (final lp))
    as Hg1.
  { refine (proj1 (respects_for_each (has_group out _ _) (fun _ => True)
                     _ _ _ _ _ Hg)).
    intros level s0 _. eapply respects_weaken;
      [|apply convert_level_respects; [apply has_group_create|apply has_group_array]].
    done. }
  pose proof (proj1 (pyramid_phase_respects (has_group out _ _) out o mt s
                       (has_group_create out _ _) (has_group_array out _ _)
                       _ Hg1)) as Hg2.
  unfold has_group in Hg2. unfold phase in Hd1. congruence.
Qed.

End Described.

(** X6. After a run of to_tiledb that returns, the levels entry of the
    group metadata lists, in increasing order of level, one descriptor
    for each level of the requested range that had no array before the
    run, followed, with pyramid generation, by one descriptor for each
    scale factor, numbered from level_min + 1; the uri of a descriptor is
    l_{level}.tdb under the output path; and the run adds to the members
    of the group one member per descriptor, in the same order (the uri
    itself for a tiledb:// uri, else its base name, relative). *)
Theorem to_tiledb_levels_and_members `{E : Env} cls inp out o st rt :
  _ImageReaderType cls = Some rt ->
  result (to_tiledb cls inp out o st) = Ok tt ->
  exists meta lm,
    final (to_tiledb cls inp out o st) !! out
    = Some (Group meta ((group_before st out).2 ++ (member_of ∘ lm_uri <$> lm))) /\
    meta !! "levels" = Some (MLevels lm) /\
    descriptors_of out
      (to_convert st out (range (level_min o) (level_max (rt inp) o))
       ++ match pyramid_kwargs o with
          | Some kw => seqZ (level_min o + 1) (Z.of_nat (length (scale_factors kw)))
          | None => []
          end)
      lm.
Proof.
  intros Hrt H.
  apply to_tiledb_Ok_summary in H as (rt' & lm & Hrt' & Hf & Hd & _).
  rewrite Hrt in Hrt'. injection Hrt' as <-.
  eexists _, lm. split; [exact Hf|]. split; [|done].
  apply lookup_union_Some_l. unfold group_meta.
  by rewrite !lookup_insert_ne, lookup_insert_eq by done.
Qed.

(** X7. After a run of to_tiledb that returns, every descriptor of the
    levels entry of the group metadata describes an array that is
    stored: at the uri of the descriptor there is an array whose shape is
    the shape of the descriptor, whose dimension names spell its axes,
    and whose metadata gives its level number under the key level,
    whatever the level metadata of the reader says for that key. *)
Theorem to_tiledb_levels_described `{E : Env} cls inp out o st :
  result (to_tiledb cls inp out o st) = Ok tt ->
  exists meta members lm,
    final (to_tiledb cls inp out o st) !! out = Some (Group meta members) /\
    meta !! "levels" = Some (MLevels lm) /\
    Forall (described (final (to_tiledb cls inp out o st))) lm.
Proof.
  intros H.
  apply to_tiledb_Ok_summary in H as (rt & lm & _ & Hf & _ & Hd).
  eexists _, _, lm. split; [exact Hf|]. split; [|done].
  apply lookup_union_Some_l. unfold group_meta.
  by rewrite !lookup_insert_ne, lookup_insert_eq by done.
Qed.

(* ===================================================================== *)
(*  Further properties: a negative max_workers, and the export           *)
(* ===================================================================== *)

Section NegativeWorkers.

Context {E : Env}.

(* with a negative max_workers the thread pool cannot be made: the
   metadata of the level is written and no cell *)
Lemma write_level_negative reader level uri am ch mw st a m c md :
  mw < 0 ->
  st !! uri = Some (Array a m c) ->
  level_metadata reader level = Ok md ->
  write_level reader level uri am ch mw st
  = mkOutcome (Raise (ValueError "max_workers must be greater than 0"))
              (<[uri := Array a (<["level" := MInt level]> md ∪ m) c]> st)
              [EArrayMeta uri (<["level" := MInt level]> md)].
Proof.
  intros Hmw Hst Hmd. unfold write_level.
  rewrite (bind_step (open_array uri) _ st a)
    by (by rewrite (open_array_eq _ _ _ _ _ Hst)).
  rewrite (open_array_eq _ _ _ _ _ Hst). cbn [result final trace].
  rewrite Hmd, (bind_step (lift _) _ st md eq_refl).
  cbn [result final trace lift].
  set (md' := <["level" := MInt level]> md).
  rewrite (bind_step (array_meta_update uri md') _ st tt)
    by (by rewrite (array_meta_update_eq _ _ _ _ _ _ Hst)).
  rewrite (array_meta_update_eq _ _ _ _ _ _ Hst). cbn [result final trace].
  assert ((mw =? 0) = false) as -> by (apply Z.eqb_neq; lia).
  rewrite orb_true_r. cbn [negb].
  assert (ThreadPoolExecutor mw (<[uri := Array a (md' ∪ m) c]> st)
          = mkOutcome (Raise (ValueError "max_workers must be greater than 0"))
                      (<[uri := Array a (md' ∪ m) c]> st) []) as Hp.
  { unfold ThreadPoolExecutor. by destruct (Z.leb_spec mw 0); [|lia]. }
  rewrite (bind_Raise _ _ _ (ValueError "max_workers must be greater than 0"))
    by (by rewrite Hp).
  by rewrite Hp.
Qed.

Lemma write_level_negative_raises reader level uri am ch mw st :
  mw < 0 -> result (write_level reader level uri am ch mw st) <> Ok tt.
Proof.
  intros Hmw H. pose proof H as H'. unfold write_level in H'.
  apply bind_Ok in H' as (a & Ha & H' & _).
  apply bind_Ok in H' as (md & Hmd & _).
  apply open_array_Ok in Ha as ((m & c & Hst) & _).
  cbn in Hmd.
  by rewrite (write_level_negative reader level uri am ch mw st a m c md) in H.
Qed.

(* with a negative max_workers the loop returns only if it skips every
   level *)
Lemma convert_levels_negative reader out o pd mt l :
  max_workers o < 0 ->
  forall s st s',
    result (for_each l (convert_level reader out o pd mt) s st) = Ok s' ->
    forall level, level ∈ l -> is_array (st !! level_uri out level) = true.
Proof.
  intros Hmw. induction l as [|x l IH]; intros s st s' H level Hl.
  { by apply elem_of_nil in Hl. }
  cbn [for_each] in H. apply bind_Ok in H as (s1 & H1 & H2 & _).
  apply convert_level_Ok in H1 as [(Harr & -> & Heq)|(_ & _ & _ & H1)].
  - rewrite Heq in H2. cbn [final] in H2.
    apply elem_of_cons in Hl as [->|Hl]; [done|]. by eapply IH.
  - destruct H1 as (sh & am & adt & schema & _ & _ & _ & _ & Hw & _).
    by apply write_level_negative_raises in Hw.
Qed.

End NegativeWorkers.

(** X10. With a negative max_workers, to_tiledb cannot convert a level:
    a run returns only when every level of the requested range already
    had its array. For a level that it starts, the array is created, its
    metadata is written, and making the thread pool raises ValueError
    before any tile is read or written, so the array stays without
    cells. *)
Theorem to_tiledb_negative_workers `{E : Env} cls inp out o st rt :
  max_workers o < 0 ->
  _ImageReaderType cls = Some rt ->
  (result (to_tiledb cls inp out o st) = Ok tt ->
   forall level, level ∈ range (level_min o) (level_max (rt inp) o) ->
                 is_array (st !! level_uri out level) = true) /\
  (forall level uri am st' a m c md,
      st' !! uri = Some (Array a m c) ->
      level_metadata (rt inp) level = Ok md ->
      let w := write_level (rt inp) level uri am (chunked o) (max_workers o) st' in
      result w = Raise (ValueError "max_workers must be greater than 0") /\
      final w = <[uri := Array a (<["level" := MInt level]> md ∪ m) c]> st' /\
      trace w = [EArrayMeta uri (<["level" := MInt level]> md)]).
Proof.
  intros Hmw Hrt. split.
  - intros H level Hl.
    apply to_tiledb_Ok in H as (rt' & s & Hrt' & Hb & Hlp & _).
    rewrite Hrt in Hrt'. injection Hrt' as <-.
    destruct (before_levels_has_group _ _ _ _ Hb) as (_ & _ & Harr).
    rewrite <- Harr. by eapply convert_levels_negative.
  - intros level uri am st' a m c md Hst Hmd. cbn zeta.
    by rewrite (write_level_negative (rt inp) level uri am (chunked o)
                  (max_workers o) st' a m c md Hmw Hst Hmd).
Qed.

Lemma to_tiledb_negative_workers_witness :
  let o := with_mode Demo.defaults true (-1) in
  let st := Demo.interrupted_before_level_1 in
  (max_workers o < 0 /\
   _ImageReaderType (Demo.cls Demo.reader) = Some (fun _ => Demo.reader)) /\
  result (to_tiledb (E := Demo.env) (Demo.cls Demo.reader) "in.tiff" "out" o st)
  <> Ok tt.
Proof.
  intros o st.
  assert (max_workers o < 0) as Hmw by reflexivity.
  assert (_ImageReaderType (Demo.cls Demo.reader) = Some (fun _ => Demo.reader))
    as Hrt by reflexivity.
  split; [by split|].
  destruct (to_tiledb_negative_workers (E := Demo.env) (Demo.cls Demo.reader)
              "in.tiff" "out" o st (fun _ => Demo.reader) Hmw Hrt) as [Hall _].
  intros Hok.
  assert (is_array (st !! level_uri "out" 1) = false) as Hnone
    by (vm_compute; reflexivity).
  rewrite (Hall Hok 1) in Hnone; [discriminate Hnone|].
  apply elem_of_seqZ. vm_compute. split; [discriminate|reflexivity].
Defined.

Section ExportFacts.

Context {E : Env}.

(* what the writer is given by an export from level_min *)
Definition export_event (level_min : Z) (e : event) : Prop :=
  match e with
  | EWriterOpen _ | EWriteGroupMetadata _ => True
  | EWriteLevelImage level _ _ => level_min <= level
  | _ => False
  end.

Lemma respects_get_store I Q : respects I Q get_store.
Proof. intros st HI. by split. Qed.

Lemma from_tiledb_respects I cls inp out level_min :
  respects I (export_event level_min) (from_tiledb cls inp out level_min).
Proof.
  unfold from_tiledb. destruct (_ImageWriterType cls) as [W|]; [|apply respects_raise].
  apply respects_bind; [apply respects_get_store|]. intros st0.
  apply respects_bind; [apply respects_lift|]. intros slide.
  apply respects_bind; [by apply respects_emit|]. intros _.
  apply respects_bind; [by apply respects_emit|]. intros _.
  apply respects_bind; [apply respects_lift|]. intros writer.
  apply respects_bind; [|intros _; apply respects_ret].
  apply respects_for_each. intros level w _. unfold export_level.
  destruct (Z.ltb_spec level level_min); [apply respects_ret|].
  apply respects_bind; [apply respects_lift|]. intros image.
  apply respects_bind; [apply respects_lift|]. intros md.
  apply respects_bind; [by apply respects_emit|]. intros _.
  apply respects_lift.
Qed.

End ExportFacts.

(** X11. Whatever its outcome, from_tiledb leaves the store as it is, and
    all it does is to open the writer, to hand it the group metadata and
    to hand it images of levels that are at least level_min: a level
    below level_min is never handed to the writer, also in an export that
    fails. *)
Theorem from_tiledb_reads_only `{E : Env} cls inp out level_min st :
  final (from_tiledb cls inp out level_min st) = st /\
  Forall (export_event level_min) (trace (from_tiledb cls inp out level_min st)).
Proof.
  exact (from_tiledb_respects (fun st' => st' = st) cls inp out level_min st eq_refl).
Qed.

(* the demo image, ingested into a new output *)
Lemma to_tiledb_group_metadata_witness :
  (_ImageReaderType (Demo.cls Demo.reader) = Some (fun _ => Demo.reader) /\
   result (to_tiledb (E := Demo.env) (Demo.cls Demo.reader) "in.tiff" "out"
                     Demo.defaults ∅) = Ok tt) /\
  exists meta members,
    final (to_tiledb (E := Demo.env) (Demo.cls Demo.reader) "in.tiff" "out"
                     Demo.defaults ∅) !! "out" = Some (Group meta members) /\
    meta !! "axes" = Some (MStr "YXC").
Proof.
  assert (_ImageReaderType (Demo.cls Demo.reader) = Some (fun _ => Demo.reader))
    as Hrt by reflexivity.
  assert (result (to_tiledb (E := Demo.env) (Demo.cls Demo.reader) "in.tiff" "out"
                            Demo.defaults ∅) = Ok tt) as Hok
    by (vm_compute; reflexivity).
  split; [by split|].
  destruct (to_tiledb_group_metadata (E := Demo.env) (Demo.cls Demo.reader) "in.tiff"
              "out" Demo.defaults ∅ (fun _ => Demo.reader) Hrt Hok)
    as (meta & members & Hf & Haxes & _).
  exists meta, members. split; [exact Hf|exact Haxes].
Defined.

(* the demo image, resumed after level 0: the levels entry describes
   level 1 only, and one member is added *)
Lemma to_tiledb_levels_and_members_witness :
  let st := Demo.interrupted_before_level_1 in
  (_ImageReaderType (Demo.cls Demo.reader) = Some (fun _ => Demo.reader) /\
   result (to_tiledb (E := Demo.env) (Demo.cls Demo.reader) "in.tiff" "out"
                     Demo.defaults st) = Ok tt) /\
  exists meta lm,
    final (to_tiledb (E := Demo.env) (Demo.cls Demo.reader) "in.tiff" "out"
                     Demo.defaults st) !! "out"
    = Some (Group meta ((group_before st "out").2
                        ++ (member_of (E := Demo.env) ∘ lm_uri <$> lm))) /\
    meta !! "levels" = Some (MLevels lm) /\
    lm_level <$> lm = [1].
Proof.
  intros st.
  assert (_ImageReaderType (Demo.cls Demo.reader) = Some (fun _ => Demo.reader))
    as Hrt by reflexivity.
  assert (result (to_tiledb (E := Demo.env) (Demo.cls Demo.reader) "in.tiff" "out"
                            Demo.defaults st) = Ok tt) as Hok
    by (vm_compute; reflexivity).
  split; [by split|].
  destruct (to_tiledb_levels_and_members (E := Demo.env) (Demo.cls Demo.reader)
              "in.tiff" "out" Demo.defaults st (fun _ => Demo.reader) Hrt Hok)
    as (meta & lm & Hf & Hl & Hlv & _).
  exists meta, lm. split; [exact Hf|]. split; [exact Hl|].
  rewrite Hlv. vm_compute. reflexivity.
Defined.

Lemma to_tiledb_levels_described_witness :
  result (to_tiledb (E := Demo.env) (Demo.cls Demo.reader) "in.tiff" "out"
                    Demo.defaults ∅) = Ok tt /\
  exists meta members lm,
    final (to_tiledb (E := Demo.env) (Demo.cls Demo.reader) "in.tiff" "out"
                     Demo.defaults ∅) !! "out" = Some (Group meta members) /\
    meta !! "levels" = Some (MLevels lm) /\
    Forall (described (final (to_tiledb (E := Demo.env) (Demo.cls Demo.reader)
                                        "in.tiff" "out" Demo.defaults ∅))) lm.
Proof.
  assert (result (to_tiledb (E := Demo.env) (Demo.cls Demo.reader) "in.tiff" "out"
                            Demo.defaults ∅) = Ok tt) as Hok
    by (vm_compute; reflexivity).
  split; [exact Hok|].
  exact (to_tiledb_levels_described (E := Demo.env) (Demo.cls Demo.reader) "in.tiff"
           "out" Demo.defaults ∅ Hok).
Defined.


(* the demo image, ingested with a pyramid into its complete output *)
Lemma to_tiledb_pyramid_rerun_witness :
  let st := Demo.complete in
  let o := Demo.with_pyramid Demo.defaults (Demo.pyramid true) in
  (_ImageReaderType (Demo.cls Demo.reader) = Some (fun _ => Demo.reader) /\
   pyramid_kwargs o = Some (Demo.pyramid true) /\
   is_array (st !! "out") = false /\
   is_array (st !! level_uri "out" (level_min o)) = true) /\
  result (to_tiledb (E := Demo.env) (Demo.cls Demo.reader) "in.tiff" "out" o st)
  = Raise (UnboundLocalError "dim_names").
Proof.
  intros st o.
  assert (_ImageReaderType (Demo.cls Demo.reader) = Some (fun _ => Demo.reader))
    as Hrt by reflexivity.
  assert (is_array (st !! "out") = false) as Hout by (vm_compute; reflexivity).
  assert (is_array (st !! level_uri "out" (level_min o)) = true) as Harr
    by (vm_compute; reflexivity).
  split; [by repeat split|].
  exact (proj1 (to_tiledb_pyramid_rerun (E := Demo.env) (Demo.cls Demo.reader)
                  "in.tiff" "out" o st (fun _ => Demo.reader) (Demo.pyramid true)
                  Hrt eq_refl Hout Harr)).
Defined.

(* ===================================================================== *)
(*  Properties of TileDBOpenSlide                                        *)
(* ===================================================================== *)

Section SlideFacts.

Import Raised OpenSlide.

Variable str_lt : meta_value -> meta_value -> bool.

(* the level of an opened array whose metadata gives an int, or nothing *)
Definition level_number (a : OpenArray) : Z :=
  match level_of a with
  | MInt l => l
  | _ => 0
  end.

(* an array is stored at u, and its level metadata is an int or absent *)
Definition stored_level (st : gmap string object) (u : string) : Prop :=
  exists s m c, st !! u = Some (Array s m c) /\
                (m !! "level" = None \/ exists l, m !! "level" = Some (MInt l)).

(* the level that the metadata of the array of a member gives *)
Definition member_level (st : gmap string object) (group : string)
    (o : string * bool) : Z :=
  match st !! member_uri group o with
  | Some (Array _ m _) =>
      match m !! "level" with
      | Some (MInt l) => l
      | _ => 0
      end
  | _ => 0
  end.

(* what tiledb.open gives for a stored array *)
Definition the_array (st : gmap string object) (u : string) : OpenArray :=
  match st !! u with
  | Some (Array s m c) => mkOpenArray u s m c
  | _ => mkOpenArray u (mkSchema [] []) ∅ ∅
  end.

Definition by_level (p q : meta_value * OpenArray) : Prop :=
  level_number p.2 <= level_number q.2.

Definition int_keyed (p : meta_value * OpenArray) : Prop :=
  p.1 = MInt (level_number p.2).

Lemma amap_Returns {A B} (f : A -> answer B) (g : A -> B) l :
  (forall x, x ∈ l -> f x = Returns (g x)) -> amap f l = Returns (g <$> l).
Proof.
  induction l as [|x l IH]; intros H; [done|]. cbn.
  rewrite (H x) by (by left). cbn. rewrite IH; [done|].
  intros y Hy. apply H. by right.
Qed.

Lemma insert_level_int x l :
  int_keyed x -> Forall int_keyed l -> StronglySorted by_level l ->
  exists r, insert_level str_lt x l = Returns r /\ r ≡ₚ x :: l /\
            StronglySorted by_level r.
Proof.
  intros Hx. induction l as [|y l IH]; intros Hl Hs.
  { exists [x]. repeat split; [done|]. repeat constructor. }
  apply Forall_cons in Hl as [Hy Hl]. apply StronglySorted_cons in Hs as [Hyl Hs].
  cbn [insert_level]. unfold lt. rewrite Hx, Hy. cbn [abind].
  destruct (Z.ltb_spec (level_number y.2) (level_number x.2)) as [Hlt|Hge].
  - destruct (IH Hl Hs) as (r & -> & Hp & Hr). cbn [abind].
    exists (y :: r). split; [done|]. split.
    + rewrite Hp. apply Permutation_swap.
    + apply StronglySorted_cons. split; [|done]. rewrite Hp.
      constructor; [unfold by_level; lia|done].
  - exists (x :: y :: l). split; [done|]. split; [done|].
    apply StronglySorted_cons. split; [|by apply StronglySorted_cons].
    constructor; [done|]. eapply Forall_impl; [exact Hyl|].
    unfold by_level. intros z Hz. lia.
Qed.

Lemma sort_levels_int l :
  Forall int_keyed l ->
  exists r, sort_levels str_lt l = Returns r /\ r ≡ₚ l /\ StronglySorted by_level r.
Proof.
  induction l as [|x l IH]; intros Hl.
  { exists []. repeat split; [done|]. constructor. }
  apply Forall_cons in Hl as [Hx Hl]. destruct (IH Hl) as (r & Hr & Hp & Hs).
  cbn [sort_levels]. rewrite Hr. cbn [abind].
  destruct (insert_level_int x r Hx) as (r' & -> & Hp' & Hs'); [by rewrite Hp|done|].
  exists r'. split; [done|]. split; [by rewrite Hp', Hp|done].
Qed.

Lemma open_read_stored st u :
  stored_level st u ->
  open_read st u = Returns (the_array st u) /\
  int_keyed (level_of (the_array st u), the_array st u).
Proof.
  intros (s & m & c & Hu & Hl). unfold open_read, the_array, int_keyed, level_number.
  rewrite Hu. split; [done|]. unfold level_of. cbn.
  destruct Hl as [->|[l ->]]; done.
Qed.

(* opening the members and sorting them *)
Lemma from_group_uri_stored st uri meta members :
  st !! uri = Some (Group meta members) ->
  Forall (fun o => stored_level st (member_uri uri o)) members ->
  exists r,
    from_group_uri str_lt st uri = Returns (mkTileDBOpenSlide (snd <$> r)) /\
    r ≡ₚ (fun o => (level_of (the_array st (member_uri uri o)),
                    the_array st (member_uri uri o))) <$> members /\
    StronglySorted by_level r.
Proof.
  intros Hg Hm. unfold from_group_uri. rewrite Hg.
  rewrite (amap_Returns _ (fun o => (level_of (the_array st (member_uri uri o)),
                                     the_array st (member_uri uri o)))).
  2:{ intros o Ho. rewrite Forall_forall in Hm.
      by destruct (open_read_stored st _ (Hm o Ho)) as [-> _]. }
  cbn [abind].
  destruct (sort_levels_int
              ((fun o => (level_of (the_array st (member_uri uri o)),
                          the_array st (member_uri uri o))) <$> members))
    as (r & -> & Hp & Hs).
  { apply Forall_fmap. eapply Forall_impl; [exact Hm|]. intros o Ho.
    by destruct (open_read_stored st _ Ho) as [_ H]. }
  by exists r.
Qed.

Lemma member_level_eq st uri o :
  level_number (the_array st (member_uri uri o)) = member_level st uri o.
Proof.
  unfold level_number, level_of, the_array, member_level.
  destruct (st !! member_uri uri o) as [[|s m c]|]; cbn; try done.
  by destruct (m !! "level") as [[]|].
Qed.

End SlideFacts.

(** X12. When every member of the group is a stored array whose level
    metadata is an int or absent (absent counts as 0),
    TileDBOpenSlide.from_group_uri returns a slide whose level arrays
    are the arrays of the members, each once, as stored, in
    non-decreasing order of level, and whose level_count is the number
    of members. *)
Theorem from_group_uri_sorted str_lt st uri meta members :
  st !! uri = Some (Group meta members) ->
  Forall (fun o => stored_level st (OpenSlide.member_uri uri o)) members ->
  exists slide,
    OpenSlide.from_group_uri str_lt st uri = Raised.Returns slide /\
    OpenSlide._level_arrays slide
      ≡ₚ (fun o => the_array st (OpenSlide.member_uri uri o)) <$> members /\
    StronglySorted (fun a b => level_number a <= level_number b)
                   (OpenSlide._level_arrays slide) /\
    OpenSlide.level_count slide = Z.of_nat (length members).
Proof.
  intros Hg Hm.
  destruct (from_group_uri_stored str_lt st uri meta members Hg Hm)
    as (r & Hr & Hp & Hs).
  eexists. split; [exact Hr|]. cbn.
  assert (r.*2 ≡ₚ (fun o => the_array st (OpenSlide.member_uri uri o)) <$> members)
    as Hp2.
  { rewrite Hp, <- list_fmap_compose. done. }
  split; [exact Hp2|]. split.
  - eapply StronglySorted_fmap; [|exact Hs]. done.
  - unfold OpenSlide.level_count. cbn. by rewrite Hp2, length_fmap.
Qed.

(** X13. The slide does not depend on the order in which the group lists
    its members: when the members are stored arrays with int (or absent)
    level metadata and no two of them have the same level, listing them
    in any other order gives the same slide. *)
Theorem from_group_uri_any_order str_lt st uri meta members members' :
  st !! uri = Some (Group meta members) ->
  members' ≡ₚ members ->
  Forall (fun o => stored_level st (OpenSlide.member_uri uri o)) members ->
  NoDup (member_level st uri <$> members) ->
  OpenSlide.from_group_uri str_lt (<[uri := Group meta members']> st) uri
  = OpenSlide.from_group_uri str_lt st uri.
Proof.
  intros Hg Hperm Hm Hnd.
  set (st' := <[uri := Group meta members']> st).
  assert (forall o, o ∈ members ->
                    st' !! OpenSlide.member_uri uri o
                    = st !! OpenSlide.member_uri uri o) as Hsame.
  { intros o Ho. unfold st'. apply lookup_insert_ne. intros Heq.
    rewrite Forall_forall in Hm. destruct (Hm o Ho) as (s & m & c & Hu & _).
    congruence. }
  assert (Forall (fun o => stored_level st' (OpenSlide.member_uri uri o)) members')
    as Hm'.
  { rewrite Hperm. apply Forall_forall. intros o Ho.
    rewrite Forall_forall in Hm. unfold stored_level. rewrite (Hsame o Ho).
    by apply Hm. }
  destruct (from_group_uri_stored str_lt st uri meta members Hg Hm)
    as (r & -> & Hp & Hs).
  destruct (from_group_uri_stored str_lt st' uri meta members'
              (lookup_insert_eq _ _ _) Hm') as (r' & -> & Hp' & Hs').
  do 2 f_equal.
  set (f := fun o => (OpenSlide.level_of (the_array st (OpenSlide.member_uri uri o)),
                      the_array st (OpenSlide.member_uri uri o))) in *.
  assert (r' ≡ₚ f <$> members) as Hp''.
  { rewrite Hp', Hperm. apply Permutation_refl'. apply list_fmap_ext.
    intros i o Ho%list_elem_of_lookup_2. unfold f, the_array.
    by rewrite (Hsame o Ho). }
  f_equal. apply (StronglySorted_unique_strong by_level); [|done|done|].
  2:{ by rewrite Hp'', Hp. }
  intros x1 x2 H1 H2 Hle1 Hle2.
  rewrite Hp'' in H1. rewrite Hp in H2.
  apply list_elem_of_fmap in H1 as (o1 & -> & Ho1).
  apply list_elem_of_fmap in H2 as (o2 & -> & Ho2).
  unfold by_level, f in Hle1, Hle2. cbn in Hle1, Hle2.
  rewrite !member_level_eq in Hle1, Hle2.
  assert (member_level st uri o1 = member_level st uri o2) as Heq by lia.
  f_equal.
  apply list_elem_of_lookup in Ho1 as (i1 & Hi1).
  apply list_elem_of_lookup in Ho2 as (i2 & Hi2).
  assert (i1 = i2) as ->.
  { eapply (NoDup_lookup _ _ _ _ Hnd); rewrite list_lookup_fmap.
    - by rewrite Hi1.
    - by rewrite Hi2, Heq. }
  congruence.
Qed.

Section SlideDimensions.

Import Raised OpenSlide.

Lemma find_dim (dims : list Dim) name i d :
  list_find (fun d => dim_name d = name) dims = Some (i, d) ->
  index dims d = Returns i /\
  list_find (fun x => x = name) (dim_name <$> dims) = Some (i, name).
Proof.
  intros (Hi & Hn & Hfirst)%list_find_Some. split.
  - unfold index.
    destruct (list_find (fun d' => d' = d) dims) as [[j d']|] eqn:Hj.
    + apply list_find_Some in Hj as (Hj & -> & Hjf).
      destruct (Nat.lt_trichotomy j i) as [Hlt|[->|Hgt]]; [|done|].
      * by destruct (Hfirst j d Hj Hlt).
      * by destruct (Hjf i d Hi Hgt).
    + apply list_find_None in Hj. rewrite Forall_forall in Hj.
      destruct (Hj d); [by eapply list_elem_of_lookup_2|done].
  - apply list_find_Some. split; [by rewrite list_lookup_fmap, Hi; cbn; rewrite Hn|].
    split; [done|]. intros j y Hj Hlt.
    rewrite list_lookup_fmap in Hj.
    destruct (dims !! j) as [d'|] eqn:Hd'; [|done]. injection Hj as <-.
    by apply (Hfirst j d').
Qed.

Lemma find_dim_elem_of (dims : list Dim) name :
  name ∈ dim_name <$> dims ->
  exists i d, list_find (fun d => dim_name d = name) dims = Some (i, d).
Proof.
  intros (d & Hn & Hd)%list_elem_of_fmap.
  destruct (list_find_elem_of (fun d => dim_name d = name) dims d Hd) as [[i d'] H];
    [done|]. eauto.
Qed.

Lemma find_dim_not_elem_of (dims : list Dim) name :
  name ∉ dim_name <$> dims ->
  list_find (fun d => dim_name d = name) dims = None.
Proof.
  intros Hn. apply list_find_None, Forall_forall. intros d Hd Heq.
  apply Hn, list_elem_of_fmap. by exists d.
Qed.

Lemma dim_index_of (a : OpenArray) name :
  abind (dim a name) (index (domain (oa_schema a)))
  = if decide (name ∈ dim_name <$> domain (oa_schema a))
    then Returns (index_of name (dim_name <$> domain (oa_schema a)))
    else Raises (PyExn (TileDBError "invalid dimension name")).
Proof.
  unfold dim. case_decide as Hn.
  - destruct (find_dim_elem_of _ _ Hn) as (i & d & Hf). rewrite Hf. cbn.
    destruct (find_dim _ _ _ _ Hf) as [-> Hi]. unfold index_of. by rewrite Hi.
  - by rewrite (find_dim_not_elem_of _ _ Hn).
Qed.

End SlideDimensions.

(** X14. The (width, height) that TileDBOpenSlide computes for an array
    whose schema _get_schema made: the extent given for X and the extent
    given for Y (the first of each name), wherever they stand among the
    dimensions; when X, or else Y, is not among the names, asking for the
    dimension raises. *)
Theorem level_dimension_of_schema names shape max_tiles adt c schema a :
  _get_schema names shape max_tiles adt c = Ok schema ->
  OpenSlide.oa_schema a = schema ->
  OpenSlide.level_dimension a
  = if decide ("X" ∈ names) then
      if decide ("Y" ∈ names)
      then Raised.Returns (shape !!! index_of "X" names, shape !!! index_of "Y" names)
      else Raised.Raises (Raised.PyExn (TileDBError "invalid dimension name"))
    else Raised.Raises (Raised.PyExn (TileDBError "invalid dimension name")).
Proof.
  intros Hs Ha. destruct (get_schema_shape _ _ _ _ _ _ Hs) as [Hshape Hnames].
  unfold OpenSlide.level_dimension.
  pose proof (dim_index_of a "X") as HX. pose proof (dim_index_of a "Y") as HY.
  rewrite Ha, Hnames in HX, HY. rewrite Ha, Hshape. revert HX HY.
  destruct (decide ("X" ∈ names)) as [Hx|Hx];
    destruct (decide ("Y" ∈ names)) as [Hy|Hy]; intros HX HY;
    destruct (OpenSlide.dim a "X") as [dx|ex]; cbn [Raised.abind] in HX |- *;
    try discriminate HX; rewrite ?HX; cbn [Raised.abind]; try done;
    destruct (OpenSlide.dim a "Y") as [dy|ey]; cbn [Raised.abind] in HY |- *;
    try discriminate HY; rewrite ?HY; cbn [Raised.abind]; try done.
  all: try (injection HX as ->); try (injection HY as ->); done.
Qed.

(* a group of two levels, listed in the reverse order *)
Module SlideDemo.

Definition schema_of (shape : list Z) : ArraySchema :=
  default (mkSchema [] [])
          (match _get_schema ["C"; "Y"; "X"] shape (max_tiles_of ∅ 1)
                             NumPy.uint8 (ZstdFilter 0) with
           | Ok s => Some s
           | Raise _ => None
           end).

Definition store : gmap string object :=
  <["g" := Group ∅ [("l_1.tdb", true); ("l_0.tdb", true)]]>
    (<["g/l_0.tdb" := Array (schema_of [3; 40; 60]) {["level" := MInt 0]} ∅]>
       (<["g/l_1.tdb" := Array (schema_of [3; 20; 30]) {["level" := MInt 1]} ∅]> ∅)).

Definition str_lt (a b : meta_value) : bool := false.

End SlideDemo.

Lemma slide_demo_stored :
  Forall (fun o => stored_level SlideDemo.store (OpenSlide.member_uri "g" o))
         [("l_1.tdb", true); ("l_0.tdb", true)].
Proof.
  repeat constructor.
  - eexists _, _, _. split; [reflexivity|]. right. by eexists.
  - eexists _, _, _. split; [reflexivity|]. right. by eexists.
Qed.

Lemma from_group_uri_sorted_witness :
  (SlideDemo.store !! "g" = Some (Group ∅ [("l_1.tdb", true); ("l_0.tdb", true)]) /\
   Forall (fun o => stored_level SlideDemo.store (OpenSlide.member_uri "g" o))
          [("l_1.tdb", true); ("l_0.tdb", true)]) /\
  exists slide,
    OpenSlide.from_group_uri SlideDemo.str_lt SlideDemo.store "g"
    = Raised.Returns slide /\
    OpenSlide.level_count slide = 2.
Proof.
  split; [split; [reflexivity|exact slide_demo_stored]|].
  destruct (from_group_uri_sorted SlideDemo.str_lt SlideDemo.store "g" ∅
              [("l_1.tdb", true); ("l_0.tdb", true)] eq_refl slide_demo_stored)
    as (slide & Hr & _ & _ & Hc).
  exists slide. split; [exact Hr|exact Hc].
Defined.

Lemma from_group_uri_any_order_witness :
  let members := [("l_1.tdb", true); ("l_0.tdb", true)] in
  let members' := [("l_0.tdb", true); ("l_1.tdb", true)] in
  (SlideDemo.store !! "g" = Some (Group ∅ members) /\
   members' ≡ₚ members /\
   Forall (fun o => stored_level SlideDemo.store (OpenSlide.member_uri "g" o)) members /\
   NoDup (member_level SlideDemo.store "g" <$> members)) /\
  OpenSlide.from_group_uri SlideDemo.str_lt
    (<["g" := Group ∅ members']> SlideDemo.store) "g"
  = OpenSlide.from_group_uri SlideDemo.str_lt SlideDemo.store "g".
Proof.
  intros members members'.
  assert (members' ≡ₚ members) as Hp by apply Permutation_swap.
  assert (NoDup (member_level SlideDemo.store "g" <$> members)) as Hnd.
  { apply (bool_decide_unpack (NoDup [1; 0])). by vm_compute. }
  split; [split; [reflexivity|split; [exact Hp|split; [exact slide_demo_stored|exact Hnd]]]|].
  exact (from_group_uri_any_order SlideDemo.str_lt SlideDemo.store "g" ∅ members
           members' eq_refl Hp slide_demo_stored Hnd).
Defined.

Lemma level_dimension_of_schema_witness :
  let a := the_array SlideDemo.store "g/l_0.tdb" in
  (_get_schema ["C"; "Y"; "X"] [3; 40; 60] (max_tiles_of ∅ 1) NumPy.uint8
               (ZstdFilter 0) = Ok (SlideDemo.schema_of [3; 40; 60]) /\
   OpenSlide.oa_schema a = SlideDemo.schema_of [3; 40; 60]) /\
  OpenSlide.level_dimension a = Raised.Returns (60, 40).
Proof.
  intros a.
  assert (_get_schema ["C"; "Y"; "X"] [3; 40; 60] (max_tiles_of ∅ 1) NumPy.uint8
                      (ZstdFilter 0) = Ok (SlideDemo.schema_of [3; 40; 60])) as Hs
    by (vm_compute; reflexivity).
  split; [split; [exact Hs|reflexivity]|].
  rewrite (level_dimension_of_schema _ _ _ _ _ _ a Hs eq_refl).
  reflexivity.
Defined.

(* ===================================================================== *)
(*  What to_tiledb writes, as TileDBOpenSlide opens it                   *)
(* ===================================================================== *)

Section RoundTrip.

Context {E : Env}.

Lemma StronglySorted_seqZ m n : StronglySorted Z.lt (seqZ m n).
Proof.
  destruct (Z.le_gt_cases n 0) as [Hn|Hn]; [rewrite seqZ_nil by done; constructor|].
  rewrite <- (Z2Nat.id n) by lia. generalize (Z.to_nat n). clear Hn n. intros n.
  revert m. induction n as [|n IH]; intros m; [constructor|].
  rewrite seqZ_cons by lia.
  replace (Z.pred (Z.of_nat (S n))) with (Z.of_nat n) by lia.
  constructor; [apply IH|].
  apply Forall_forall. intros x Hx%elem_of_seqZ. lia.
Qed.

Lemma StronglySorted_filter {A} (R : relation A) (P : A -> Prop)
    `{!forall x, Decision (P x)} (l : list A) :
  StronglySorted R l -> StronglySorted R (filter P l).
Proof.
  induction 1 as [|x l Hs IH Hx]; [constructor|].
  rewrite filter_cons. case_decide; [|done]. constructor; [done|].
  apply Forall_forall. intros y [_ Hy]%list_elem_of_filter.
  rewrite Forall_forall in Hx. by apply Hx.
Qed.

(* the levels that a run describes are in increasing order *)
Lemma described_levels_sorted reader st out o :
  StronglySorted Z.lt
    (to_convert st out (range (level_min o) (level_max reader o))
     ++ match pyramid_kwargs o with
        | Some kw => seqZ (level_min o + 1) (Z.of_nat (length (scale_factors kw)))
        | None => []
        end).
Proof.
  destruct (pyramid_kwargs o) as [kw|] eqn:Hkw.
  - rewrite range_pyramid by (by rewrite Hkw).
    apply StronglySorted_app_2.
    + intros x1 x2 [_ ->%list_elem_of_singleton]%list_elem_of_filter
             Hx2%elem_of_seqZ. lia.
    + apply StronglySorted_filter. repeat constructor.
    + apply StronglySorted_seqZ.
  - rewrite app_nil_r. apply StronglySorted_filter, StronglySorted_seqZ.
Qed.

Lemma sorted_by_key {A} (k : A -> Z) (l : list A) :
  StronglySorted Z.lt (k <$> l) ->
  StronglySorted (fun x y => k x <= k y) l /\ NoDup (k <$> l).
Proof.
  induction l as [|x l IH]; cbn; [split; constructor|].
  intros [Hx Hs]%StronglySorted_cons. destruct (IH Hs) as [IH1 IH2].
  rewrite Forall_fmap in Hx. split.
  - constructor; [done|]. eapply Forall_impl; [exact Hx|]. cbn. intros; lia.
  - constructor; [|done]. intros (y & Hy & Hin)%list_elem_of_fmap.
    rewrite Forall_forall in Hx. specialize (Hx y Hin). cbn in Hx. lia.
Qed.

End RoundTrip.

(** X17. What to_tiledb writes is what TileDBOpenSlide.from_group_uri
    opens. After a run of to_tiledb that returns on a new output, with
    level uris that are not tiledb:// uris and that the group resolves
    from their base names, from_group_uri on the output returns a slide
    whose level arrays are, in this order, the arrays of the descriptors
    of the levels entry: array k has the uri, the shape and the level
    number of descriptor k. *)
Theorem to_tiledb_then_open_slide `{E : Env} str_lt cls inp out o st :
  st !! out = None ->
  (forall l, urlparse_scheme (level_uri out l) <> "tiledb") ->
  (forall l, path_join out (basename (level_uri out l)) = level_uri out l) ->
  result (to_tiledb cls inp out o st) = Ok tt ->
  exists slide meta members lm,
    OpenSlide.from_group_uri str_lt (final (to_tiledb cls inp out o st)) out
    = Raised.Returns slide /\
    final (to_tiledb cls inp out o st) !! out = Some (Group meta members) /\
    meta !! "levels" = Some (MLevels lm) /\
    Forall2 (fun a d => OpenSlide.oa_uri a = lm_uri d /\
                        Schema.shape (OpenSlide.oa_schema a) = lm_shape d /\
                        OpenSlide.level_of a = MInt (lm_level d))
            (OpenSlide._level_arrays slide) lm.
Proof.
  intros Hnone Hscheme Hbase H.
  apply to_tiledb_Ok_summary in H as (rt & lm & Hrt & Hf & [Hlv Huri] & Hd).
  set (fin := final (to_tiledb cls inp out o st)) in *.
  assert (group_before st out = (∅, [])) as Hgb
    by (unfold group_before; by rewrite Hnone).
  rewrite Hgb in Hf. cbn [fst snd app] in Hf.
  set (members := member_of ∘ lm_uri <$> lm) in *.
  rewrite Forall_forall in Huri, Hd.
  assert (forall d, d ∈ lm ->
                    OpenSlide.member_uri out (member_of (lm_uri d)) = lm_uri d)
    as Hmu.
  { intros d Hin. rewrite (Huri d Hin). unfold member_of.
    rewrite decide_False by apply Hscheme. cbn. apply Hbase. }
  assert (forall d, d ∈ lm ->
                    let a := the_array fin (lm_uri d) in
                    OpenSlide.oa_uri a = lm_uri d /\
                    Schema.shape (OpenSlide.oa_schema a) = lm_shape d /\
                    OpenSlide.level_of a = MInt (lm_level d) /\
                    level_number a = lm_level d /\
                    stored_level fin (lm_uri d)) as Harr.
  { intros d Hin. destruct (Hd d Hin) as (s & m & c & Hl & Hs & _ & Hm).
    cbn zeta. unfold the_array, level_number, OpenSlide.level_of, stored_level.
    rewrite Hl. cbn. rewrite Hm. cbn. repeat split; try done.
    exists s, m, c. split; [done|]. right. by eexists. }
  assert (Forall (fun o0 => stored_level fin (OpenSlide.member_uri out o0)) members)
    as Hm.
  { unfold members. apply Forall_fmap, Forall_forall. intros d Hin. cbn.
    rewrite (Hmu d Hin). by apply Harr. }
  destruct (from_group_uri_stored str_lt fin out _ members Hf Hm)
    as (r & Hr & Hp & Hs).
  set (f := fun o0 => (OpenSlide.level_of (the_array fin (OpenSlide.member_uri out o0)),
                       the_array fin (OpenSlide.member_uri out o0))) in *.
  assert ((fun p : meta_value * OpenSlide.OpenArray => level_number p.2)
            <$> (f <$> members) = lm_level <$> lm) as Hkeys.
  { unfold members. rewrite <- !list_fmap_compose. apply list_fmap_ext.
    intros i d Hin%list_elem_of_lookup_2. cbn. rewrite (Hmu d Hin).
    by apply Harr. }
  destruct (sorted_by_key (fun p : meta_value * OpenSlide.OpenArray => level_number p.2)
              (f <$> members)) as [Hsorted Hnd].
  { rewrite Hkeys, Hlv. apply described_levels_sorted. }
  assert (r = f <$> members) as ->.
  { apply (StronglySorted_unique_strong by_level); [|done|done|done].
    intros x1 x2 H1 H2 Hle1 Hle2. rewrite Hp in H1.
    apply list_elem_of_lookup in H1 as (i1 & Hi1).
    apply list_elem_of_lookup in H2 as (i2 & Hi2).
    assert (i1 = i2) as ->; [|congruence].
    eapply (NoDup_lookup _ _ _ _ Hnd); rewrite list_lookup_fmap.
    - by rewrite Hi1.
    - rewrite Hi2. cbn. f_equal. unfold by_level in Hle1, Hle2. lia. }
  eexists _, _, _, lm. split; [exact Hr|]. split; [exact Hf|]. split.
  { apply lookup_union_Some_l. unfold group_meta.
    by rewrite !lookup_insert_ne, lookup_insert_eq by done. }
  cbn [OpenSlide._level_arrays]. unfold members.
  rewrite <- !list_fmap_compose. apply Forall2_fmap_l, Forall_Forall2_diag.
  apply Forall_forall. intros d Hin. cbn. rewrite (Hmu d Hin).
  destruct (Harr d Hin) as (H1 & H2 & H3 & _). done.
Qed.

(* the demo image, with the base names of the uris under out/ *)
Module RoundTripDemo.

(* os.path.basename on a uri out/name, where name has no slash *)
Definition basename (uri : string) : string :=
  match uri with
  | String _ (String _ (String _ (String _ name))) => name
  | _ => uri
  end.

Definition env : Env :=
  mkEnv (@get_pixel_depth Demo.env) (@version Demo.env) (@FMT_VERSION Demo.env)
        (@DATASET_TYPE Demo.env) (@resample Demo.env) (@schedule Demo.env)
        (@urlparse_scheme Demo.env) basename (@TileDBOpenSlide Demo.env).

End RoundTripDemo.

Lemma to_tiledb_then_open_slide_witness :
  let run := to_tiledb (E := RoundTripDemo.env) (Demo.cls Demo.reader) "in.tiff" "out"
                       Demo.defaults ∅ in
  ((∅ : gmap string object) !! "out" = None /\
   (forall l, urlparse_scheme (Env := RoundTripDemo.env) (level_uri "out" l)
              <> "tiledb") /\
   (forall l, path_join "out" (basename (Env := RoundTripDemo.env) (level_uri "out" l))
              = level_uri "out" l) /\
   result run = Ok tt) /\
  exists slide,
    OpenSlide.from_group_uri SlideDemo.str_lt (final run) "out" = Raised.Returns slide /\
    OpenSlide.oa_uri <$> OpenSlide._level_arrays slide
    = ["out/l_0.tdb"; "out/l_1.tdb"].
Proof.
  intros run. subst run.
  assert (forall l, urlparse_scheme (Env := RoundTripDemo.env) (level_uri "out" l)
                    <> "tiledb") as Hscheme by (intros l; discriminate).
  assert (forall l, path_join "out"
                      (basename (Env := RoundTripDemo.env) (level_uri "out" l))
                    = level_uri "out" l) as Hbase by (intros l; reflexivity).
  assert (result (to_tiledb (E := RoundTripDemo.env) (Demo.cls Demo.reader) "in.tiff"
                            "out" Demo.defaults ∅) = Ok tt) as Hok
    by (vm_compute; reflexivity).
  assert ((∅ : gmap string object) !! "out" = None) as Hnone by apply lookup_empty.
  split; [split; [exact Hnone|split; [exact Hscheme|split; [exact Hbase|exact Hok]]]|].
  destruct (to_tiledb_then_open_slide (E := RoundTripDemo.env) SlideDemo.str_lt
              (Demo.cls Demo.reader) "in.tiff" "out" Demo.defaults ∅
              Hnone Hscheme Hbase Hok) as (slide & meta & members & lm & Hr & Hg & Hl & Hall).
  exists slide. split; [exact Hr|].
  assert (Demo.levels_at
            (final (to_tiledb (E := RoundTripDemo.env) (Demo.cls Demo.reader) "in.tiff"
                              "out" Demo.defaults ∅)) "out"
          = Some (MLevels [mkLevelMeta "out/l_0.tdb" 0 "CYX" [2; 4; 3];
                           mkLevelMeta "out/l_1.tdb" 1 "CYX" [2; 2; 2]])) as Hlv
    by (vm_compute; reflexivity).
  unfold Demo.levels_at in Hlv. rewrite Hg, Hl in Hlv. injection Hlv as ->.
  apply Forall2_cons_inv_r in Hall as (a0 & l0 & (H0 & _) & Hall & ->).
  apply Forall2_cons_inv_r in Hall as (a1 & l1 & (H1 & _) & Hall & ->).
  apply Forall2_nil_inv_r in Hall as ->.
  cbn. by rewrite H0, H1.
Defined.

(* ===================================================================== *)
(*  Properties of the wrappers                                           *)
(* ===================================================================== *)

Section WrapperFacts.

Import Raised Wrappers.

(* the converter class that from_bioimg turns to *)
Definition selected (M : Module_) (converter : Converters) : imported :=
  match converter with
  | OMETIFF => OMETiffConverter M
  | OMEZARR => OMEZarrConverter M
  | _ => OpenSlideConverter M
  end.

(* the keywords that from_bioimg gives to to_tiledb itself *)
Definition own_keywords : list string :=
  ["source"; "output_path"; "log"; "exclude_metadata"; "tile_scale"; "reader_kwargs"].

Lemma from_bioimg_selected M src dest converter verbose em ts kwargs rk1 rk2 :
  setitem (default (VDict ∅) (kwargs !! "reader_kwargs")) "source_config"
          (default VNone (kwargs !! "source_config")) = Returns rk1 ->
  setitem rk1 "dest_config"
          (default (default VNone (kwargs !! "source_config"))
                   (delete "source_config" kwargs !! "dest_config")) = Returns rk2 ->
  let kw := delete "dest_config" (delete "source_config" kwargs) in
  let kw' := if decide (is_Some (kw !! "reader_kwargs"))
             then <["reader_kwargs" := rk2]> kw else kw in
  from_bioimg M src dest converter verbose em ts kwargs
  = run_imported (selected M converter)
      (match converter with
       | OMETIFF => "Converting OME-TIFF file"
       | OMEZARR => "Converting OME-Zarr file"
       | _ => "Converting Openslide"
       end)
      (fun c => call (to_tiledb c)
                  [("source", VStr src); ("output_path", VStr dest);
                   ("log", get_logger_wrapper M verbose);
                   ("exclude_metadata", VBool em); ("tile_scale", VInt ts);
                   ("reader_kwargs", rk2)] kw').
Proof.
  intros H1 H2. unfold from_bioimg. rewrite H1, H2. by destruct converter.
Qed.

End WrapperFacts.

(** X15. from_bioimg cannot be given reader_kwargs: it reads the keyword
    with kwargs.get, which leaves it in kwargs, and passes both
    reader_kwargs=... and **kwargs to to_tiledb. Whenever the caller
    gives a reader_kwargs keyword the call raises, and no converter is
    entered: TypeError (the keyword given twice, or a value that is no
    dict), or the import error of a converter that is not available. *)
Theorem from_bioimg_reader_kwargs M src dest converter verbose em ts kwargs :
  is_Some (kwargs !! "reader_kwargs") ->
  (Wrappers.from_bioimg M src dest converter verbose em ts kwargs).2
  = Raised.Raises Raised.TypeError \/
  exists name,
    selected M converter = Wrappers.Failed name /\
    (Wrappers.from_bioimg M src dest converter verbose em ts kwargs).2
    = Raised.Raises (Raised.ImportError name).
Proof.
  intros [rk Hrk].
  destruct (Wrappers.setitem (default (Wrappers.VDict ∅) (kwargs !! "reader_kwargs"))
              "source_config"
              (default Wrappers.VNone (kwargs !! "source_config")))
    as [rk1|e] eqn:H1.
  2:{ left. unfold Wrappers.from_bioimg. rewrite H1.
      rewrite Hrk in H1. by destruct rk. }
  assert (exists d, rk1 = Wrappers.VDict d) as [d ->].
  { rewrite Hrk in H1. destruct rk; try done. injection H1 as <-. by eexists. }
  rewrite (from_bioimg_selected M src dest converter verbose em ts kwargs _ _
             H1 eq_refl).
  cbn zeta.
  rewrite decide_True by (by rewrite !lookup_delete_ne, Hrk).
  destruct (selected M converter) as [name|c]; cbn.
  - right. by exists name.
  - left. unfold Wrappers.call. rewrite decide_False; [done|].
    intros Hall. rewrite Forall_forall in Hall.
    specialize (Hall "reader_kwargs"). rewrite lookup_insert_eq in Hall.
    cbn in Hall. rewrite !elem_of_cons in Hall. naive_solver.
Qed.

Lemma from_bioimg_reader_kwargs_witness :
  let c := Wrappers.mkConverterClass (fun _ => Raised.Returns Wrappers.VNone)
                                     (fun _ => Raised.Returns Wrappers.VNone) in
  let M := Wrappers.mkModule (Wrappers.Imported c) (Wrappers.Imported c)
                             (Wrappers.Imported c) (fun _ => Wrappers.VObj "logger") in
  let kwargs : gmap string Wrappers.value :=
    {["reader_kwargs" := Wrappers.VDict ∅]} in
  is_Some (kwargs !! "reader_kwargs") /\
  (Wrappers.from_bioimg M "in.tiff" "out" Wrappers.OMETIFF false false 1 kwargs).2
  = Raised.Raises Raised.TypeError.
Proof.
  intros c M kwargs.
  assert (is_Some (kwargs !! "reader_kwargs")) as Hrk by (by eexists).
  split; [exact Hrk|].
  destruct (from_bioimg_reader_kwargs M "in.tiff" "out" Wrappers.OMETIFF false false 1
              kwargs Hrk) as [H|(name & Hsel & _)]; [exact H|discriminate Hsel].
Defined.

(** X16. When the caller gives no reader_kwargs, the selected converter
    is available and kwargs repeats none of the keywords that from_bioimg
    sets itself, from_bioimg answers what to_tiledb of that converter
    answers on these arguments: reader_kwargs is a dict of exactly
    source_config (None when not given) and dest_config, which is the
    source config when no dest_config is given; the two configs are not
    passed on at the top level; source and output_path are src and dest;
    every other keyword of the caller is passed on as it is. *)
Theorem from_bioimg_configs M src dest converter verbose em ts kwargs c :
  selected M converter = Wrappers.Imported c ->
  Forall (fun k => kwargs !! k = None) own_keywords ->
  let source_config := default Wrappers.VNone (kwargs !! "source_config") in
  let dest_config := default source_config (kwargs !! "dest_config") in
  exists args,
    (Wrappers.from_bioimg M src dest converter verbose em ts kwargs).2
    = Wrappers.to_tiledb c args /\
    args !! "reader_kwargs"
    = Some (Wrappers.VDict (<["dest_config" := dest_config]>
                              (<["source_config" := source_config]> ∅))) /\
    args !! "source_config" = None /\ args !! "dest_config" = None /\
    args !! "source" = Some (Wrappers.VStr src) /\
    args !! "output_path" = Some (Wrappers.VStr dest) /\
    forall k, k ∉ own_keywords -> k <> "source_config" -> k <> "dest_config" ->
              args !! k = kwargs !! k.
Proof.
  intros Hsel Hown. cbn zeta.
  assert (forall k, k ∈ own_keywords -> kwargs !! k = None) as Hnone
    by (by apply Forall_forall).
  assert (kwargs !! "reader_kwargs" = None) as Hrk
    by (apply Hnone; unfold own_keywords; set_solver).
  set (sc := default Wrappers.VNone (kwargs !! "source_config")).
  set (dc := default sc (kwargs !! "dest_config")).
  assert (delete "source_config" kwargs !! "dest_config" = kwargs !! "dest_config")
    as Hdc by (by rewrite lookup_delete_ne).
  rewrite (from_bioimg_selected M src dest converter verbose em ts kwargs
             (Wrappers.VDict (<["source_config" := sc]> ∅))
             (Wrappers.VDict (<["dest_config" := dc]> (<["source_config" := sc]> ∅)))).
  2:{ by rewrite Hrk. }
  2:{ cbn. by rewrite Hdc. }
  cbn zeta. rewrite Hsel. cbn [Wrappers.run_imported snd].
  set (kw := delete "dest_config" (delete "source_config" kwargs)).
  assert (forall k, k ∈ own_keywords -> kw !! k = None) as Hkw.
  { intros k Hk. unfold kw.
    destruct (decide (k = "dest_config")) as [->|?]; [by rewrite lookup_delete_eq|].
    rewrite lookup_delete_ne by done.
    destruct (decide (k = "source_config")) as [->|?]; [by rewrite lookup_delete_eq|].
    rewrite lookup_delete_ne by done. by apply Hnone. }
  rewrite decide_False
    by (rewrite (Hkw "reader_kwargs") by (unfold own_keywords; set_solver);
        by intros [? [=]]).
  unfold Wrappers.call. rewrite decide_True.
  2:{ apply Forall_forall. intros k Hk. by apply Hkw. }
  eexists. split; [reflexivity|].
  assert (kw !! "source_config" = None) as Hs.
  { unfold kw. by rewrite lookup_delete_ne, lookup_delete_eq. }
  assert (kw !! "dest_config" = None) as Hd.
  { unfold kw. by rewrite lookup_delete_eq. }
  cbn [list_to_map foldr uncurry fst snd].
  repeat split.
  - apply lookup_union_Some_l.
    by rewrite !lookup_insert_ne, lookup_insert_eq by done.
  - apply lookup_union_None. split; [|done].
    by rewrite !lookup_insert_ne, lookup_empty by done.
  - apply lookup_union_None. split; [|done].
    by rewrite !lookup_insert_ne, lookup_empty by done.
  - apply lookup_union_Some_l. by rewrite lookup_insert_eq.
  - apply lookup_union_Some_l. by rewrite lookup_insert_ne, lookup_insert_eq by done.
  - intros k Hk Hks Hkd. unfold own_keywords in Hk.
    rewrite !elem_of_cons, elem_of_nil in Hk.
    rewrite lookup_union_r.
    + unfold kw. by rewrite !lookup_delete_ne.
    + rewrite !lookup_insert_ne, lookup_empty; [done|naive_solver..].
Qed.

Lemma from_bioimg_configs_witness :
  let c := Wrappers.mkConverterClass
             (fun args => Raised.Returns (default Wrappers.VNone
                                                  (args !! "reader_kwargs")))
             (fun _ => Raised.Returns Wrappers.VNone) in
  let M := Wrappers.mkModule (Wrappers.Imported c) (Wrappers.Failed "zarr")
                             (Wrappers.Failed "openslide")
                             (fun _ => Wrappers.VObj "logger") in
  let kwargs : gmap string Wrappers.value :=
    <["source_config" := Wrappers.VObj "cfg"]> {["chunked" := Wrappers.VBool true]} in
  (selected M Wrappers.OMETIFF = Wrappers.Imported c /\
   Forall (fun k => kwargs !! k = None) own_keywords) /\
  (Wrappers.from_bioimg M "in.tiff" "out" Wrappers.OMETIFF false false 1 kwargs).2
  = Raised.Returns
      (Wrappers.VDict (<["dest_config" := Wrappers.VObj "cfg"]>
                         (<["source_config" := Wrappers.VObj "cfg"]> ∅))).
Proof.
  intros c M kwargs.
  assert (Forall (fun k => kwargs !! k = None) own_keywords) as Hown.
  { unfold own_keywords. repeat constructor. }
  split; [split; [reflexivity|exact Hown]|].
  destruct (from_bioimg_configs M "in.tiff" "out" Wrappers.OMETIFF false false 1
              kwargs c eq_refl Hown) as (args & -> & Hrk & _).
  cbn [Wrappers.to_tiledb c]. unfold c. cbn [Wrappers.to_tiledb].
  rewrite Hrk. reflexivity.
Defined.

(* ===================================================================== *)
(*  The schema that the tests expect                                     *)
(* ===================================================================== *)

(** X18. For a compressor that is not WebP and a CYX image of uint8 with
    positive extents and fewer than 2^63 cells, the schema that the test
    helper get_schema expects is the schema that _get_schema makes with
    the default tiles exactly when the number of cells is between 2^16
    and 2^32 - 1: the helper fixes the index dtype to uint32, and
    _get_schema takes the smallest one that holds the number of cells. *)
Theorem tests_get_schema_agrees x y c comp :
  (forall f, comp <> WebpFilter f) ->
  0 < c -> 0 < y -> 0 < x -> c * y * x < 2 ^ 63 ->
  (_get_schema ["C"; "Y"; "X"] [c; y; x] (max_tiles_of ∅ 1) NumPy.uint8 comp
   = Ok (TestHelpers.get_schema x y c comp)
   <-> 65536 <= c * y * x <= 4294967295).
Proof.
  intros Hw Hc Hy Hx Hsmall.
  assert (max_tiles_of ∅ 1 !! "C" = Some Inf) as HC by (vm_compute; reflexivity).
  assert (max_tiles_of ∅ 1 !! "Y" = Some (Fin 1024)) as HY
    by (vm_compute; reflexivity).
  assert (max_tiles_of ∅ 1 !! "X" = Some (Fin 1024)) as HX
    by (vm_compute; reflexivity).
  assert (_get_schema ["C"; "Y"; "X"] [c; y; x] (max_tiles_of ∅ 1) NumPy.uint8 comp
          = Ok (mkSchema [mkDim "C" (0, c - 1) c (index_dtype [c; y; x]);
                          mkDim "Y" (0, y - 1) (Py.min y 1024) (index_dtype [c; y; x]);
                          mkDim "X" (0, x - 1) (Py.min x 1024) (index_dtype [c; y; x])]
                         [mkAttr "" NumPy.uint8 [comp]])) as ->.
  { unfold _get_schema. rewrite decide_True by done.
    cbn [zip zip_with rmap make_dim rbind]. rewrite HC. cbn [rbind min_bound].
    rewrite HY. cbn [rbind min_bound]. rewrite HX. cbn [rbind min_bound]. done. }
  assert (TestHelpers.get_schema x y c comp
          = mkSchema [mkDim "C" (0, c - 1) c NumPy.uint32;
                      mkDim "Y" (0, y - 1) (Py.min y 1024) NumPy.uint32;
                      mkDim "X" (0, x - 1) (Py.min x 1024) NumPy.uint32]
                     [mkAttr "" NumPy.uint8 [comp]]) as ->.
  { unfold TestHelpers.get_schema. destruct comp; try done. by destruct (Hw input_format). }
  assert (index_dtype [c; y; x] = NumPy.uint32 <-> 65536 <= c * y * x <= 4294967295)
    as <-.
  { unfold index_dtype, NumPy.prod, NumPy.product. cbn [foldr].
    replace (c * (y * (x * 1))) with (c * y * x) by lia.
    rewrite wrap64_small by nia. unfold NumPy.min_scalar_type.
    destruct (Z.leb_spec 0 (c * y * x)); [|nia].
    destruct (Z.leb_spec (c * y * x) 255); [split; [done|lia]|].
    destruct (Z.leb_spec (c * y * x) 65535); [split; [done|lia]|].
    destruct (Z.leb_spec (c * y * x) 4294967295); [split; [lia|done]|].
    split; [done|lia]. }
  split.
  - intros [= ->]. done.
  - intros ->. done.
Qed.

Lemma tests_get_schema_agrees_witness :
  ((forall f, ZstdFilter 0 <> WebpFilter f) /\
   0 < 3 /\ 0 < 2967 /\ 0 < 2220 /\ 3 * 2967 * 2220 < 2 ^ 63) /\
  _get_schema ["C"; "Y"; "X"] [3; 2967; 2220] (max_tiles_of ∅ 1) NumPy.uint8
              (ZstdFilter 0)
  = Ok (TestHelpers.get_schema 2220 2967 3 (ZstdFilter 0)).
Proof.
  assert (forall f, ZstdFilter 0 <> WebpFilter f) as Hw by (intros f; discriminate).
  split; [split; [exact Hw|lia]|].
  apply (tests_get_schema_agrees 2220 2967 3 (ZstdFilter 0) Hw); lia.
Defined.
